(** * hclust: agglomerative hierarchical clustering

    A shallow embedding of [hclust.js] and of its extended variant (the one
    that adds progress steps, within-cluster variance and the elbow
    detector), together with the properties of the clustering engine.

    JavaScript numbers are kept behind an interface, [Number], so that every
    function is translated once and can be run at two instances:
    - [float_Number]: IEEE-754 binary64, bit for bit what a JavaScript
      engine computes;
    - [xreal_Number]: exact real arithmetic extended with NaN and the two
      infinities, following the IEEE rules for the special values; an
      idealisation, without rounding, overflow or underflow.
    Statements are made for every instance wherever they can be: they
    depend on the control flow and, for the two scans, on [<] being a
    strict order that is total away from NaN, which is proved of doubles.
    The statements made in exact arithmetic only say so, and are about
    symmetry, NaN and the order of the progress values, not about the
    values that rounding or overflow change. *)

From Stdlib Require Import List Arith Bool Lia ZArith Reals Lra Permutation Sorted.
From Stdlib Require Import Floats.
From Stdlib Require Uint63.
Import ListNotations.

Set Warnings "-register-all,-inexact-float,-uniform-inheritance".

(** ** JavaScript numbers *)

Declare Scope js_scope.
Delimit Scope js_scope with js.

Class Number (num : Type) : Type := {
  num_of_nat : nat -> num;       (* an array length or a loop counter *)
  NaN : num;
  Infinity : num;
  num_add : num -> num -> num;
  num_sub : num -> num -> num;
  num_mul : num -> num -> num;
  num_div : num -> num -> num;
  num_sqrt : num -> num;         (* Math.sqrt *)
  num_abs : num -> num;          (* Math.abs *)
  num_lt : num -> num -> bool    (* x < y; x > y is [num_lt y x] *)
}.

Infix "+" := num_add : js_scope.
Infix "-" := num_sub : js_scope.
Infix "*" := num_mul : js_scope.
Infix "/" := num_div : js_scope.
Infix "<?" := num_lt : js_scope.

(** *** IEEE-754 doubles *)

(** An array length or a loop counter becomes the double nearest to it:
    the integer itself below 2^53, and JavaScript arrays have fewer than
    2^32 elements. *)
#[export] Instance float_Number : Number float := {
  num_of_nat n := SF2Prim (binary_normalize prec emax (Z.of_nat n) 0 false);
  NaN := PrimFloat.nan;
  Infinity := PrimFloat.infinity;
  num_add := PrimFloat.add;
  num_sub := PrimFloat.sub;
  num_mul := PrimFloat.mul;
  num_div := PrimFloat.div;
  num_sqrt := PrimFloat.sqrt;
  num_abs := PrimFloat.abs;
  num_lt := PrimFloat.ltb
}.

(** *** Exact reals with NaN and infinities *)

Inductive xreal : Type :=
| XNaN
| XInf (negative : bool)
| XFin (r : R).

Definition Rltb (a b : R) : bool := if Rlt_dec a b then true else false.
Definition Reqb (a b : R) : bool := if Req_dec_T a b then true else false.

Module XReal.

Definition add (x y : xreal) : xreal :=
  match x, y with
  | XNaN, _ | _, XNaN => XNaN
  | XInf s, XInf s' => if Bool.eqb s s' then XInf s else XNaN
  | XInf s, XFin _ | XFin _, XInf s => XInf s
  | XFin a, XFin b => XFin (a + b)
  end.

Definition opp (x : xreal) : xreal :=
  match x with
  | XNaN => XNaN
  | XInf s => XInf (negb s)
  | XFin a => XFin (- a)
  end.

Definition sub (x y : xreal) : xreal :=
  match x, y with
  | XFin a, XFin b => XFin (a - b)
  | _, _ => add x (opp y)
  end.

Definition mul (x y : xreal) : xreal :=
  match x, y with
  | XNaN, _ | _, XNaN => XNaN
  | XInf s, XInf s' => XInf (xorb s s')
  | XInf s, XFin a | XFin a, XInf s =>
      if Reqb a 0 then XNaN else XInf (xorb s (Rltb a 0))
  | XFin a, XFin b => XFin (a * b)
  end.

Definition div (x y : xreal) : xreal :=
  match x, y with
  | XNaN, _ | _, XNaN => XNaN
  | XInf _, XInf _ => XNaN
  | XInf s, XFin b => XInf (xorb s (Rltb b 0))
  | XFin _, XInf _ => XFin 0
  | XFin a, XFin b =>
      if Reqb b 0
      then (if Reqb a 0 then XNaN else XInf (Rltb a 0))
      else XFin (a / b)
  end.

Definition sqrt (x : xreal) : xreal :=
  match x with
  | XNaN => XNaN
  | XInf s => if s then XNaN else XInf false
  | XFin a => if Rltb a 0 then XNaN else XFin (R_sqrt.sqrt a)
  end.

Definition abs (x : xreal) : xreal :=
  match x with
  | XNaN => XNaN
  | XInf _ => XInf false
  | XFin a => XFin (Rabs a)
  end.

Definition lt (x y : xreal) : bool :=
  match x, y with
  | XNaN, _ | _, XNaN => false
  | XInf s, XInf s' => s && negb s'
  | XInf s, XFin _ => s
  | XFin _, XInf s => negb s
  | XFin a, XFin b => Rltb a b
  end.

End XReal.

#[export] Instance xreal_Number : Number xreal := {
  num_of_nat n := XFin (INR n);
  NaN := XNaN;
  Infinity := XInf false;
  num_add := XReal.add;
  num_sub := XReal.sub;
  num_mul := XReal.mul;
  num_div := XReal.div;
  num_sqrt := XReal.sqrt;
  num_abs := XReal.abs;
  num_lt := XReal.lt
}.

(** ** Exceptions *)

(** [TypeError] is what the engine itself throws (a property read of
    [undefined], an iteration over [undefined]); [Raised] stands for
    whatever a callback throws. *)
Inductive error : Type := TypeError | Raised.

Inductive result (A : Type) : Type :=
| Ok (a : A)
| Throw (e : error).
Arguments Ok {A} a.
Arguments Throw {A} e.

Definition rbind {A B} (m : result A) (f : A -> result B) : result B :=
  match m with
  | Ok a => f a
  | Throw e => Throw e
  end.

Notation "x <- m ;; k" := (rbind m (fun x => k))
  (at level 61, m at next level, right associativity).

(** A [for] loop whose body may throw: the first exception ends the loop. *)
Fixpoint forM {A S} (xs : list A) (body : S -> A -> result S) (s : S) : result S :=
  match xs with
  | [] => Ok s
  | x :: xs' => s' <- body s x ;; forM xs' body s'
  end.

(** ** Metric library *)

Section Metric.

Context {num : Type} `{Number num}.
Local Open Scope js_scope.

(** [a[i]] of an array of numbers read inside an arithmetic expression:
    outside the array the read gives [undefined], which every arithmetic
    operator turns into [NaN]. *)
Definition at_num (a : list num) (i : nat) : num := nth i a NaN.

Definition dotProduct (vecA vecB : list num) : num :=
  fold_left (fun product i => product + at_num vecA i * at_num vecB i)
    (seq 0 (length vecA)) (num_of_nat 0).

Definition norm (vec : list num) : num :=
  num_sqrt (fold_left (fun sum i => sum + at_num vec i * at_num vec i)
              (seq 0 (length vec)) (num_of_nat 0)).

Definition cosineSimilarity (vecA vecB : list num) : num :=
  dotProduct vecA vecB / (norm vecA * norm vecB).

Definition euclideanDistance (a b : list num) : num :=
  let size := Nat.min (length a) (length b) in
  num_sqrt
    (fold_left
       (fun sum index =>
          sum + (at_num a index - at_num b index) * (at_num a index - at_num b index))
       (seq 0 size) (num_of_nat 0)).

(** [distances[a][b]] read as a summand: a missing row makes the second
    index a property read of [undefined], a [TypeError]; a missing column
    gives [undefined], hence [NaN] once added. *)
Definition at_matrix (distances : list (list num)) (a b : nat) : result num :=
  match nth_error distances a with
  | None => Throw TypeError
  | Some row => Ok (at_num row b)
  end.

Definition averageDistance (setA setB : list nat) (distances : list (list num))
  : result num :=
  distance <-
    forM setA
      (fun distance a =>
         forM setB
           (fun distance b => d <- at_matrix distances a b ;; Ok (distance + d))
           distance)
      (num_of_nat 0) ;;
  Ok (distance / num_of_nat (length setA) / num_of_nat (length setB)).

End Metric.

(** ** Progress reports

    The engine calls [onProgress] while it runs.  A computation of the
    engine takes the sequence of values already passed to the callback and
    gives it back extended, next to its result or its exception. *)

Definition prog (num A : Type) : Type := list num -> result A * list num.

Definition ret {num A} (a : A) : prog num A := fun log => (Ok a, log).

Definition bind {num A B} (m : prog num A) (f : A -> prog num B) : prog num B :=
  fun log =>
    match m log with
    | (Ok a, log') => f a log'
    | (Throw e, log') => (Throw e, log')
    end.

Definition lift {num A} (r : result A) : prog num A := fun log => (r, log).

Notation "x <~ m ;; k" := (bind m (fun x => k))
  (at level 61, m at next level, right associativity).

(** [onProgress] when it cannot throw: a value that is not a function, or
    a function that returns from every call. *)
Variant callback : Type := NotAFunction | Function.

(** [onProgress] in general.  Besides the values above it can be a
    function that throws from some of its calls: [raises history value]
    tells whether the call with [value], after it has received the values
    of [history], throws; it returns otherwise. *)
Variant handler (num : Type) : Type :=
| Returning (c : callback)
| Raising (raises : list num -> num -> bool).
Arguments Returning {num} c.
Arguments Raising {num} raises.
Coercion Returning : callback >-> handler.

(** [array.map((x, index) => ...)] with a callback that reports progress. *)
Fixpoint mapiM {num A B} (f : A -> nat -> prog num B) (xs : list A) (index : nat)
  : prog num (list B) :=
  match xs with
  | [] => ret []
  | x :: xs' => y <~ f x index ;; ys <~ mapiM f xs' (S index) ;; ret (y :: ys)
  end.

(** A [for] loop with [break]. *)
Variant flow (S : Type) : Type := Continue (s : S) | Break (s : S).
Arguments Continue {S} s.
Arguments Break {S} s.

Fixpoint forBreak {num A S} (xs : list A) (body : S -> A -> prog num (flow S)) (s : S)
  : prog num S :=
  match xs with
  | [] => ret s
  | x :: xs' =>
      r <~ body s x ;;
      match r with
      | Continue s' => forBreak xs' body s'
      | Break s' => ret s'
      end
  end.

(** [array.splice(i, 1)]: the element at [i] is removed; nothing happens at
    or beyond the length. *)
Definition splice1 {A} (i : nat) (xs : list A) : list A :=
  firstn i xs ++ skipn (S i) xs.

(** ** Agglomerative engine *)

Section Engine.

Context {num : Type} `{Number num}.
Local Open Scope js_scope.

(** A node of the dendrogram.  The singletons of the source have no
    [children] property: [None]. *)
Inductive cluster : Type :=
  Cluster (height : num) (indexes : list nat) (children : option (cluster * cluster)).

Definition height (c : cluster) : num := let (h, _, _) := c in h.
Definition indexes (c : cluster) : list nat := let (_, i, _) := c in i.
Definition children (c : cluster) : option (cluster * cluster) := let (_, _, k) := c in k.

(** What [clusterData] returns. *)
Record clustering : Type := {
  clusters : cluster;
  distances : list (list num);
  order : list nat;
  clustersGivenK : list (list (list nat))
}.

Definition linkage_fn : Type := list nat -> list nat -> list (list num) -> result num.

(** The call [onProgress(progress)] is not guarded: what the callback
    throws ends [updateProgress], and the run. *)
Definition updateProgress (stepNumber stepProgress : num) (onProgress : handler num)
  : prog num unit :=
  match onProgress with
  | Returning NotAFunction => ret tt
  | Returning Function =>
      let progress := stepNumber / num_of_nat 2 + stepProgress / num_of_nat 2 in
      fun log => (Ok tt, log ++ [progress])
  | Raising raises =>
      let progress := stepNumber / num_of_nat 2 + stepProgress / num_of_nat 2 in
      fun log =>
        (if raises log progress then Throw Raised else Ok tt, log ++ [progress])
  end.

(** [clusters[i]] followed by a property read: outside the array the read
    of a property of [undefined] is a [TypeError]. *)
Definition cluster_at (clusters : list cluster) (i : nat) : result cluster :=
  match nth_error clusters i with
  | Some c => Ok c
  | None => Throw TypeError
  end.

(** The scan over the upper triangle, rows then columns. *)
Definition findNearest (clusters : list cluster) (distances : list (list num))
    (linkage : linkage_fn) : result (num * nat * nat) :=
  forM (seq 0 (length clusters))
    (fun nearest row =>
       forM (seq (row + 1) (length clusters - (row + 1)))
         (fun nearest col =>
            let '(nearestDistance, _, _) := nearest in
            rowCluster <- cluster_at clusters row ;;
            colCluster <- cluster_at clusters col ;;
            distance <- linkage (indexes rowCluster) (indexes colCluster) distances ;;
            Ok (if distance <? nearestDistance then (distance, row, col) else nearest))
         nearest)
    (Infinity, 0, 0).

(** The merge of the two chosen clusters and the update of the working
    collection. *)
Definition mergeNearest (clusters : list cluster) (nearest : num * nat * nat)
  : result (list cluster) :=
  let '(nearestDistance, nearestRow, nearestCol) := nearest in
  rowCluster <- cluster_at clusters nearestRow ;;
  colCluster <- cluster_at clusters nearestCol ;;
  let newCluster :=
    Cluster nearestDistance (indexes rowCluster ++ indexes colCluster)
      (Some (rowCluster, colCluster)) in
  let clusters := splice1 (Nat.max nearestRow nearestCol) clusters in
  let clusters := splice1 (Nat.min nearestRow nearestCol) clusters in
  Ok (clusters ++ [newCluster]).

(** One merge iteration: the scan, then the merge. *)
Definition mergeIteration (clusters : list cluster) (distances : list (list num))
    (linkage : linkage_fn) : result (list cluster) :=
  nearest <- findNearest clusters distances linkage ;;
  mergeNearest clusters nearest.

(** The body of the main loop; the state is the working collection and
    the slices pushed so far. *)
Definition iterationBody (N : nat) (distances : list (list num)) (linkage : linkage_fn)
    (onProgress : handler num)
    (state : list cluster * list (list (list nat))) (iteration : nat)
  : prog num (flow (list cluster * list (list (list nat)))) :=
  let '(clusters, clustersGivenK) := state in
  _ <~ updateProgress (num_of_nat 1) (num_of_nat (iteration + 1) / num_of_nat N) onProgress ;;
  let clustersGivenK := clustersGivenK ++ [map indexes clusters] in
  if (Z.of_nat N - 1 <=? Z.of_nat iteration)%Z
  then ret (Break (clusters, clustersGivenK))
  else
    clusters <~ lift (mergeIteration clusters distances linkage) ;;
    ret (Continue (clusters, clustersGivenK)).

(** The main function, for the default [key] (no extraction).  [distance]
    is taken to return a number; [linkage] may throw, as the default one
    does on a row that the matrix lacks, and so may [onProgress]. *)
Definition clusterData {A : Type} (data : list A) (distance : A -> A -> num)
    (linkage : linkage_fn) (onProgress : handler num) : prog num clustering :=
  let N := length data in
  distances <~
    mapiM (fun datum index =>
             _ <~ updateProgress (num_of_nat 0)
                    (num_of_nat index / (num_of_nat N - num_of_nat 1)) onProgress ;;
             ret (map (fun otherDatum => distance datum otherDatum) data))
      data 0 ;;
  let clusters :=
    map (fun index => Cluster (num_of_nat 0) [index] None) (seq 0 N) in
  state <~ forBreak (seq 0 N) (iterationBody N distances linkage onProgress)
             (clusters, []) ;;
  let '(clusters, clustersGivenK) := state in
  let clustersGivenK := [] :: rev clustersGivenK in
  root <~ lift (cluster_at clusters 0) ;;
  ret {| clusters := root;
         distances := distances;
         order := indexes root;
         clustersGivenK := clustersGivenK |}.

End Engine.

Arguments linkage_fn num : clear implicits.
Arguments cluster num : clear implicits.
Arguments clustering num : clear implicits.
Arguments Cluster {num} height indexes children.

(** ** Elbow selector *)

(** The argument [K] of [calculateWithinClusterVariance], as the guard and
    the index read see it: an integer, a number strictly between the
    integers [k] and [k + 1], or NaN.  (An infinity passes the guard like
    an integer beyond the table.) *)
Variant level : Type :=
| Whole (k : Z)
| Between (k : Z)
| NotANumber.
Coercion Whole : Z >-> level.

(** [K <= 0]. *)
Definition level_le_zero (K : level) : bool :=
  match K with
  | Whole k => (k <=? 0)%Z
  | Between k => (k <? 0)%Z
  | NotANumber => false
  end.

(** [K >= n], for a length [n]. *)
Definition level_ge_length (K : level) (n : nat) : bool :=
  match K with
  | Whole k | Between k => (Z.of_nat n <=? k)%Z
  | NotANumber => false
  end.

Section Elbow.

Context {num : Type} `{Number num}.
Local Open Scope js_scope.

Definition calculateDistance (point1 point2 : nat) (distances : list (list num))
  : result num :=
  at_matrix distances point1 point2.

Definition calculateClusterVariance (cluster : list nat) (distances : list (list num))
  : result num :=
  if length cluster <=? 1 then Ok (num_of_nat 0)
  else
    acc <-
      forM (seq 0 (length cluster))
        (fun acc i =>
           forM (seq (i + 1) (length cluster - (i + 1)))
             (fun acc j =>
                let '(sumOfDistances, count) := acc in
                d <- calculateDistance (nth i cluster 0) (nth j cluster 0) distances ;;
                Ok (sumOfDistances + d, S count))
             acc)
        (num_of_nat 0, 0) ;;
    let '(sumOfDistances, count) := acc in
    Ok (sumOfDistances / num_of_nat count).

(** [None] is the [null] of the source.  Past the guard, [K] is used as
    an index: an integer names an entry of the table, any other number
    reads [undefined], and the [for ... of] over [undefined] throws a
    TypeError.  The source declares this function without the [=] between
    its name and its parameters; it is read as the arrow function that the
    exports and the body describe. *)
Definition calculateWithinClusterVariance (clustersGivenK : list (list (list nat)))
    (distances : list (list num)) (K : level) : result (option num) :=
  if level_le_zero K || level_ge_length K (length clustersGivenK) then Ok None
  else
    match K with
    | Whole k =>
        let clustersAtK := nth (Z.to_nat k) clustersGivenK [] in
        totalVariance <-
          forM clustersAtK
            (fun totalVariance cluster =>
               v <- calculateClusterVariance cluster distances ;;
               Ok (totalVariance + v))
            (num_of_nat 0) ;;
        Ok (Some totalVariance)
    | Between _ | NotANumber => Throw TypeError
    end.

Definition findElbowPoint (variances : list num) : nat :=
  let nPoints := length variances in
  let firstPoint := [num_of_nat 1; at_num variances 0] in
  let lastPoint := [num_of_nat nPoints; at_num variances (nPoints - 1)] in
  snd
    (fold_left
       (fun best i =>
          let '(maxDistance, elbowPoint) := best in
          let currentPoint := [num_of_nat i; at_num variances (i - 1)] in
          let distance :=
            num_abs ((at_num lastPoint 1 - at_num firstPoint 1) * at_num currentPoint 0
                     - (at_num lastPoint 0 - at_num firstPoint 0) * at_num currentPoint 1
                     + at_num lastPoint 0 * at_num firstPoint 1
                     - at_num lastPoint 1 * at_num firstPoint 0)
            / euclideanDistance firstPoint lastPoint in
          if maxDistance <? distance then (distance, i) else best)
       (seq 2 (nPoints - 1))
       (num_of_nat 0, 1)).

End Elbow.

Arguments calculateWithinClusterVariance {num _} clustersGivenK distances K%_Z.

(** ** The specification's notions

    Written from the words of the specification, to be compared with the
    functions above. *)

Section Specification.

Context {num : Type} `{Number num}.
Local Open Scope js_scope.

(** A sum, taken in the order of the list. *)
Definition sum_of (xs : list num) : num := fold_left num_add xs (num_of_nat 0).

Definition arithmetic_mean (xs : list num) : num :=
  sum_of xs / num_of_nat (length xs).

(** (a_i - b_i)^2 along the shared prefix of two vectors. *)
Definition squared_differences (a b : list num) : list num :=
  map (fun p => (fst p - snd p) * (fst p - snd p)) (combine a b).

(** M[i][j], read as a number. *)
Definition entry (M : list (list num)) (i j : nat) : num := at_num (nth i M []) j.

(** M[i][j] for all i in setA and j in setB. *)
Definition pair_distances (setA setB : list nat) (M : list (list num)) : list num :=
  flat_map (fun i => map (fun j => entry M i j) setB) setA.

(** The unordered pairs of members of a cluster. *)
Fixpoint pairs_of (c : list nat) : list (nat * nat) :=
  match c with
  | [] => []
  | x :: xs => map (pair x) xs ++ pairs_of xs
  end.

(** Mean pairwise distance inside a cluster, 0 for at most one member. *)
Definition mean_pairwise_distance (M : list (list num)) (c : list nat) : num :=
  if length c <=? 1 then num_of_nat 0
  else arithmetic_mean (map (fun p => entry M (fst p) (snd p)) (pairs_of c)).

(** The index sets cover 0..N-1, each index once. *)
Definition partitions (N : nat) (sets : list (list nat)) : Prop :=
  Permutation (concat sets) (seq 0 N).

(** The rows read for a cluster: one for the first index of each pair. *)
Definition pair_rows_exist (M : list (list num)) (c : list nat) : Prop :=
  Forall (fun p => fst p < length M) (pairs_of c).

(** The N x N matrix that [clusterData] builds. *)
Definition distance_matrix {A : Type} (data : list A) (distance : A -> A -> num)
  : list (list num) :=
  map (fun datum => map (fun otherDatum => distance datum otherDatum) data) data.

(** The linkage function returns, with a value below [Infinity], on the
    pairs of index sets that two live clusters can have over N records:
    two non-empty lists of indexes below N, without repetition and
    without a common index. *)
Definition linkage_below_Infinity (N : nat) (M : list (list num))
    (linkage : linkage_fn num) : Prop :=
  forall a b : list nat,
    a <> [] -> b <> [] -> NoDup (a ++ b) ->
    Forall (fun i => i < N) a -> Forall (fun i => i < N) b ->
    exists v, linkage a b M = Ok v /\ (v <? Infinity) = true.

(** The lists of [k] different members of [pool], and the lists of
    indexes below N without repetition: what an index set over N records
    can be. *)
Fixpoint arrangements (k : nat) (pool : list nat) : list (list nat) :=
  match k with
  | 0 => [[]]
  | S k' =>
      flat_map (fun x => map (cons x) (arrangements k' (remove Nat.eq_dec x pool))) pool
  end.

Definition index_sets (N : nat) : list (list nat) :=
  flat_map (fun k => arrangements k (seq 0 N)) (seq 0 (S N)).

(** The same condition as a test that can be run: the linkage function
    returns a value below [Infinity] on every two non-empty index sets. *)
Definition below_Infinity_on_index_sets (N : nat) (M : list (list num))
    (linkage : linkage_fn num) : bool :=
  forallb
    (fun a =>
       forallb
         (fun b =>
            match a, b with
            | [], _ | _, [] => true
            | _, _ =>
                match linkage a b M with
                | Ok v => v <? Infinity
                | Throw _ => false
                end
            end)
         (index_sets N))
    (index_sets N).

(** The working collection: its index sets partition 0..N-1 and none is
    empty. *)
Definition live (N : nat) (clusters : list (cluster num)) : Prop :=
  partitions N (map indexes clusters)
  /\ Forall (fun c => indexes c <> []) clusters.

(** The slices pushed from a state of [m] live clusters on: the j-th has
    m - j index sets, which partition 0..N-1. *)
Definition slices (N m : nat) (snapshots : list (list (list nat))) : Prop :=
  length snapshots = m
  /\ forall j, j < m ->
       length (nth j snapshots []) = (m - j)%nat /\ partitions N (nth j snapshots []).

(** What reaches the callback. *)
Definition reports (onProgress : callback) (values : list num) : list num :=
  match onProgress with
  | Function => values
  | NotAFunction => []
  end.

(** The value reported for a row of the matrix, and for a merge
    iteration. *)
Definition build_progress (N index : nat) : num :=
  num_of_nat 0 / num_of_nat 2
  + num_of_nat index / (num_of_nat N - num_of_nat 1) / num_of_nat 2.

Definition merge_progress (N iteration : nat) : num :=
  num_of_nat 1 / num_of_nat 2
  + num_of_nat (iteration + 1) / num_of_nat N / num_of_nat 2.

(** [<] is a strict order, and total on the numbers that compare with
    anything at all: when [x < y], a number [z] that is below or above some
    number is above [x] or below [y].  This is what the scans for the
    nearest pair and for the elbow rely on.  It holds of IEEE doubles,
    where NaN compares with nothing. *)
Class StrictOrder_lt : Prop := {
  lt_irrefl : forall x : num, (x <? x) = false;
  lt_trans : forall x y z : num, (x <? y) = true -> (y <? z) = true -> (x <? z) = true;
  lt_between : forall x y z w : num,
    (x <? y) = true -> (z <? w) = true \/ (w <? z) = true ->
    (x <? z) = true \/ (z <? y) = true
}.

(** Row-major order of the scan. *)
Definition scanned_before (p q : nat * nat) : Prop :=
  fst p < fst q \/ (fst p = fst q /\ snd p < snd q).

(** The pairs (row, col) in the order in which the two loops visit them. *)
Definition scan_pairs (n : nat) : list (nat * nat) :=
  flat_map (fun row => map (pair row) (seq (row + 1) (n - (row + 1)))) (seq 0 n).

(** The linkage value of the clusters at positions [fst p] and [snd p]. *)
Definition pair_linkage (clusters : list (cluster num)) (distances : list (list num))
    (linkage : linkage_fn num) (p : nat * nat) : result num :=
  rowCluster <- cluster_at clusters (fst p) ;;
  colCluster <- cluster_at clusters (snd p) ;;
  linkage (indexes rowCluster) (indexes colCluster) distances.

(** The update of the candidate at one pair. *)
Definition consider (nearest : num * nat * nat) (p : nat * nat) (distance : num)
  : num * nat * nat :=
  if distance <? fst (fst nearest) then (distance, fst p, snd p) else nearest.

(** One step of the scan when every pair has a value. *)
Definition scan_step (value : nat * nat -> num) (nearest : num * nat * nat)
    (p : nat * nat) : num * nat * nat :=
  consider nearest p (value p).

(** Distance of the point (x0, y0) to the line through (x1, y1) and
    (x2, y2) by the two-point formula, in the arithmetic at hand; the
    denominator is the distance between the two points. *)
Definition point_line_distance (x1 y1 x2 y2 x0 y0 : num) : num :=
  num_abs ((y2 - y1) * x0 - (x2 - x1) * y0 + x2 * y1 - y2 * x1)
  / euclideanDistance [x1; y1] [x2; y2].

(** Distance of the point (k, variance[k]) to the chord from
    (1, variance[1]) to (N, variance[N]), with 1-based positions. *)
Definition chord_distance (variances : list num) (k : nat) : num :=
  let N := length variances in
  point_line_distance
    (num_of_nat 1) (at_num variances 0)
    (num_of_nat N) (at_num variances (N - 1))
    (num_of_nat k) (at_num variances (k - 1)).

(** The update of the best point at position [i]. *)
Definition elbow_step (distance : nat -> num) (best : num * nat) (i : nat) : num * nat :=
  if fst best <? distance i then (distance i, i) else best.

End Specification.

(** ** The first variant of the module

    [hclust.js] has the same metric library and the same engine, without
    the progress steps; its [clusterData] reports nothing. *)

Fixpoint forBreakR {A S} (xs : list A) (body : S -> A -> result (flow S)) (s : S)
  : result S :=
  match xs with
  | [] => Ok s
  | x :: xs' =>
      r <- body s x ;;
      match r with
      | Continue s' => forBreakR xs' body s'
      | Break s' => Ok s'
      end
  end.

Module Hclust.
Section Engine.

Context {num : Type} `{Number num}.

Definition iterationBody (N : nat) (distances : list (list num)) (linkage : linkage_fn num)
    (state : list (cluster num) * list (list (list nat))) (iteration : nat)
  : result (flow (list (cluster num) * list (list (list nat)))) :=
  let '(clusters, clustersGivenK) := state in
  let clustersGivenK := clustersGivenK ++ [map indexes clusters] in
  if (Z.of_nat N - 1 <=? Z.of_nat iteration)%Z
  then Ok (Break (clusters, clustersGivenK))
  else
    clusters <- mergeIteration clusters distances linkage ;;
    Ok (Continue (clusters, clustersGivenK)).

Definition clusterData {A : Type} (data : list A) (distance : A -> A -> num)
    (linkage : linkage_fn num) : result (clustering num) :=
  let N := length data in
  let distances :=
    map (fun datum => map (fun otherDatum => distance datum otherDatum) data) data in
  let clusters :=
    map (fun index => Cluster (num_of_nat 0) [index] None) (seq 0 N) in
  state <- forBreakR (seq 0 N) (iterationBody N distances linkage) (clusters, []) ;;
  let '(clusters, clustersGivenK) := state in
  let clustersGivenK := [] :: rev clustersGivenK in
  root <- cluster_at clusters 0 ;;
  Ok {| clusters := root;
        distances := distances;
        order := indexes root;
        clustersGivenK := clustersGivenK |}.

End Engine.
End Hclust.

(** A run with a callback ends as a run without one does, or in what the
    callback threw. *)
Definition agrees_or_raised {A : Type} (r r' : result A) : Prop :=
  r = r' \/ r = Throw Raised.

(** ** Exact arithmetic: auxiliary notions *)

(** A real number, among the values of [xreal]. *)
Definition finite (x : xreal) : Prop := exists r, x = XFin r.

(** The fractions reported with two records or more. *)
Definition build_fraction (N index : nat) : R :=
  (INR 0 / INR 2 + INR index / (INR N - INR 1) / INR 2)%R.

Definition merge_fraction (N iteration : nat) : R :=
  (INR 1 / INR 2 + INR (iteration + 1) / INR N / INR 2)%R.

(** ** The dendrogram *)

Section Dendrogram.

Context {num : Type} `{Number num}.
Local Open Scope js_scope.

(** The leaves under a node, left to right. *)
Fixpoint leaves (c : cluster num) : list nat :=
  match c with
  | Cluster _ i k =>
      match k with
      | None => i
      | Some (l, r) => leaves l ++ leaves r
      end
  end.

(** The number of merges recorded under a node. *)
Fixpoint merges (c : cluster num) : nat :=
  match c with
  | Cluster _ _ k =>
      match k with
      | None => 0
      | Some (l, r) => S (merges l + merges r)
      end
  end.

(** A node without children is one record at height 0; a node with
    children holds the indexes of the left child, then those of the right
    child. *)
Fixpoint well_formed (c : cluster num) : Prop :=
  match c with
  | Cluster h i k =>
      match k with
      | None => (exists index, i = [index]) /\ h = num_of_nat 0
      | Some (l, r) => i = indexes l ++ indexes r /\ well_formed l /\ well_formed r
      end
  end.

(** The height of every merge is the linkage value of the two clusters
    merged, a value below [Infinity]. *)
Fixpoint linked (M : list (list num)) (linkage : linkage_fn num) (c : cluster num) : Prop :=
  match c with
  | Cluster h _ k =>
      match k with
      | None => True
      | Some (l, r) =>
          linkage (indexes l) (indexes r) M = Ok h /\ (h <? Infinity) = true
          /\ linked M linkage l /\ linked M linkage r
      end
  end.

(** The linkage function returns, whatever the value, on index sets over
    0..N-1. *)
Definition linkage_returns (N : nat) (M : list (list num)) (linkage : linkage_fn num)
  : Prop :=
  forall a b : list nat,
    Forall (fun i => i < N) a -> Forall (fun i => i < N) b ->
    exists v, linkage a b M = Ok v.

(** The indexes of every live cluster name records. *)
Definition in_range (N : nat) (clusters : list (cluster num)) : Prop :=
  Forall (fun c => Forall (fun i => i < N) (indexes c)) clusters.

(** The slices pushed from a state of [m] live clusters on, each the index
    sets of a working collection that satisfies [P]. *)
Definition slices_of (P : list (cluster num) -> Prop) (m : nat)
    (snapshots : list (list (list nat))) : Prop :=
  length snapshots = m
  /\ forall j, j < m ->
       exists clusters, nth j snapshots [] = map indexes clusters
                        /\ length clusters = (m - j)%nat /\ P clusters.

(** The invariant of a run whose merges all have a pair to choose. *)
Definition proper (N : nat) (M : list (list num)) (linkage : linkage_fn num)
    (clusters : list (cluster num)) : Prop :=
  live N clusters
  /\ Forall well_formed clusters
  /\ Forall (linked M linkage) clusters
  /\ (list_sum (map merges clusters) + length clusters)%nat = N.

End Dendrogram.

(** ** Concrete inputs *)

(** Four points in the plane, two tight pairs; over the reals. *)
Definition four_points : list (list xreal) :=
  map (map XFin) [[0; 0]; [0; 1]; [5; 5]; [5; 6]]%R.

(** The same four points, as doubles. *)
Definition four_points_double : list (list float) :=
  [[0; 0]; [0; 1]; [5; 5]; [5; 6]]%float.

(** Two records that are the zero vector, as doubles. *)
Definition zero_vectors : list (list float) := [[0; 0]; [0; 0]]%float.

(** The zero vector and two unit vectors, as doubles: under the cosine
    similarity the pairs with the zero vector have the value NaN. *)
Definition three_vectors : list (list float) := [[0; 0]; [1; 0]; [0; 1]]%float.

(** The table of a run over two records, and a matrix for it. *)
Definition table_of_two : list (list (list nat)) := [[]; [[0; 1]]; [[0]; [1]]].
Definition matrix_of_two : list (list float) := [[0; 1]; [1; 0]]%float.
Definition real_matrix_of_two : list (list xreal) :=
  [[XFin 0; XFin 1]; [XFin 1; XFin 0]].

(** Seven rows of three entries 0.3, as doubles. *)
Definition matrix_of_thirds : list (list float) := repeat (repeat 0.3%float 3) 7.

(** A table for three records, and a matrix of finite distances whose
    sums overflow. *)
Definition table_of_three : list (list (list nat)) :=
  [[]; [[0; 1; 2]]; [[2]; [0; 1]]; [[0]; [1]; [2]]].
Definition huge_matrix : list (list float) :=
  [[0; 1e308; 1e308]; [1e308; 0; 1e308]; [1e308; 1e308; 0]]%float.

(** * Properties *)

(** ** Loops *)

Lemma fold_left_map_compose {A B C} (f : A -> C -> A) (g : B -> C) (l : list B) (a : A) :
  fold_left f (map g l) a = fold_left (fun acc x => f acc (g x)) l a.
Proof.
  revert a; induction l as [| x l IH]; intros a; simpl; [reflexivity | apply IH].
Qed.

Lemma fold_left_ext_in {A B} (f g : A -> B -> A) (l : list B) (a : A) :
  (forall acc x, In x l -> f acc x = g acc x) ->
  fold_left f l a = fold_left g l a.
Proof.
  revert a; induction l as [| x l IH]; intros a Hfg; simpl; [reflexivity |].
  rewrite (Hfg a x) by (left; reflexivity).
  apply IH; intros acc y Hy; apply Hfg; right; exact Hy.
Qed.

Lemma forM_app {A S} (xs ys : list A) (body : S -> A -> result S) (s : S) :
  forM (xs ++ ys) body s = (s' <- forM xs body s ;; forM ys body s').
Proof.
  revert s; induction xs as [| x xs IH]; intros s; simpl; [reflexivity |].
  destruct (body s x) as [s' | e]; simpl; [apply IH | reflexivity].
Qed.

Lemma forM_ext_in {A S} (xs : list A) (f g : S -> A -> result S) (s : S) :
  (forall acc x, In x xs -> f acc x = g acc x) ->
  forM xs f s = forM xs g s.
Proof.
  revert s; induction xs as [| x xs IH]; intros s Hfg; simpl; [reflexivity |].
  rewrite (Hfg s x) by (left; reflexivity).
  destruct (g s x) as [s' | e]; simpl; [| reflexivity].
  apply IH; intros acc y Hy; apply Hfg; right; exact Hy.
Qed.

(** A loop whose body never throws is a fold. *)
Lemma forM_pure {A S} (xs : list A) (f : S -> A -> S) (s : S) :
  forM xs (fun acc x => Ok (f acc x)) s = Ok (fold_left f xs s).
Proof.
  revert s; induction xs as [| x xs IH]; intros s; simpl; [reflexivity | apply IH].
Qed.

Lemma forM_map {A B S} (g : B -> A) (xs : list B) (body : S -> A -> result S) (s : S) :
  forM (map g xs) body s = forM xs (fun acc x => body acc (g x)) s.
Proof.
  revert s; induction xs as [| x xs IH]; intros s; simpl; [reflexivity |].
  destruct (body s (g x)); simpl; [apply IH | reflexivity].
Qed.

(** ** Metric library *)

Section MetricFacts.

Context {num : Type} `{Number num}.
Local Open Scope js_scope.

Lemma index_loop_combine (g : num -> num -> num) (a b : list num) (acc : num) :
  fold_left (fun sum index => sum + g (at_num a index) (at_num b index))
    (seq 0 (Nat.min (length a) (length b))) acc
  = fold_left num_add (map (fun p => g (fst p) (snd p)) (combine a b)) acc.
Proof.
  revert b acc; induction a as [| x a IH]; intros [| y b] acc; simpl; try reflexivity.
  rewrite <- seq_shift, fold_left_map_compose.
  unfold at_num in *; simpl. apply IH.
Qed.

Lemma combine_firstn_min {A B} (a : list A) (b : list B) :
  combine (firstn (Nat.min (length a) (length b)) a)
          (firstn (Nat.min (length a) (length b)) b)
  = combine a b.
Proof.
  revert b; induction a as [| x a IH]; intros [| y b]; simpl; try reflexivity.
  f_equal; apply IH.
Qed.

Lemma euclideanDistance_sum (a b : list num) :
  euclideanDistance a b = num_sqrt (sum_of (squared_differences a b)).
Proof.
  unfold euclideanDistance, sum_of, squared_differences.
  f_equal.
  apply (index_loop_combine (fun x y => (x - y) * (x - y))).
Qed.

(** C8.  [euclideanDistance a b] is the square root of the sum of the
    squared differences over the shared prefix of [a] and [b], for vectors
    of any two lengths; only the first min(|a|,|b|) elements of each
    vector count, so what follows them in the longer one has no effect.
    Holds for every model of numbers, IEEE doubles included. *)
Theorem euclideanDistance_shared_prefix (a b : list num) :
  let size := Nat.min (length a) (length b) in
  length (squared_differences a b) = size
  /\ euclideanDistance a b = num_sqrt (sum_of (squared_differences a b))
  /\ euclideanDistance a b = euclideanDistance (firstn size a) (firstn size b).
Proof.
  intros size.
  pose proof (euclideanDistance_sum a b) as Heq.
  split; [| split].
  - unfold squared_differences. rewrite length_map, length_combine. reflexivity.
  - exact Heq.
  - rewrite Heq.
    unfold euclideanDistance.
    rewrite (index_loop_combine (fun x y => (x - y) * (x - y))).
    unfold sum_of, squared_differences, size.
    rewrite combine_firstn_min. reflexivity.
Qed.

End MetricFacts.

Section AverageDistanceFacts.

Context {num : Type} `{Number num}.
Local Open Scope js_scope.

Lemma at_matrix_entry (M : list (list num)) (a b : nat) :
  a < length M -> at_matrix M a b = Ok (entry M a b).
Proof.
  intros Ha. unfold at_matrix, entry.
  rewrite (nth_error_nth' M [] Ha). reflexivity.
Qed.

Lemma fold_left_flat_map {A B} (f : num -> B -> num) (g : A -> list B) (l : list A) (acc : num) :
  fold_left f (flat_map g l) acc
  = fold_left (fun acc x => fold_left f (g x) acc) l acc.
Proof.
  revert acc; induction l as [| x l IH]; intros acc; simpl; [reflexivity |].
  rewrite fold_left_app. apply IH.
Qed.

(** The two nested loops of [averageDistance] add up M[a][b] row by row. *)
Lemma averageDistance_loops (setA setB : list nat) (M : list (list num)) (acc : num) :
  Forall (fun a => a < length M) setA ->
  forM setA
    (fun distance a =>
       forM setB (fun distance b => d <- at_matrix M a b ;; Ok (distance + d)) distance)
    acc
  = Ok (fold_left num_add (pair_distances setA setB M) acc).
Proof.
  intros Hrows. unfold pair_distances.
  rewrite fold_left_flat_map.
  rewrite <- forM_pure.
  apply forM_ext_in; intros d a Ha.
  rewrite Forall_forall in Hrows. specialize (Hrows a Ha).
  rewrite fold_left_map_compose, <- forM_pure.
  apply forM_ext_in; intros d' b _.
  rewrite (at_matrix_entry _ _ _ Hrows). reflexivity.
Qed.

(** For every model of numbers: the accumulated sum divided by the one
    length, then by the other. *)
Lemma averageDistance_sum (setA setB : list nat) (M : list (list num)) :
  Forall (fun a => a < length M) setA ->
  averageDistance setA setB M
  = Ok (sum_of (pair_distances setA setB M)
        / num_of_nat (length setA) / num_of_nat (length setB)).
Proof.
  intros Hrows. unfold averageDistance.
  rewrite averageDistance_loops by exact Hrows. reflexivity.
Qed.

Lemma pair_distances_length (setA setB : list nat) (M : list (list num)) :
  length (pair_distances setA setB M) = (length setA * length setB)%nat.
Proof.
  unfold pair_distances.
  induction setA as [| a setA IH]; simpl; [reflexivity |].
  rewrite length_app, length_map, IH. reflexivity.
Qed.

(** An empty loop over [setB] in every round leaves the sum alone, and no
    row of the matrix is read. *)
Lemma averageDistance_loops_nil (setA : list nat) (M : list (list num)) (acc : num) :
  forM setA
    (fun distance a =>
       forM [] (fun distance b => d <- at_matrix M a b ;; Ok (distance + d)) distance)
    acc
  = Ok acc.
Proof.
  induction setA as [| a setA IH]; simpl; [reflexivity | exact IH].
Qed.

End AverageDistanceFacts.

(** ** Exact arithmetic *)

Ltac Rdecide :=
  unfold Rltb, Reqb;
  repeat match goal with
         | |- context [Rlt_dec ?a ?b] => destruct (Rlt_dec a b)
         | |- context [Req_dec_T ?a ?b] => destruct (Req_dec_T a b)
         | H : context [Rlt_dec ?a ?b] |- _ => destruct (Rlt_dec a b)
         | H : context [Req_dec_T ?a ?b] |- _ => destruct (Req_dec_T a b)
         end.

Lemma Rltb_true (a b : R) : (a < b)%R -> Rltb a b = true.
Proof. intros; Rdecide; [reflexivity | lra]. Qed.

Lemma Rltb_false (a b : R) : (b <= a)%R -> Rltb a b = false.
Proof. intros; Rdecide; [lra | reflexivity]. Qed.

Lemma Reqb_true (a b : R) : a = b -> Reqb a b = true.
Proof. intros; Rdecide; [reflexivity | contradiction]. Qed.

Lemma Reqb_false (a b : R) : a <> b -> Reqb a b = false.
Proof. intros; Rdecide; [contradiction | reflexivity]. Qed.

Lemma INR_pos (n : nat) : 0 < n -> (0 < INR n)%R.
Proof. intros Hn. apply lt_0_INR. exact Hn. Qed.

Module XRealFacts.

Lemma div_nat (r : R) (n : nat) :
  0 < n -> XReal.div (XFin r) (XFin (INR n)) = XFin (r / INR n).
Proof.
  intros Hn. pose proof (INR_pos _ Hn). simpl.
  rewrite Reqb_false by lra. reflexivity.
Qed.

Lemma div_div_nat (x : xreal) (a b : nat) :
  0 < a -> 0 < b ->
  XReal.div (XReal.div x (XFin (INR a))) (XFin (INR b))
  = XReal.div x (XFin (INR (a * b))).
Proof.
  intros Ha Hb.
  assert (Hab : 0 < a * b) by (apply Nat.mul_pos_pos; assumption).
  pose proof (INR_pos _ Ha) as Ha'. pose proof (INR_pos _ Hb) as Hb'.
  pose proof (INR_pos _ Hab) as Hab'.
  destruct x as [| s | r].
  - reflexivity.
  - simpl. rewrite !Rltb_false by lra. destruct s; reflexivity.
  - rewrite !div_nat by assumption. f_equal.
    rewrite mult_INR. field. lra.
Qed.

Lemma zero_div_zero : XReal.div (XFin 0) (XFin 0) = XNaN.
Proof. simpl. rewrite !Reqb_true by reflexivity. reflexivity. Qed.

Lemma lt_irrefl (x : xreal) : XReal.lt x x = false.
Proof.
  destruct x as [| s | r]; simpl; [reflexivity | destruct s; reflexivity |].
  apply Rltb_false; lra.
Qed.

Lemma lt_trans (x y z : xreal) :
  XReal.lt x y = true -> XReal.lt y z = true -> XReal.lt x z = true.
Proof.
  destruct x as [| [|] | a], y as [| [|] | b], z as [| [|] | c]; simpl;
    try discriminate; try reflexivity.
  unfold Rltb. destruct (Rlt_dec a b), (Rlt_dec b c), (Rlt_dec a c);
    try discriminate; try reflexivity.
  lra.
Qed.

Lemma lt_between (x y z w : xreal) :
  XReal.lt x y = true -> XReal.lt z w = true \/ XReal.lt w z = true ->
  XReal.lt x z = true \/ XReal.lt z y = true.
Proof.
  intros Hxy Hz.
  assert (Hnan : z <> XNaN).
  { intros ->. destruct Hz as [Hz | Hz]; [discriminate |].
    destruct w as [| [|] |]; discriminate. }
  clear Hz w.
  destruct x as [| [|] | a], y as [| [|] | b], z as [| [|] | c]; simpl in *;
    try discriminate; try contradiction; auto.
  unfold Rltb in *.
  destruct (Rlt_dec a b); [| discriminate].
  destruct (Rlt_dec a c); [left; reflexivity |].
  destruct (Rlt_dec c b); [right; reflexivity | lra].
Qed.

End XRealFacts.

#[export] Instance xreal_StrictOrder : @StrictOrder_lt xreal _ := {
  lt_irrefl := XRealFacts.lt_irrefl;
  lt_trans := XRealFacts.lt_trans;
  lt_between := XRealFacts.lt_between
}.

(** *** IEEE doubles: [<] is a strict order, NaN included *)

Ltac compare_cases :=
  repeat match goal with
         | H : context [Z.compare ?x ?y] |- _ => destruct (Z.compare_spec x y)
         | H : context [Pos.compare_cont Eq ?x ?y] |- _ =>
             change (Pos.compare_cont Eq x y) with (Pos.compare x y) in *;
             destruct (Pos.compare_spec x y)
         | |- context [Z.compare ?x ?y] => destruct (Z.compare_spec x y)
         | |- context [Pos.compare_cont Eq ?x ?y] =>
             change (Pos.compare_cont Eq x y) with (Pos.compare x y) in *;
             destruct (Pos.compare_spec x y)
         end.

Module FloatFacts.

Lemma SFltb_irrefl (a : spec_float) : SFltb a a = false.
Proof.
  unfold SFltb, SFcompare.
  destruct a as [s | s | | s m e]; try destruct s; try reflexivity;
    rewrite Z.compare_refl; fold (Pos.compare m m); rewrite Pos.compare_refl; reflexivity.
Qed.

Lemma SFltb_trans (a b c : spec_float) :
  SFltb a b = true -> SFltb b c = true -> SFltb a c = true.
Proof.
  unfold SFltb, SFcompare.
  destruct a as [sa | sa | | sa ma ea], b as [sb | sb | | sb mb eb],
           c as [sc | sc | | sc mc ec];
    try destruct sa; try destruct sb; try destruct sc;
    try discriminate; try reflexivity;
    intros Hab Hbc; compare_cases; simpl in *; try discriminate; try reflexivity;
    subst; try lia.
Qed.

Lemma SFltb_between (a b c d : spec_float) :
  SFltb a b = true -> SFltb c d = true \/ SFltb d c = true ->
  SFltb a c = true \/ SFltb c b = true.
Proof.
  intros Hab Hc.
  assert (Hnan : c <> S754_nan).
  { intros ->. destruct Hc as [Hc | Hc]; [discriminate |].
    unfold SFltb, SFcompare in Hc. destruct d as [[|] | [|] | | [|] ? ?]; discriminate. }
  clear Hc d. revert Hab. unfold SFltb, SFcompare.
  destruct a as [sa | sa | | sa ma ea], b as [sb | sb | | sb mb eb],
           c as [sc | sc | | sc mc ec];
    try destruct sa; try destruct sb; try destruct sc;
    try discriminate; try contradiction; auto;
    intros Hab; compare_cases; simpl in *; try discriminate; auto;
    subst; try lia.
Qed.

Lemma ltb_between (x y z w : float) :
  PrimFloat.ltb x y = true -> PrimFloat.ltb z w = true \/ PrimFloat.ltb w z = true ->
  PrimFloat.ltb x z = true \/ PrimFloat.ltb z y = true.
Proof. rewrite !ltb_spec. apply SFltb_between. Qed.

Lemma ltb_irrefl (x : float) : PrimFloat.ltb x x = false.
Proof. rewrite ltb_spec. apply SFltb_irrefl. Qed.

Lemma ltb_trans (x y z : float) :
  PrimFloat.ltb x y = true -> PrimFloat.ltb y z = true -> PrimFloat.ltb x z = true.
Proof. rewrite !ltb_spec. apply SFltb_trans. Qed.

Lemma nan_div (x : float) : (nan / x)%float = nan.
Proof.
  apply Prim2SF_inj. rewrite div_spec.
  change (Prim2SF nan) with S754_nan.
  unfold SF64div, SFdiv. reflexivity.
Qed.

(** 0 / x is a zero or NaN whatever x is, and either of them over 0 is
    NaN. *)
Lemma zero_div_div_zero (x : float) : (0 / x / 0)%float = nan.
Proof.
  apply Prim2SF_inj. rewrite !div_spec.
  change (Prim2SF nan) with S754_nan. change (Prim2SF 0) with (S754_zero false).
  unfold SF64div, SFdiv. destruct (Prim2SF x); reflexivity.
Qed.

End FloatFacts.

#[export] Instance float_StrictOrder : @StrictOrder_lt float _ := {
  lt_irrefl := FloatFacts.ltb_irrefl;
  lt_trans := FloatFacts.ltb_trans;
  lt_between := FloatFacts.ltb_between
}.

(** In exact arithmetic the two divisions are one division by the number
    of pairs. *)
Lemma averageDistance_exact (setA setB : list nat) (M : list (list xreal)) :
  setA <> [] -> setB <> [] ->
  Forall (fun i => i < length M) setA ->
  averageDistance setA setB M
  = Ok (sum_of (pair_distances setA setB M)
        / num_of_nat (length setA * length setB))%js.
Proof.
  intros HA HB Hrows.
  assert (0 < length setA) by (destruct setA; [contradiction | simpl; lia]).
  assert (0 < length setB) by (destruct setB; [contradiction | simpl; lia]).
  rewrite averageDistance_sum by exact Hrows. f_equal.
  apply XRealFacts.div_div_nat; assumption.
Qed.

(** C7, with the two divisions that the code makes.  For index sets
    [setA] and [setB] whose rows the matrix [M] has,
    [averageDistance setA setB M] is the sum of the |setA| * |setB|
    entries M[i][j], i in [setA] and j in [setB], taken row by row in the
    arithmetic of the program, divided by |setA| and then by |setB|.  This
    holds in every model of numbers, IEEE doubles included. *)
Theorem averageDistance_is_mean {num : Type} `{Number num} (setA setB : list nat)
    (M : list (list num)) :
  Forall (fun i => i < length M) setA ->
  averageDistance setA setB M
  = Ok (sum_of (pair_distances setA setB M)
        / num_of_nat (length setA) / num_of_nat (length setB))%js
  /\ length (pair_distances setA setB M) = (length setA * length setB)%nat.
Proof.
  intros Hrows. split; [apply averageDistance_sum; exact Hrows |].
  apply pair_distances_length.
Qed.

Lemma averageDistance_empty_exact (setA setB : list nat) (M : list (list xreal)) :
  setA = [] \/ setB = [] ->
  averageDistance setA setB M = Ok XNaN.
Proof.
  intros [-> | ->].
  - unfold averageDistance. simpl.
    rewrite !Reqb_true by reflexivity. reflexivity.
  - unfold averageDistance. rewrite averageDistance_loops_nil.
    cbn [rbind length num_of_nat num_div xreal_Number INR].
    destruct setA as [| a setA].
    + simpl. rewrite !Reqb_true by reflexivity. reflexivity.
    + rewrite XRealFacts.div_nat by (simpl; lia).
      replace (0 / INR (length (a :: setA)))%R with 0%R by (unfold Rdiv; ring).
      rewrite XRealFacts.zero_div_zero. reflexivity.
Qed.

Lemma averageDistance_empty_double (setA setB : list nat) (M : list (list float)) :
  setA = [] \/ setB = [] ->
  averageDistance setA setB M = Ok nan.
Proof.
  intros [-> | ->].
  - unfold averageDistance. cbn [forM rbind length].
    change (@num_of_nat float _ 0) with 0%float.
    cbn [num_div float_Number].
    change (0 / 0)%float with nan. rewrite FloatFacts.nan_div. reflexivity.
  - unfold averageDistance. rewrite averageDistance_loops_nil.
    cbn [rbind length].
    change (@num_of_nat float _ 0) with 0%float.
    cbn [num_div float_Number].
    rewrite FloatFacts.zero_div_div_zero. reflexivity.
Qed.

(** C10.  For every matrix [M], if [setA] or [setB] is empty then
    [averageDistance setA setB M] is NaN: the sum, still 0, is divided by a
    zero length, and no row of the matrix is read.  This holds in exact
    arithmetic and on IEEE doubles. *)
Theorem averageDistance_empty_is_NaN (setA setB : list nat) :
  setA = [] \/ setB = [] ->
  (forall M : list (list xreal), averageDistance setA setB M = Ok XNaN)
  /\ (forall M : list (list float), averageDistance setA setB M = Ok nan).
Proof.
  intros Hempty. split; intros M.
  - apply averageDistance_empty_exact. exact Hempty.
  - apply averageDistance_empty_double. exact Hempty.
Qed.

(** ** The scan for the nearest pair *)

Lemma forM_flat_map {A B S} (g : A -> list B) (xs : list A) (body : S -> B -> result S) (s : S) :
  forM (flat_map g xs) body s = forM xs (fun acc x => forM (g x) body acc) s.
Proof.
  revert s; induction xs as [| x xs IH]; intros s; simpl; [reflexivity |].
  rewrite forM_app. destruct (forM (g x) body s); simpl; [apply IH | reflexivity].
Qed.

Lemma in_scan_pairs (n row col : nat) :
  In (row, col) (scan_pairs n) <-> row < col < n.
Proof.
  unfold scan_pairs. rewrite in_flat_map. split.
  - intros [r [Hr Hin]]. apply in_map_iff in Hin. destruct Hin as [c [Heq Hc]].
    inversion Heq; subst. apply in_seq in Hr. apply in_seq in Hc. lia.
  - intros Hrc. exists row. split; [apply in_seq; lia |].
    apply in_map. apply in_seq. lia.
Qed.

Lemma StronglySorted_app_intro {A} (R : A -> A -> Prop) (l1 l2 : list A) :
  StronglySorted R l1 -> StronglySorted R l2 ->
  (forall x y, In x l1 -> In y l2 -> R x y) ->
  StronglySorted R (l1 ++ l2).
Proof.
  induction l1 as [| a l1 IH]; intros H1 H2 H12; simpl; [exact H2 |].
  inversion H1 as [| ? ? Hs Hall]; subst.
  constructor.
  - apply IH; [exact Hs | exact H2 |]. intros x y Hx Hy. apply H12; [right |]; assumption.
  - apply Forall_app. split; [exact Hall |].
    apply Forall_forall. intros y Hy. apply H12; [left; reflexivity | exact Hy].
Qed.

Lemma StronglySorted_app_later {A} (R : A -> A -> Prop) (l1 l2 : list A) (p q : A) :
  StronglySorted R (l1 ++ p :: l2) -> In q l2 -> R p q.
Proof.
  induction l1 as [| a l1 IH]; simpl; intros Hs Hq.
  - inversion Hs as [| ? ? _ Hall]; subst.
    rewrite Forall_forall in Hall. apply Hall. exact Hq.
  - inversion Hs; subst. apply IH; assumption.
Qed.

Lemma row_pairs_sorted (row start len : nat) :
  row < start ->
  StronglySorted scanned_before (map (pair row) (seq start len)).
Proof.
  revert start; induction len as [| len IH]; intros start Hlt; simpl; constructor.
  - apply IH. lia.
  - apply Forall_forall. intros [r c] Hin.
    apply in_map_iff in Hin. destruct Hin as [c' [Heq Hc']]. inversion Heq; subst.
    apply in_seq in Hc'. right. simpl. lia.
Qed.

Lemma scan_pairs_sorted (n : nat) : StronglySorted scanned_before (scan_pairs n).
Proof.
  unfold scan_pairs.
  assert (Hgen : forall len start,
             StronglySorted scanned_before
               (flat_map (fun row => map (pair row) (seq (row + 1) (n - (row + 1))))
                  (seq start len))
             /\ forall p, In p (flat_map (fun row => map (pair row) (seq (row + 1) (n - (row + 1))))
                                 (seq start len)) -> start <= fst p).
  { induction len as [| len IH]; intros start; simpl.
    - split; [constructor | intros p []].
    - destruct (IH (S start)) as [IHs IHb]. split.
      + apply StronglySorted_app_intro; [apply row_pairs_sorted; lia | exact IHs |].
        intros x y Hx Hy. apply in_map_iff in Hx. destruct Hx as [c [<- _]].
        apply IHb in Hy. left. simpl. lia.
      + intros p Hp. apply in_app_or in Hp. destruct Hp as [Hp | Hp].
        * apply in_map_iff in Hp. destruct Hp as [c [<- _]]. simpl. lia.
        * apply IHb in Hp. lia. }
  apply Hgen.
Qed.

Lemma scanned_before_asym (p q : nat * nat) :
  scanned_before p q -> scanned_before q p -> False.
Proof. unfold scanned_before. lia. Qed.

Section Scan.

Context {num : Type} `{Number num}.
Local Open Scope js_scope.

Lemma findNearest_scan (clusters : list (cluster num)) (distances : list (list num))
    (linkage : linkage_fn num) :
  findNearest clusters distances linkage
  = forM (scan_pairs (length clusters))
      (fun nearest p =>
         distance <- pair_linkage clusters distances linkage p ;;
         Ok (consider nearest p distance))
      (Infinity, 0, 0).
Proof.
  unfold findNearest, scan_pairs. rewrite forM_flat_map.
  apply forM_ext_in. intros nearest row _.
  rewrite forM_map. apply forM_ext_in. intros [[d r] c] col _.
  unfold pair_linkage, consider. simpl.
  destruct (cluster_at clusters row); simpl; [| reflexivity].
  destruct (cluster_at clusters col); simpl; reflexivity.
Qed.

Variable value : nat * nat -> num.

(** Without any law of [<]: the result is the initial candidate, which no
    pair has beaten, or one of the pairs with its value. *)
Lemma scan_result (l : list (nat * nat)) (d0 : num) (r0 c0 : nat) :
  let '(d, r, c) := fold_left (scan_step value) l (d0, r0, c0) in
  ((d, r, c) = (d0, r0, c0) /\ forall q, In q l -> (value q <? d0) = false)
  \/ (In (r, c) l /\ d = value (r, c)).
Proof.
  revert d0 r0 c0; induction l as [| [xr xc] l IH]; intros d0 r0 c0; simpl.
  - left. split; [reflexivity | intros q []].
  - unfold scan_step at 2, consider. simpl fst; simpl snd.
    destruct (value (xr, xc) <? d0) eqn:Hlt.
    + specialize (IH (value (xr, xc)) xr xc).
      destruct (fold_left (scan_step value) l (value (xr, xc), xr, xc)) as [[d r] c].
      destruct IH as [[Heq _] | [Hin Hd]].
      * inversion Heq; subst. right. split; [left; reflexivity | reflexivity].
      * right. split; [right; exact Hin | exact Hd].
    + specialize (IH d0 r0 c0).
      destruct (fold_left (scan_step value) l (d0, r0, c0)) as [[d r] c].
      destruct IH as [[Heq Hall] | [Hin Hd]].
      * left. split; [exact Heq |]. intros q [<- | Hq]; [exact Hlt | apply Hall; exact Hq].
      * right. split; [right; exact Hin | exact Hd].
Qed.

(** With a strict order: a pair that replaced the candidate splits the
    list; no pair has a smaller value, no earlier pair has the same, and
    every earlier pair whose value compares with anything has a larger
    one. *)
Lemma scan_minimum `{!StrictOrder_lt} (l : list (nat * nat)) (d0 : num) (r0 c0 : nat) :
  let '(d, r, c) := fold_left (scan_step value) l (d0, r0, c0) in
  ((d, r, c) = (d0, r0, c0) /\ forall q, In q l -> (value q <? d0) = false)
  \/ (exists l1 l2,
         l = l1 ++ (r, c) :: l2 /\ d = value (r, c) /\ (d <? d0) = true
         /\ (forall q, In q l1 ->
               (value q <? d) = false /\ value q <> d
               /\ forall w, (value q <? w) = true \/ (w <? value q) = true ->
                            (d <? value q) = true)
         /\ (forall q, In q l2 -> (value q <? d) = false)).
Proof.
  revert d0 r0 c0; induction l as [| [xr xc] l IH]; intros d0 r0 c0; simpl.
  - left. split; [reflexivity | intros q []].
  - unfold scan_step at 2, consider. simpl fst; simpl snd.
    destruct (value (xr, xc) <? d0) eqn:Hlt.
    + specialize (IH (value (xr, xc)) xr xc).
      destruct (fold_left (scan_step value) l (value (xr, xc), xr, xc)) as [[d r] c].
      right. destruct IH as [[Heq Hall] | [l1 [l2 [Hl [Hd [Hlt' [H1 H2]]]]]]].
      * inversion Heq; subst. exists [], l.
        split; [reflexivity | split; [reflexivity | split; [exact Hlt | split]]].
        -- intros q [].
        -- exact Hall.
      * exists ((xr, xc) :: l1), l2. subst l.
        split; [reflexivity | split; [exact Hd | split; [| split]]].
        -- eapply lt_trans; eassumption.
        -- intros q [<- | Hq]; [| apply H1; exact Hq]. split; [| split].
           ++ destruct (value (xr, xc) <? d) eqn:Hxd; [| reflexivity].
              rewrite <- (lt_irrefl d). symmetry. eapply lt_trans; eassumption.
           ++ intros Heq. rewrite Heq, lt_irrefl in Hlt'. discriminate.
           ++ intros _ _. exact Hlt'.
        -- exact H2.
    + specialize (IH d0 r0 c0).
      destruct (fold_left (scan_step value) l (d0, r0, c0)) as [[d r] c].
      destruct IH as [[Heq Hall] | [l1 [l2 [Hl [Hd [Hlt' [H1 H2]]]]]]].
      * left. split; [exact Heq |]. intros q [<- | Hq]; [exact Hlt | apply Hall; exact Hq].
      * right. exists ((xr, xc) :: l1), l2. subst l.
        split; [reflexivity | split; [exact Hd | split; [exact Hlt' | split]]].
        -- intros q [<- | Hq]; [| apply H1; exact Hq]. split; [| split].
           ++ destruct (value (xr, xc) <? d) eqn:Hxd; [| reflexivity].
              rewrite <- Hlt. symmetry. eapply lt_trans; eassumption.
           ++ intros Heq. rewrite Heq, Hlt' in Hlt. discriminate.
           ++ intros w Hcomparable.
              destruct (lt_between d d0 (value (xr, xc)) w Hlt' Hcomparable) as [Hdx | Hxd0];
                [exact Hdx | rewrite Hxd0 in Hlt; discriminate].
        -- exact H2.
Qed.

End Scan.

(** ** The merge *)

Lemma splice1_app {A} (l1 l2 : list A) (x : A) (i : nat) :
  length l1 = i -> splice1 i (l1 ++ x :: l2) = l1 ++ l2.
Proof.
  intros <-. unfold splice1.
  induction l1 as [| a l1 IH]; simpl; [reflexivity |].
  f_equal. exact IH.
Qed.

(** Removing the higher position, then the lower one, takes out exactly
    the two clusters at these positions. *)
Lemma splice_two {A} (l : list A) (row col : nat) (a b : A) :
  row < col ->
  nth_error l row = Some a -> nth_error l col = Some b ->
  exists l1 l2 l3,
    l = l1 ++ a :: l2 ++ b :: l3
    /\ splice1 row (splice1 col l) = l1 ++ l2 ++ l3.
Proof.
  intros Hlt Ha Hb.
  destruct (nth_error_split l col Hb) as [L1 [l3 [Hl Hlen]]].
  assert (Ha' : nth_error L1 row = Some a).
  { rewrite Hl, nth_error_app1 in Ha by lia. exact Ha. }
  destruct (nth_error_split L1 row Ha') as [l1 [l2 [HL1 Hlen1]]].
  exists l1, l2, l3. subst L1. split.
  - rewrite Hl, <- app_assoc. reflexivity.
  - rewrite Hl, (splice1_app _ _ _ _ Hlen).
    rewrite <- app_assoc. simpl. apply splice1_app. exact Hlen1.
Qed.

Section Merge.

Context {num : Type} `{Number num}.
Local Open Scope js_scope.

Lemma cluster_at_Some (clusters : list (cluster num)) (i : nat) (c : cluster num) :
  cluster_at clusters i = Ok c <-> nth_error clusters i = Some c.
Proof.
  unfold cluster_at. destruct (nth_error clusters i); split; intros Heq;
    inversion Heq; reflexivity.
Qed.

Lemma mergeNearest_pair (clusters : list (cluster num)) (d : num) (row col : nat)
    (rowCluster colCluster : cluster num) :
  row < col ->
  nth_error clusters row = Some rowCluster ->
  nth_error clusters col = Some colCluster ->
  mergeNearest clusters (d, row, col)
  = Ok (splice1 row (splice1 col clusters)
        ++ [Cluster d (indexes rowCluster ++ indexes colCluster)
              (Some (rowCluster, colCluster))]).
Proof.
  intros Hlt Hr Hc. unfold mergeNearest, cluster_at. rewrite Hr, Hc. simpl.
  rewrite Nat.max_r, Nat.min_l by lia. reflexivity.
Qed.

Lemma pair_linkage_clusters (clusters : list (cluster num)) (distances : list (list num))
    (linkage : linkage_fn num) (p : nat * nat) (v : num) :
  pair_linkage clusters distances linkage p = Ok v ->
  exists rowCluster colCluster,
    nth_error clusters (fst p) = Some rowCluster
    /\ nth_error clusters (snd p) = Some colCluster
    /\ linkage (indexes rowCluster) (indexes colCluster) distances = Ok v.
Proof.
  unfold pair_linkage, cluster_at.
  destruct (nth_error clusters (fst p)) as [rc |]; simpl; [| discriminate].
  destruct (nth_error clusters (snd p)) as [cc |]; simpl; [| discriminate].
  intros Hv. exists rc, cc. repeat split. exact Hv.
Qed.

(** The value of a pair, when its linkage returns. *)
Lemma findNearest_fold (clusters : list (cluster num)) (distances : list (list num))
    (linkage : linkage_fn num) :
  (forall row col, row < col < length clusters ->
     exists v, pair_linkage clusters distances linkage (row, col) = Ok v) ->
  exists value : nat * nat -> num,
    (forall row col v, row < col < length clusters ->
       pair_linkage clusters distances linkage (row, col) = Ok v -> value (row, col) = v)
    /\ findNearest clusters distances linkage
       = Ok (fold_left (scan_step value) (scan_pairs (length clusters)) (Infinity, 0, 0)).
Proof.
  intros Hret.
  exists (fun p => match pair_linkage clusters distances linkage p with
                   | Ok v => v
                   | Throw _ => NaN
                   end).
  split.
  - intros row col v _ Hv. rewrite Hv. reflexivity.
  - rewrite findNearest_scan, <- forM_pure.
    apply forM_ext_in. intros nearest [row col] Hin.
    apply in_scan_pairs in Hin. destruct (Hret row col Hin) as [v Hv].
    unfold scan_step. rewrite Hv. reflexivity.
Qed.

(** C1, with the condition under which a pair is chosen at all.  In a
    merge iteration where [linkage] returns for every pair (row < col) of
    live clusters and at least one value is below [Infinity], the scan
    ends on a pair (row, col), row < col, whose value [d] is below
    [Infinity] and is the minimum: no pair has a smaller value, and every
    pair scanned earlier whose value is below [Infinity] has a strictly
    larger one, so that ties go to the first pair in row-major order.
    These conditions single the pair out: no other pair meets them.  The
    iteration removes the clusters at [row] and [col] and appends a
    cluster whose [indexes] are those of the row cluster followed by those
    of the column cluster, whose [height] is [d], and whose [children] are
    the two clusters.  This holds in every model of numbers whose [<] is a
    strict order, total on the numbers other than NaN: IEEE doubles and
    exact reals. *)
Theorem mergeIteration_nearest_pair `{!StrictOrder_lt}
    (clusters : list (cluster num)) (distances : list (list num))
    (linkage : linkage_fn num) :
  (forall row col, row < col < length clusters ->
     exists v, pair_linkage clusters distances linkage (row, col) = Ok v) ->
  (exists row col v, row < col < length clusters
     /\ pair_linkage clusters distances linkage (row, col) = Ok v
     /\ (v <? Infinity) = true) ->
  exists d row col rowCluster colCluster,
    findNearest clusters distances linkage = Ok (d, row, col)
    /\ row < col < length clusters
    /\ pair_linkage clusters distances linkage (row, col) = Ok d
    /\ (d <? Infinity) = true
    /\ (forall r c v, r < c < length clusters ->
          pair_linkage clusters distances linkage (r, c) = Ok v -> (v <? d) = false)
    /\ (forall r c v, r < c < length clusters ->
          scanned_before (r, c) (row, col) ->
          pair_linkage clusters distances linkage (r, c) = Ok v ->
          (v <? Infinity) = true -> (d <? v) = true)
    /\ (forall r c v, r < c < length clusters ->
          pair_linkage clusters distances linkage (r, c) = Ok v ->
          (v <? Infinity) = true ->
          (forall r' c' v', r' < c' < length clusters ->
             pair_linkage clusters distances linkage (r', c') = Ok v' ->
             (v' <? v) = false) ->
          (forall r' c' v', r' < c' < length clusters ->
             scanned_before (r', c') (r, c) ->
             pair_linkage clusters distances linkage (r', c') = Ok v' ->
             (v' <? Infinity) = true -> (v <? v') = true) ->
          (r, c) = (row, col))
    /\ nth_error clusters row = Some rowCluster
    /\ nth_error clusters col = Some colCluster
    /\ mergeIteration clusters distances linkage
       = Ok (splice1 row (splice1 col clusters)
             ++ [Cluster d (indexes rowCluster ++ indexes colCluster)
                   (Some (rowCluster, colCluster))]).
Proof.
  intros Hret [row0 [col0 [v0 [Hrc0 [Hv0 Hlt0]]]]].
  destruct (findNearest_fold _ _ _ Hret) as [value [Hvalue Hfind]].
  pose proof (scan_minimum value (scan_pairs (length clusters)) Infinity 0 0) as Hscan.
  destruct (fold_left (scan_step value) (scan_pairs (length clusters)) (Infinity, 0, 0))
    as [[d row] col].
  destruct Hscan as [[_ Hnone] | [l1 [l2 [Hl [Hd [Hbelow [Hbefore Hafter]]]]]]].
  { specialize (Hnone (row0, col0) (proj2 (in_scan_pairs _ _ _) Hrc0)).
    rewrite (Hvalue _ _ _ Hrc0 Hv0), Hlt0 in Hnone. discriminate. }
  assert (Hin : In (row, col) (scan_pairs (length clusters))).
  { rewrite Hl. apply in_or_app. right. left. reflexivity. }
  apply in_scan_pairs in Hin.
  destruct (Hret row col Hin) as [v Hv].
  assert (v = d) by (rewrite Hd; symmetry; apply (Hvalue _ _ _ Hin Hv)). subst v.
  destruct (pair_linkage_clusters _ _ _ _ _ Hv) as [rowC [colC [Hrow [Hcol Hlink]]]].
  simpl in Hrow, Hcol.
  assert (Hmin : forall r c v, r < c < length clusters ->
            pair_linkage clusters distances linkage (r, c) = Ok v -> (v <? d) = false).
  { intros r c v Hrc Hpv.
    rewrite <- (Hvalue _ _ _ Hrc Hpv).
    assert (Hq : In (r, c) (l1 ++ (row, col) :: l2))
      by (rewrite <- Hl; apply in_scan_pairs; exact Hrc).
    apply in_app_or in Hq. destruct Hq as [Hq | [Hq | Hq]].
    - apply Hbefore. exact Hq.
    - inversion Hq; subst. apply lt_irrefl.
    - apply Hafter. exact Hq. }
  assert (Hfirst : forall r c v, r < c < length clusters ->
            scanned_before (r, c) (row, col) ->
            pair_linkage clusters distances linkage (r, c) = Ok v ->
            (v <? Infinity) = true -> (d <? v) = true).
  { intros r c v Hrc Hord Hpv Hvlt.
    rewrite <- (Hvalue _ _ _ Hrc Hpv) in Hvlt |- *.
    assert (Hq : In (r, c) (l1 ++ (row, col) :: l2))
      by (rewrite <- Hl; apply in_scan_pairs; exact Hrc).
    apply in_app_or in Hq. destruct Hq as [Hq | [Hq | Hq]].
    - destruct (Hbefore _ Hq) as [_ [_ Hlarger]].
      apply (Hlarger Infinity). left. exact Hvlt.
    - inversion Hq; subst. exfalso. exact (scanned_before_asym _ _ Hord Hord).
    - exfalso. apply (scanned_before_asym _ _ Hord).
      pose proof (scan_pairs_sorted (length clusters)) as Hs. rewrite Hl in Hs.
      exact (StronglySorted_app_later _ _ _ _ _ Hs Hq). }
  exists d, row, col, rowC, colC.
  split; [exact Hfind |].
  split; [exact Hin |].
  split; [exact Hv |].
  split; [exact Hbelow |].
  split; [exact Hmin |].
  split; [exact Hfirst |].
  split; [| split; [exact Hrow | split; [exact Hcol |]]].
  - intros r c v Hrc Hpv Hvlt Hvmin Hvfirst.
    assert (Horder : scanned_before (r, c) (row, col)
                     \/ scanned_before (row, col) (r, c)
                     \/ (r, c) = (row, col)).
    { unfold scanned_before. cbn [fst snd].
      destruct (Nat.lt_trichotomy r row) as [Hlt | [Heq | Hgt]];
        [left; left; exact Hlt | | right; left; left; exact Hgt].
      destruct (Nat.lt_trichotomy c col) as [Hlt | [Heq' | Hgt]];
        [left; right; split; assumption
        | right; right; subst; reflexivity
        | right; left; right; split; [symmetry |]; assumption]. }
    destruct Horder as [Hearlier | [Hlater | Hsame]]; [| | exact Hsame]; exfalso.
    + pose proof (Hfirst r c v Hrc Hearlier Hpv Hvlt) as Hdv.
      rewrite (Hvmin row col d Hin Hv) in Hdv. discriminate.
    + pose proof (Hvfirst row col d Hin Hlater Hv Hbelow) as Hvd.
      rewrite (Hmin r c v Hrc Hpv) in Hvd. discriminate.
  - unfold mergeIteration. rewrite Hfind. simpl rbind.
    apply mergeNearest_pair; [lia | exact Hrow | exact Hcol].
Qed.

End Merge.

(** ** The main loop *)

Lemma Permutation_merge_two {A} (x1 x2 x3 a b : list A) :
  Permutation (x1 ++ a ++ x2 ++ b ++ x3) ((x1 ++ x2 ++ x3) ++ (a ++ b) ++ []).
Proof.
  rewrite app_nil_r, <- !app_assoc.
  apply Permutation_app_head.
  transitivity (x2 ++ a ++ b ++ x3); [apply Permutation_app_swap_app |].
  apply Permutation_app_head.
  rewrite (app_assoc a b x3). apply Permutation_app_comm.
Qed.

Section Loop.

Context {num : Type} `{Number num}.
Local Open Scope js_scope.

Lemma reports_app (onProgress : callback) (xs ys : list num) :
  reports onProgress (xs ++ ys) = reports onProgress xs ++ reports onProgress ys.
Proof. destruct onProgress; reflexivity. Qed.

Lemma updateProgress_run (stepNumber stepProgress : num) (onProgress : callback)
    (log : list num) :
  updateProgress stepNumber stepProgress onProgress log
  = (Ok tt,
     log ++ reports onProgress
              [stepNumber / num_of_nat 2 + stepProgress / num_of_nat 2]).
Proof.
  destruct onProgress; simpl; [rewrite app_nil_r |]; reflexivity.
Qed.

(** The matrix is built row by row; each row reports its progress. *)
Lemma build_run {A : Type} (data : list A) (distance : A -> A -> num)
    (onProgress : callback) (N : nat) (xs : list A) (index : nat) (log : list num) :
  mapiM (fun datum index =>
           _ <~ updateProgress (num_of_nat 0)
                  (num_of_nat index / (num_of_nat N - num_of_nat 1)) onProgress ;;
           ret (map (fun otherDatum => distance datum otherDatum) data))
    xs index log
  = (Ok (map (fun datum => map (fun otherDatum => distance datum otherDatum) data) xs),
     log ++ reports onProgress (map (build_progress N) (seq index (length xs)))).
Proof.
  revert index log; induction xs as [| x xs IH]; intros index log.
  - simpl. destruct onProgress; simpl; rewrite app_nil_r; reflexivity.
  - cbn [mapiM length seq map]. unfold bind at 1. unfold bind at 1.
    rewrite updateProgress_run. unfold ret at 1. unfold bind at 1.
    rewrite IH. unfold ret.
    replace (build_progress N index :: map (build_progress N) (seq (S index) (length xs)))
      with ([build_progress N index] ++ map (build_progress N) (seq (S index) (length xs)))
      by reflexivity.
    rewrite reports_app, app_assoc. reflexivity.
Qed.

Lemma live_in_range (N : nat) (clusters : list (cluster num)) (i : nat) (c : cluster num) :
  live N clusters -> nth_error clusters i = Some c ->
  indexes c <> [] /\ Forall (fun k => k < N) (indexes c).
Proof.
  intros [Hperm Hne] Hc. apply nth_error_In in Hc. split.
  - rewrite Forall_forall in Hne. apply Hne. exact Hc.
  - apply Forall_forall. intros k Hk.
    assert (Hin : In k (concat (map indexes clusters))).
    { apply in_concat. exists (indexes c). split; [apply in_map; exact Hc | exact Hk]. }
    apply (Permutation_in _ Hperm) in Hin. apply in_seq in Hin. lia.
Qed.

(** Two live clusters share no index, and none has an index twice. *)
Lemma live_disjoint (N : nat) (clusters : list (cluster num)) (row col : nat)
    (rc cc : cluster num) :
  live N clusters -> row < col ->
  nth_error clusters row = Some rc -> nth_error clusters col = Some cc ->
  NoDup (indexes rc ++ indexes cc).
Proof.
  intros [Hperm _] Hlt Hr Hc.
  destruct (splice_two clusters row col rc cc Hlt Hr Hc) as [l1 [l2 [l3 [Hl _]]]].
  unfold partitions in Hperm.
  assert (Hnodup : NoDup (concat (map indexes clusters)))
    by (apply (Permutation_NoDup (Permutation_sym Hperm)), seq_NoDup).
  rewrite Hl in Hnodup.
  rewrite map_app, concat_app in Hnodup. cbn [map concat] in Hnodup.
  rewrite map_app, concat_app in Hnodup. cbn [map concat] in Hnodup.
  apply NoDup_app_remove_l in Hnodup.
  apply (Permutation_NoDup (Permutation_app_swap_app _ _ _)) in Hnodup.
  apply NoDup_app_remove_l in Hnodup.
  rewrite app_assoc in Hnodup.
  apply NoDup_app_remove_r in Hnodup. exact Hnodup.
Qed.

(** Every pair of live clusters has a linkage value below [Infinity]. *)
Lemma pair_linkage_below_Infinity (N : nat) (M : list (list num))
    (linkage : linkage_fn num) (clusters : list (cluster num)) :
  linkage_below_Infinity N M linkage ->
  live N clusters ->
  forall row col, row < col < length clusters ->
    exists v, pair_linkage clusters M linkage (row, col) = Ok v
              /\ (v <? Infinity) = true.
Proof.
  intros Hlink Hlive row col Hrc. unfold pair_linkage, cluster_at. simpl.
  destruct (nth_error clusters row) as [rc |] eqn:Hr;
    [| apply nth_error_None in Hr; lia].
  destruct (nth_error clusters col) as [cc |] eqn:Hc;
    [| apply nth_error_None in Hc; lia].
  simpl.
  destruct (live_in_range _ _ _ _ Hlive Hr) as [Hr1 Hr2].
  destruct (live_in_range _ _ _ _ Hlive Hc) as [Hc1 Hc2].
  apply Hlink; try assumption.
  apply (live_disjoint N clusters row col); [exact Hlive | lia | exact Hr | exact Hc].
Qed.

(** One merge iteration keeps the working collection a partition and
    takes one cluster off. *)
Lemma mergeIteration_live (N : nat) (M : list (list num)) (linkage : linkage_fn num)
    (clusters : list (cluster num)) :
  linkage_below_Infinity N M linkage ->
  live N clusters -> 2 <= length clusters ->
  exists clusters',
    mergeIteration clusters M linkage = Ok clusters'
    /\ live N clusters' /\ S (length clusters') = length clusters.
Proof.
  intros Hlink Hlive Hlen.
  pose proof (pair_linkage_below_Infinity N M linkage clusters Hlink Hlive) as Hpair.
  destruct (findNearest_fold clusters M linkage) as [value [Hvalue Hfind]].
  { intros row col Hrc. destruct (Hpair row col Hrc) as [v [Hv _]]. exists v. exact Hv. }
  pose proof (scan_result value (scan_pairs (length clusters)) Infinity 0 0) as Hscan.
  destruct (fold_left (scan_step value) (scan_pairs (length clusters)) (Infinity, 0, 0))
    as [[d row] col].
  destruct Hscan as [[_ Hnone] | [Hin Hd]].
  { assert (H01 : 0 < 1 < length clusters) by lia.
    specialize (Hnone (0, 1) (proj2 (in_scan_pairs _ _ _) H01)).
    destruct (Hpair 0 1 H01) as [v [Hv Hvlt]].
    rewrite (Hvalue _ _ _ H01 Hv), Hvlt in Hnone. discriminate. }
  apply in_scan_pairs in Hin.
  destruct (nth_error clusters row) as [rc |] eqn:Hr;
    [| apply nth_error_None in Hr; lia].
  destruct (nth_error clusters col) as [cc |] eqn:Hc;
    [| apply nth_error_None in Hc; lia].
  exists (splice1 row (splice1 col clusters)
          ++ [Cluster d (indexes rc ++ indexes cc) (Some (rc, cc))]).
  split.
  { unfold mergeIteration. rewrite Hfind. simpl rbind.
    apply mergeNearest_pair; [lia | exact Hr | exact Hc]. }
  destruct (splice_two clusters row col rc cc) as [l1 [l2 [l3 [Hl Hsp]]]];
    [lia | exact Hr | exact Hc |].
  destruct (live_in_range _ _ _ _ Hlive Hr) as [Hr1 _].
  rewrite Hsp. destruct Hlive as [Hperm Hne]. subst clusters.
  split; [split |].
  - unfold partitions in *.
    rewrite <- Hperm. symmetry.
    rewrite !map_app, !concat_app. simpl map. simpl concat.
    rewrite !map_app, !concat_app. simpl map. simpl concat.
    rewrite <- !app_assoc.
    pose proof (Permutation_merge_two (concat (map indexes l1)) (concat (map indexes l2))
                  (concat (map indexes l3)) (indexes rc) (indexes cc)) as HP.
    rewrite <- !app_assoc in HP. exact HP.
  - rewrite !Forall_app in *. destruct Hne as [H1 H2].
    inversion H2 as [| ? ? Ha H2']; subst. rewrite Forall_app in H2'.
    destruct H2' as [H2' H3]. inversion H3 as [| ? ? Hb H3']; subst.
    repeat split; try assumption.
    constructor; [| constructor]. simpl.
    destruct (indexes rc); [contradiction | discriminate].
  - rewrite !length_app. simpl. rewrite !length_app. simpl. lia.
Qed.

End Loop.

Section Run.

Context {num : Type} `{Number num}.
Local Open Scope js_scope.

Variables (N : nat) (M : list (list num)) (linkage : linkage_fn num)
          (onProgress : callback).

Lemma iterationBody_break (clusters : list (cluster num))
    (clustersGivenK : list (list (list nat))) (iteration : nat) (log : list num) :
  (Z.of_nat N - 1 <=? Z.of_nat iteration)%Z = true ->
  iterationBody N M linkage onProgress (clusters, clustersGivenK) iteration log
  = (Ok (Break (clusters, clustersGivenK ++ [map indexes clusters])),
     log ++ reports onProgress [merge_progress N iteration]).
Proof.
  intros Htest. unfold iterationBody, bind.
  rewrite updateProgress_run, Htest. reflexivity.
Qed.

Lemma iterationBody_continue (clusters clusters' : list (cluster num))
    (clustersGivenK : list (list (list nat))) (iteration : nat) (log : list num) :
  (Z.of_nat N - 1 <=? Z.of_nat iteration)%Z = false ->
  mergeIteration clusters M linkage = Ok clusters' ->
  iterationBody N M linkage onProgress (clusters, clustersGivenK) iteration log
  = (Ok (Continue (clusters', clustersGivenK ++ [map indexes clusters])),
     log ++ reports onProgress [merge_progress N iteration]).
Proof.
  intros Htest Hmerge. unfold iterationBody, bind.
  rewrite updateProgress_run, Htest. unfold lift. rewrite Hmerge. reflexivity.
Qed.

(** From a partition into [m] clusters at iteration [N - m], the loop
    runs [m] iterations, pushes [m] slices and leaves one cluster. *)
Lemma loop_run :
  linkage_below_Infinity N M linkage ->
  forall (m iteration : nat) (clusters : list (cluster num))
         (clustersGivenK : list (list (list nat))) (log : list num),
    (iteration + m)%nat = N -> 1 <= m ->
    length clusters = m -> live N clusters ->
    exists root snapshots,
      forBreak (seq iteration m) (iterationBody N M linkage onProgress)
        (clusters, clustersGivenK) log
      = (Ok ([root], clustersGivenK ++ snapshots),
         log ++ reports onProgress (map (merge_progress N) (seq iteration m)))
      /\ slices N m snapshots
      /\ nth 0 snapshots [] = map indexes clusters
      /\ live N [root].
Proof.
  intros Hlink. induction m as [| m IH]; intros iteration clusters givenK log HN Hm Hlen Hlive;
    [lia |].
  destruct (Nat.eq_dec m 0) as [-> | Hm'].
  - (* the last iteration: only the slice is pushed *)
    destruct clusters as [| root [| ? ?]]; try discriminate.
    exists root, [map indexes [root]].
    cbn [seq forBreak map]. unfold bind.
    rewrite iterationBody_break by (apply Z.leb_le; lia).
    split; [reflexivity |]. split; [| split; [reflexivity | exact Hlive]].
    split; [reflexivity |]. intros j Hj. assert (j = 0) by lia. subst j.
    split; [reflexivity | apply Hlive].
  - destruct (mergeIteration_live N M linkage clusters Hlink Hlive) as [clusters' [Hmerge [Hlive' Hlen']]];
      [lia |].
    destruct (IH (S iteration) clusters' (givenK ++ [map indexes clusters])
                (log ++ reports onProgress [merge_progress N iteration]))
      as [root [snapshots [Hrun [[Hslen Hsl] [Hfirst Hroot]]]]];
      [lia | lia | lia | exact Hlive' |].
    exists root, (map indexes clusters :: snapshots).
    cbn [seq forBreak map]. unfold bind at 1.
    rewrite (iterationBody_continue _ clusters') by (try apply Z.leb_gt; try lia; exact Hmerge).
    rewrite Hrun.
    split; [| split; [| split; [reflexivity | exact Hroot]]].
    + rewrite <- !app_assoc. simpl.
      replace (merge_progress N iteration :: map (merge_progress N) (seq (S iteration) m))
        with ([merge_progress N iteration] ++ map (merge_progress N) (seq (S iteration) m))
        by reflexivity.
      rewrite reports_app. reflexivity.
    + split; [simpl; lia |]. intros [| j] Hj.
      * simpl. split; [rewrite length_map; lia | apply Hlive].
      * simpl. apply Hsl. lia.
Qed.

End Run.

(** ** The two variants agree *)

Section Variants.

Context {num : Type} `{Number num}.

Variables (N : nat) (M : list (list num)) (linkage : linkage_fn num)
          (onProgress : callback).

Lemma iterationBody_result (state : list (cluster num) * list (list (list nat)))
    (iteration : nat) (log : list num) :
  fst (iterationBody N M linkage onProgress state iteration log)
  = Hclust.iterationBody N M linkage state iteration.
Proof.
  destruct state as [clusters clustersGivenK].
  unfold iterationBody, Hclust.iterationBody, bind.
  rewrite updateProgress_run.
  destruct (Z.of_nat N - 1 <=? Z.of_nat iteration)%Z; [reflexivity |].
  unfold lift. destruct (mergeIteration clusters M linkage); reflexivity.
Qed.

Lemma loop_result (xs : list nat) (state : list (cluster num) * list (list (list nat)))
    (log : list num) :
  fst (forBreak xs (iterationBody N M linkage onProgress) state log)
  = forBreakR xs (Hclust.iterationBody N M linkage) state.
Proof.
  revert state log; induction xs as [| x xs IH]; intros state log; [reflexivity |].
  cbn [forBreak forBreakR]. unfold bind.
  rewrite <- (iterationBody_result state x log).
  destruct (iterationBody N M linkage onProgress state x log) as [[[s' | s'] | e] log'];
    cbn [fst rbind]; [apply IH | reflexivity | reflexivity].
Qed.

End Variants.

(** With a callback that returns, or a value that is no function, the
    result of the variant with progress steps is the result of
    [hclust.js]. *)
Lemma clusterData_fst {num : Type} `{Number num} {A : Type} (data : list A)
    (distance : A -> A -> num) (linkage : linkage_fn num) (onProgress : callback)
    (log : list num) :
  fst (clusterData data distance linkage onProgress log)
  = Hclust.clusterData data distance linkage.
Proof.
  unfold clusterData, Hclust.clusterData. unfold bind at 1.
  rewrite build_run. cbv beta iota zeta. unfold bind at 1.
  rewrite <- (loop_result (length data)
                (map (fun datum => map (fun otherDatum => distance datum otherDatum) data) data)
                linkage onProgress (seq 0 (length data))
                (map (fun index => Cluster (num_of_nat 0) [index] None) (seq 0 (length data)), [])
                (log ++ reports onProgress
                          (map (build_progress (length data)) (seq 0 (length data))))).
  destruct (forBreak _ _ _ _) as [[[clusters clustersGivenK] | e] log']; cbn [fst rbind];
    [| reflexivity].
  unfold bind, lift, ret.
  destruct (cluster_at clusters 0); reflexivity.
Qed.

(** *** Callbacks that throw *)

Lemma bind_run {num A B : Type} (m : prog num A) (f : A -> prog num B) (log : list num) :
  bind m f log
  = match m log with
    | (Ok a, log') => f a log'
    | (Throw e, log') => (Throw e, log')
    end.
Proof. reflexivity. Qed.

Section Raising.

Context {num : Type} `{Number num}.
Local Open Scope js_scope.

Variables (N : nat) (M : list (list num)) (linkage : linkage_fn num)
          (onProgress : handler num).

(** A step of the engine with any callback ends as the step of
    [hclust.js] does, or in what the callback threw. *)
Lemma updateProgress_any (stepNumber stepProgress : num) (log : list num) :
  agrees_or_raised (fst (updateProgress stepNumber stepProgress onProgress log)) (Ok tt).
Proof.
  destruct onProgress as [[|] | raises]; cbn; try (left; reflexivity).
  destruct (raises log _); [right | left]; reflexivity.
Qed.

Lemma build_any {A : Type} (data : list A) (distance : A -> A -> num) (xs : list A)
    (index : nat) (log : list num) :
  agrees_or_raised
    (fst (mapiM (fun datum index =>
                   _ <~ updateProgress (num_of_nat 0)
                          (num_of_nat index / (num_of_nat N - num_of_nat 1)) onProgress ;;
                   ret (map (fun otherDatum => distance datum otherDatum) data))
            xs index log))
    (Ok (map (fun datum => map (fun otherDatum => distance datum otherDatum) data) xs)).
Proof.
  revert index log; induction xs as [| x xs IH]; intros index log.
  - left. reflexivity.
  - cbn [mapiM map]. rewrite bind_run, bind_run.
    pose proof (updateProgress_any (num_of_nat 0)
                  (num_of_nat index / (num_of_nat N - num_of_nat 1)) log) as Hstep.
    destruct (updateProgress _ _ onProgress log) as [[[] | e] log1];
      destruct Hstep as [Hstep | Hstep]; cbn [fst] in Hstep; try discriminate.
    + unfold ret at 1. rewrite bind_run.
      pose proof (IH (S index) log1) as Hrest.
      destruct (mapiM _ xs (S index) log1) as [[rows | e] log2];
        destruct Hrest as [Hrest | Hrest]; cbn [fst] in Hrest; try discriminate.
      * left. inversion Hrest. reflexivity.
      * right. inversion Hrest. reflexivity.
    + right. inversion Hstep. reflexivity.
Qed.

Lemma iterationBody_any (state : list (cluster num) * list (list (list nat)))
    (iteration : nat) (log : list num) :
  agrees_or_raised
    (fst (iterationBody N M linkage onProgress state iteration log))
    (Hclust.iterationBody N M linkage state iteration).
Proof.
  destruct state as [clusters clustersGivenK].
  unfold iterationBody, Hclust.iterationBody. rewrite bind_run.
  pose proof (updateProgress_any (num_of_nat 1)
                (num_of_nat (iteration + 1) / num_of_nat N) log) as Hstep.
  destruct (updateProgress _ _ onProgress log) as [[[] | e] log1];
    destruct Hstep as [Hstep | Hstep]; cbn [fst] in Hstep; try discriminate.
  - left. destruct (Z.of_nat N - 1 <=? Z.of_nat iteration)%Z; [reflexivity |].
    unfold bind, lift. destruct (mergeIteration clusters M linkage); reflexivity.
  - right. inversion Hstep. reflexivity.
Qed.

Lemma loop_any (xs : list nat) (state : list (cluster num) * list (list (list nat)))
    (log : list num) :
  agrees_or_raised
    (fst (forBreak xs (iterationBody N M linkage onProgress) state log))
    (forBreakR xs (Hclust.iterationBody N M linkage) state).
Proof.
  revert state log; induction xs as [| x xs IH]; intros state log; [left; reflexivity |].
  cbn [forBreak forBreakR]. rewrite bind_run.
  pose proof (iterationBody_any state x log) as Hstep.
  destruct (iterationBody N M linkage onProgress state x log) as [[[s' | s'] | e] log'];
    destruct Hstep as [Hstep | Hstep]; cbn [fst] in Hstep; try discriminate;
    try (rewrite <- Hstep; cbn [rbind]).
  - apply IH.
  - left. reflexivity.
  - left. reflexivity.
  - right. inversion Hstep. reflexivity.
Qed.

End Raising.

(** With any callback, the run ends as the run of [hclust.js] does, or in
    what the callback threw. *)
Lemma clusterData_any {num : Type} `{Number num} {A : Type} (data : list A)
    (distance : A -> A -> num) (linkage : linkage_fn num) (onProgress : handler num)
    (log : list num) :
  agrees_or_raised
    (fst (clusterData data distance linkage onProgress log))
    (Hclust.clusterData data distance linkage).
Proof.
  unfold clusterData, Hclust.clusterData. rewrite bind_run.
  pose proof (build_any (length data) onProgress data distance data 0 log) as Hbuild.
  destruct (mapiM _ data 0 log) as [[rows | e] log1];
    destruct Hbuild as [Hbuild | Hbuild]; cbn [fst] in Hbuild; try discriminate;
    [| right; inversion Hbuild; reflexivity].
  inversion Hbuild as [Hrows]. clear Hbuild. rewrite bind_run.
  pose proof (loop_any (length data)
                (map (fun datum => map (fun otherDatum => distance datum otherDatum) data) data)
                linkage onProgress (seq 0 (length data))
                (map (fun index => Cluster (num_of_nat 0) [index] None)
                   (seq 0 (length data)), [])
                log1) as Hloop.
  destruct (forBreak _ _ _ log1) as [[[clusters clustersGivenK] | e] log2];
    destruct Hloop as [Hloop | Hloop]; cbn [fst] in Hloop; try discriminate;
    try (rewrite <- Hloop; cbn [rbind]).
  - left. unfold bind, lift, ret. destruct (cluster_at clusters 0); reflexivity.
  - left. reflexivity.
  - right. inversion Hloop. reflexivity.
Qed.

(** A callback that throws from its first call ends the run of a
    non-empty input at that call. *)
Lemma clusterData_first_call {num : Type} `{Number num} {A : Type} (data : list A)
    (distance : A -> A -> num) (linkage : linkage_fn num)
    (raises : list num -> num -> bool) (log : list num) :
  data <> [] ->
  raises log (build_progress (length data) 0) = true ->
  clusterData data distance linkage (Raising raises) log
  = (Throw Raised, log ++ [build_progress (length data) 0]).
Proof.
  intros Hdata Hraises. destruct data as [| x data]; [contradiction |].
  unfold clusterData. cbn [mapiM]. unfold bind. cbn [updateProgress].
  unfold build_progress in Hraises. rewrite Hraises. reflexivity.
Qed.

(** The two variants of [clusterData] agree, unless the callback throws.
    With any [onProgress], the run of the variant with progress steps ends
    as the run of [hclust.js] does, with the same result or the same
    exception, or it ends in what [onProgress] threw.  When [onProgress] is
    no function, or a function that returns, the two agree.  When
    [onProgress] throws from its first call, the variant with progress
    steps throws on every non-empty input, at the first row of the
    matrix. *)
Theorem clusterData_variants_agree {num : Type} `{Number num} {A : Type} (data : list A)
    (distance : A -> A -> num) (linkage : linkage_fn num) (onProgress : handler num)
    (log : list num) :
  (fst (clusterData data distance linkage onProgress log)
   = Hclust.clusterData data distance linkage
   \/ fst (clusterData data distance linkage onProgress log) = Throw Raised)
  /\ (forall c : callback,
        onProgress = Returning c ->
        fst (clusterData data distance linkage onProgress log)
        = Hclust.clusterData data distance linkage)
  /\ (forall raises : list num -> num -> bool,
        onProgress = Raising raises ->
        data <> [] ->
        raises log (build_progress (length data) 0) = true ->
        clusterData data distance linkage onProgress log
        = (Throw Raised, log ++ [build_progress (length data) 0])).
Proof.
  split; [apply (clusterData_any data distance linkage onProgress log) |]. split.
  - intros c ->. apply clusterData_fst.
  - intros raises -> Hdata Hraises. apply clusterData_first_call; assumption.
Qed.

Section ClusterData.

Context {num : Type} `{Number num}.
Local Open Scope js_scope.

Lemma concat_singletons (l : list nat) : concat (map (fun i => [i]) l) = l.
Proof. induction l as [| x l IH]; simpl; [reflexivity | rewrite IH; reflexivity]. Qed.

Lemma singletons_live (N : nat) :
  live N (map (fun index => Cluster (num_of_nat 0) [index] None) (seq 0 N)).
Proof.
  split.
  - unfold partitions. rewrite map_map. simpl. rewrite concat_singletons. reflexivity.
  - apply Forall_forall. intros c Hc. apply in_map_iff in Hc.
    destruct Hc as [index [<- _]]. simpl. discriminate.
Qed.

(** A complete run over at least one record. *)
Lemma clusterData_run {A : Type} (data : list A) (distance : A -> A -> num)
    (linkage : linkage_fn num) (onProgress : callback) (log : list num) :
  let N := length data in
  data <> [] ->
  linkage_below_Infinity N (distance_matrix data distance) linkage ->
  exists root snapshots,
    clusterData data distance linkage onProgress log
    = (Ok {| clusters := root;
             distances := distance_matrix data distance;
             order := indexes root;
             clustersGivenK := [] :: rev snapshots |},
       log ++ reports onProgress
                (map (build_progress N) (seq 0 N) ++ map (merge_progress N) (seq 0 N)))
    /\ slices N N snapshots
    /\ nth 0 snapshots [] = map (fun i => [i]) (seq 0 N)
    /\ live N [root].
Proof.
  intros N Hdata Hlink.
  assert (HN : 1 <= N) by (unfold N; destruct data; [contradiction | simpl; lia]).
  destruct (loop_run N (distance_matrix data distance) linkage onProgress Hlink
              N 0 (map (fun index => Cluster (num_of_nat 0) [index] None) (seq 0 N)) []
              (log ++ reports onProgress (map (build_progress N) (seq 0 N))))
    as [root [snapshots [Hrun [Hsl [Hfirst Hroot]]]]].
  { reflexivity. } { exact HN. } { rewrite length_map, length_seq. reflexivity. }
  { apply singletons_live. }
  exists root, snapshots.
  split; [| split; [exact Hsl | split; [| exact Hroot]]].
  - unfold clusterData. fold N. unfold bind at 1.
    rewrite build_run. cbv beta iota. fold (distance_matrix data distance).
    fold N. unfold bind at 1. rewrite Hrun. cbv beta iota. simpl app.
    unfold bind, lift, ret. simpl.
    rewrite reports_app, app_assoc. reflexivity.
  - rewrite Hfirst, map_map. reflexivity.
Qed.

Lemma slice_of_K (N K : nat) (snapshots : list (list (list nat))) :
  length snapshots = N -> 1 <= K <= N ->
  nth K ([] :: rev snapshots) [] = nth (N - K) snapshots [].
Proof.
  intros Hlen HK. destruct K as [| K]; [lia |]. simpl.
  rewrite rev_nth by lia. rewrite Hlen. f_equal.
Qed.

(** C2, for the inputs on which every merge has a pair to choose.  For
    N >= 1 records and a linkage function that returns, with a value below
    [Infinity], on every two disjoint non-empty index sets over 0..N-1
    (lists of indexes without repetition), [clusterData] returns, in both
    variants of the module the same result, and for every K in 1..N the
    index sets of entry K of [clustersGivenK] partition 0..N-1: each index
    occurs in exactly one set, once.  Along the way every merge iteration
    turns a working collection that partitions 0..N-1 into one that does.
    This holds in every model of numbers, IEEE doubles included. *)
Theorem clustersGivenK_partitions {A : Type} (data : list A) (distance : A -> A -> num)
    (linkage : linkage_fn num) (onProgress : callback) (log : list num) :
  let N := length data in
  data <> [] ->
  linkage_below_Infinity N (distance_matrix data distance) linkage ->
  (exists result log',
      clusterData data distance linkage onProgress log = (Ok result, log')
      /\ Hclust.clusterData data distance linkage = Ok result
      /\ forall K, 1 <= K <= N -> partitions N (nth K (clustersGivenK result) []))
  /\ (forall clusters,
        live N clusters -> 2 <= length clusters ->
        exists clusters',
          mergeIteration clusters (distance_matrix data distance) linkage = Ok clusters'
          /\ partitions N (map indexes clusters')).
Proof.
  intros N Hdata Hlink. split.
  - destruct (clusterData_run data distance linkage onProgress log Hdata Hlink)
      as [root [snapshots [Hrun [[Hlen Hsl] _]]]].
    eexists. eexists. split; [exact Hrun |].
    split; [rewrite <- (clusterData_fst data distance linkage onProgress log), Hrun;
            reflexivity |].
    intros K HK. cbn [clustersGivenK].
    rewrite (slice_of_K N K snapshots Hlen HK).
    apply Hsl. fold N. lia.
  - intros clusters Hlive Hlen.
    destruct (mergeIteration_live N _ linkage clusters Hlink Hlive Hlen)
      as [clusters' [Hmerge [[Hpart _] _]]].
    exists clusters'. split; assumption.
Qed.

(** C4, as the code has it.  With no record, [clusterData] does not
    return, in either variant of the module: the working collection is
    empty after the loop, and reading
    [indexes] of its first element, which is [undefined], throws a
    TypeError. *)
Theorem clusterData_no_records {A : Type} (distance : A -> A -> num)
    (linkage : linkage_fn num) (onProgress : callback) (log : list num) :
  clusterData (@nil A) distance linkage onProgress log = (Throw TypeError, log)
  /\ Hclust.clusterData (@nil A) distance linkage = Throw TypeError.
Proof. split; reflexivity. Qed.

End ClusterData.

(** ** Within-cluster variance *)

Lemma scan_pairs_S (n : nat) :
  scan_pairs (S n)
  = map (pair 0) (seq 1 n) ++ map (fun p => (S (fst p), S (snd p))) (scan_pairs n).
Proof.
  unfold scan_pairs. change (seq 0 (S n)) with (0 :: seq 1 n). cbn [flat_map].
  replace (S n - (0 + 1)) with n by lia. change (0 + 1) with 1.
  f_equal.
  rewrite <- seq_shift. rewrite !flat_map_concat_map.
  rewrite concat_map, !map_map. f_equal.
  apply map_ext. intros row.
  replace (S n - (S row + 1)) with (n - (row + 1)) by lia.
  replace (S row + 1) with (S (row + 1)) by lia.
  rewrite <- seq_shift, !map_map. reflexivity.
Qed.

Lemma map_nth_seq_id {A} (c : list A) (d : A) :
  map (fun i => nth i c d) (seq 0 (length c)) = c.
Proof.
  induction c as [| x c IH]; [reflexivity |].
  cbn [length seq map nth]. rewrite <- seq_shift, map_map. f_equal. exact IH.
Qed.

(** The index pairs of the two loops name the unordered pairs of members. *)
Lemma scan_pairs_members (c : list nat) :
  map (fun p => (nth (fst p) c 0, nth (snd p) c 0)) (scan_pairs (length c)) = pairs_of c.
Proof.
  induction c as [| x c IH]; [reflexivity |].
  cbn [length]. rewrite scan_pairs_S, map_app, !map_map. cbn [pairs_of fst snd nth].
  f_equal; [| exact IH].
  rewrite <- seq_shift, map_map. cbn [fst snd nth].
  rewrite <- (map_nth_seq_id c 0) at 2. rewrite map_map. reflexivity.
Qed.

Section Variance.

Context {num : Type} `{Number num}.
Local Open Scope js_scope.

Lemma sum_count_fold {P : Type} (f : P -> num) (l : list P) (s : num) (k : nat) :
  fold_left (fun acc p => (fst acc + f p, S (snd acc))) l (s, k)
  = (fold_left num_add (map f l) s, (k + length l)%nat).
Proof.
  revert s k; induction l as [| p l IH]; intros s k; simpl.
  - rewrite Nat.add_0_r. reflexivity.
  - rewrite IH. f_equal. lia.
Qed.

Lemma calculateClusterVariance_mean (M : list (list num)) (c : list nat) :
  pair_rows_exist M c ->
  calculateClusterVariance c M = Ok (mean_pairwise_distance M c).
Proof.
  intros Hrows. unfold calculateClusterVariance, mean_pairwise_distance.
  destruct (length c <=? 1); [reflexivity |].
  assert (Hloops :
    forM (seq 0 (length c))
      (fun acc i =>
         forM (seq (i + 1) (length c - (i + 1)))
           (fun acc j =>
              let '(sumOfDistances, count) := acc in
              d <- calculateDistance (nth i c 0) (nth j c 0) M ;;
              Ok (sumOfDistances + d, S count))
           acc)
      (num_of_nat 0, 0)
    = Ok (fold_left (fun acc p => (fst acc + entry M (fst p) (snd p), S (snd acc)))
            (pairs_of c) (num_of_nat 0, 0))).
  { rewrite <- scan_pairs_members, fold_left_map_compose, <- forM_pure.
    unfold scan_pairs. rewrite forM_flat_map.
    apply forM_ext_in. intros acc i Hi.
    rewrite forM_map. apply forM_ext_in. intros [s k] j Hj. cbn [fst snd].
    unfold calculateDistance. rewrite at_matrix_entry; [reflexivity |].
    unfold pair_rows_exist in Hrows. rewrite Forall_forall in Hrows.
    apply (Hrows (nth i c 0, nth j c 0)).
    rewrite <- scan_pairs_members.
    apply (in_map (fun p => (nth (fst p) c 0, nth (snd p) c 0)) _ (i, j)).
    apply in_scan_pairs. apply in_seq in Hi, Hj. lia. }
  rewrite Hloops, sum_count_fold. simpl.
  unfold arithmetic_mean, sum_of. rewrite length_map. reflexivity.
Qed.

End Variance.

Section WithinVariance.

Context {num : Type} `{Number num}.
Local Open Scope js_scope.

(** [null] is returned by the guard and by nothing else. *)
Lemma calculateWithinClusterVariance_null (clustersGivenK : list (list (list nat)))
    (M : list (list num)) (K : Z) :
  calculateWithinClusterVariance clustersGivenK M K = Ok None
  <-> (K <= 0 \/ Z.of_nat (length clustersGivenK) <= K)%Z.
Proof.
  unfold calculateWithinClusterVariance. cbn [level_le_zero level_ge_length].
  destruct ((K <=? 0)%Z || (Z.of_nat (length clustersGivenK) <=? K)%Z) eqn:Hguard.
  - split; [| reflexivity]. intros _.
    apply orb_true_iff in Hguard. rewrite !Z.leb_le in Hguard. exact Hguard.
  - split.
    + destruct (forM _ _ _); simpl; discriminate.
    + intros Hout. apply orb_false_iff in Hguard. rewrite !Z.leb_gt in Hguard. lia.
Qed.

Lemma calculateWithinClusterVariance_value (clustersGivenK : list (list (list nat)))
    (M : list (list num)) (K : Z) :
  (0 < K < Z.of_nat (length clustersGivenK))%Z ->
  Forall (pair_rows_exist M) (nth (Z.to_nat K) clustersGivenK []) ->
  calculateWithinClusterVariance clustersGivenK M K
  = Ok (Some (sum_of (map (mean_pairwise_distance M) (nth (Z.to_nat K) clustersGivenK [])))).
Proof.
  intros HK Hrows. unfold calculateWithinClusterVariance.
  cbn [level_le_zero level_ge_length].
  replace ((K <=? 0)%Z || (Z.of_nat (length clustersGivenK) <=? K)%Z) with false
    by (symmetry; apply orb_false_iff; rewrite !Z.leb_gt; lia).
  cbv zeta.
  rewrite (forM_ext_in _ _
             (fun totalVariance cluster => Ok (totalVariance + mean_pairwise_distance M cluster))).
  - rewrite forM_pure. simpl. unfold sum_of. rewrite fold_left_map_compose. reflexivity.
  - intros acc c Hc. rewrite Forall_forall in Hrows.
    rewrite (calculateClusterVariance_mean M c (Hrows c Hc)). reflexivity.
Qed.

(** C5, with the bound that the guard has and without the promise of a
    real number.  For a table of N + 1 entries and an integer K,
    [calculateWithinClusterVariance] returns [null] exactly when K is
    outside [1, N]: K = N is inside.  For an integer K inside, when the
    matrix has the rows that the pairs of each cluster name, it returns
    the sum over the clusters of level K of the mean pairwise distance
    inside the cluster, 0 for a cluster of at most one member, as the
    arithmetic of the program computes them.  For a K that is no integer
    it returns [null] when K < 0 or K > N + 1 and throws a TypeError
    otherwise, as it does for NaN.  This holds in every model of numbers,
    IEEE doubles included. *)
Theorem calculateWithinClusterVariance_range (clustersGivenK : list (list (list nat)))
    (M : list (list num)) (N : nat) :
  length clustersGivenK = (N + 1)%nat ->
  (forall k : Z,
      (calculateWithinClusterVariance clustersGivenK M k = Ok None
       <-> (k < 1 \/ Z.of_nat N < k)%Z)
      /\ ((1 <= k <= Z.of_nat N)%Z ->
          Forall (pair_rows_exist M) (nth (Z.to_nat k) clustersGivenK []) ->
          calculateWithinClusterVariance clustersGivenK M k
          = Ok (Some (sum_of (map (mean_pairwise_distance M)
                                (nth (Z.to_nat k) clustersGivenK []))))))
  /\ (forall k : Z,
        calculateWithinClusterVariance clustersGivenK M (Between k)
        = if ((k <? 0) || (Z.of_nat N <? k))%Z then Ok None else Throw TypeError)
  /\ calculateWithinClusterVariance clustersGivenK M NotANumber = Throw TypeError.
Proof.
  intros Hlen. split; [| split].
  - intros k. split.
    + rewrite calculateWithinClusterVariance_null, Hlen. lia.
    + intros Hk Hrows. apply calculateWithinClusterVariance_value;
        [rewrite Hlen; lia | exact Hrows].
  - intros k. unfold calculateWithinClusterVariance.
    cbn [level_le_zero level_ge_length]. rewrite Hlen.
    replace (Z.of_nat (N + 1) <=? k)%Z with (Z.of_nat N <? k)%Z
      by (destruct (Z.ltb_spec (Z.of_nat N) k), (Z.leb_spec (Z.of_nat (N + 1)) k);
          try reflexivity; lia).
    destruct ((k <? 0)%Z || (Z.of_nat N <? k)%Z); reflexivity.
  - reflexivity.
Qed.

End WithinVariance.

Lemma sum_of_finite (xs : list xreal) : Forall finite xs -> finite (sum_of xs).
Proof.
  unfold sum_of.
  assert (Hgen : forall acc, Forall finite xs -> finite (fold_left num_add xs (XFin acc))).
  { induction xs as [| x xs IH]; intros acc Hxs; simpl.
    - exists acc. reflexivity.
    - inversion Hxs as [| ? ? [r ->] Hxs']; subst. simpl. apply IH. exact Hxs'. }
  apply Hgen.
Qed.

(** ** Elbow point *)

Lemma seq_sorted (start len : nat) : StronglySorted lt (seq start len).
Proof.
  revert start; induction len as [| len IH]; intros start; simpl; constructor.
  - apply IH.
  - apply Forall_forall. intros i Hi. apply in_seq in Hi. lia.
Qed.

Section ElbowFacts.

Context {num : Type} `{Number num}.
Local Open Scope js_scope.

(** With fewer than two points the loop does not run. *)
Lemma findElbowPoint_short (variances : list num) :
  length variances < 2 -> findElbowPoint variances = 1.
Proof.
  intros Hlen. unfold findElbowPoint.
  replace (length variances - 1)%nat with 0 by lia. reflexivity.
Qed.

(** The loop of [findElbowPoint] computes the distance to the chord at
    every position from 2 on. *)
Lemma findElbowPoint_scan (variances : list num) :
  findElbowPoint variances
  = snd (fold_left (elbow_step (chord_distance variances))
           (seq 2 (length variances - 1)) (num_of_nat 0, 1)).
Proof.
  unfold findElbowPoint. cbv zeta. f_equal.
  apply fold_left_ext_in. intros [maxDistance elbowPoint] i _. reflexivity.
Qed.

Variable distance : nat -> num.

(** With a strict order: a position that replaced the best one splits the
    list; no position has a larger distance, and every earlier position
    whose distance compares with anything has a smaller one. *)
Lemma elbow_maximum `{!StrictOrder_lt} (l : list nat) (m0 : num) (e0 : nat) :
  let '(m, e) := fold_left (elbow_step distance) l (m0, e0) in
  ((m, e) = (m0, e0) /\ forall i, In i l -> (m0 <? distance i) = false)
  \/ (exists l1 l2,
         l = l1 ++ e :: l2 /\ m = distance e /\ (m0 <? m) = true
         /\ (forall i, In i l1 ->
               (m <? distance i) = false
               /\ forall w, (distance i <? w) = true \/ (w <? distance i) = true ->
                            (distance i <? m) = true)
         /\ (forall i, In i l2 -> (m <? distance i) = false)).
Proof.
  revert m0 e0; induction l as [| x l IH]; intros m0 e0; simpl.
  - left. split; [reflexivity | intros i []].
  - unfold elbow_step at 2. cbn [fst].
    destruct (m0 <? distance x) eqn:Hlt.
    + specialize (IH (distance x) x).
      destruct (fold_left (elbow_step distance) l (distance x, x)) as [m e].
      right. destruct IH as [[Heq Hall] | [l1 [l2 [Hl [Hm [Hlt' [H1 H2]]]]]]].
      * inversion Heq; subst. exists [], l.
        split; [reflexivity | split; [reflexivity | split; [exact Hlt | split]]].
        -- intros i [].
        -- exact Hall.
      * exists (x :: l1), l2. subst l.
        split; [reflexivity | split; [exact Hm | split; [| split]]].
        -- eapply lt_trans; eassumption.
        -- intros i [<- | Hi]; [| apply H1; exact Hi]. split.
           ++ destruct (m <? distance x) eqn:Hmx; [| reflexivity].
              rewrite <- (lt_irrefl m). symmetry. eapply lt_trans; eassumption.
           ++ intros _ _. exact Hlt'.
        -- exact H2.
    + specialize (IH m0 e0).
      destruct (fold_left (elbow_step distance) l (m0, e0)) as [m e].
      destruct IH as [[Heq Hall] | [l1 [l2 [Hl [Hm [Hlt' [H1 H2]]]]]]].
      * left. split; [exact Heq |]. intros i [<- | Hi]; [exact Hlt | apply Hall; exact Hi].
      * right. exists (x :: l1), l2. subst l.
        split; [reflexivity | split; [exact Hm | split; [exact Hlt' | split]]].
        -- intros i [<- | Hi]; [| apply H1; exact Hi]. split.
           ++ destruct (m <? distance x) eqn:Hmx; [| reflexivity].
              rewrite <- Hlt. symmetry. eapply lt_trans; eassumption.
           ++ intros w Hcomparable.
              destruct (lt_between m0 m (distance x) w Hlt' Hcomparable) as [Hm0x | Hxm];
                [rewrite Hm0x in Hlt; discriminate | exact Hxm].
        -- exact H2.
Qed.

End ElbowFacts.

Section ElbowPoint.

Context {num : Type} `{Number num}.
Local Open Scope js_scope.

(** C6, for the distances that the program computes.  For N variances,
    [findElbowPoint] looks at the points 2..N and compares, with 0 and with
    one another, their distances to the line through the first and the
    last point as the two-point formula gives them in the arithmetic of
    the program.  It returns 1 when none of these distances is above 0.
    Otherwise it returns the K in 2..N whose distance is above 0 and is the
    maximum: no point has a larger one, and every earlier point whose
    distance compares at all (is not NaN) has a strictly smaller one, so
    that ties go to the first point.  With fewer than two points the
    result is 1, and with exactly two points it is 2 or 1 as the computed
    distance of the second point is above 0 or not.  This holds in every
    model of numbers whose [<] is a strict order, total on the numbers
    other than NaN: IEEE doubles and exact reals. *)
Theorem findElbowPoint_maximum `{!StrictOrder_lt} (variances : list num) :
  let N := length variances in
  let K := findElbowPoint variances in
  let distance := chord_distance variances in
  1 <= K <= Nat.max 1 N
  /\ ((K = 1 /\ forall i, 2 <= i <= N -> (num_of_nat 0 <? distance i) = false)
      \/ (2 <= K <= N
          /\ (num_of_nat 0 <? distance K) = true
          /\ (forall i, 2 <= i <= N -> (distance K <? distance i) = false)
          /\ (forall i w, 2 <= i < K ->
                (distance i <? w) = true \/ (w <? distance i) = true ->
                (distance i <? distance K) = true)))
  /\ (N < 2 -> K = 1)
  /\ (N = 2 -> K = if num_of_nat 0 <? distance 2 then 2 else 1).
Proof.
  intros N K distance.
  assert (Hscan : K = snd (fold_left (elbow_step distance) (seq 2 (N - 1))
                             (num_of_nat 0, 1)))
    by apply findElbowPoint_scan.
  assert (Hcases :
    (K = 1 /\ forall i, 2 <= i <= N -> (num_of_nat 0 <? distance i) = false)
    \/ (2 <= K <= N
        /\ (num_of_nat 0 <? distance K) = true
        /\ (forall i, 2 <= i <= N -> (distance K <? distance i) = false)
        /\ (forall i w, 2 <= i < K ->
              (distance i <? w) = true \/ (w <? distance i) = true ->
              (distance i <? distance K) = true))).
  { pose proof (elbow_maximum distance (seq 2 (N - 1)) (num_of_nat 0) 1) as Hmax.
    destruct (fold_left (elbow_step distance) (seq 2 (N - 1)) (num_of_nat 0, 1))
      as [m e].
    cbn [snd] in Hscan. subst e.
    destruct Hmax as [[Heq Hnone] | [l1 [l2 [Hl [Hm [Hpos [Hbefore Hafter]]]]]]].
    - left. inversion Heq as [[Hm HK]]. split; [reflexivity |].
      intros i Hi. apply Hnone. apply in_seq. lia.
    - right.
      assert (HK : In K (seq 2 (N - 1)))
        by (rewrite Hl; apply in_or_app; right; left; reflexivity).
      apply in_seq in HK.
      assert (Hsorted : StronglySorted lt (seq 2 (N - 1))).
      { apply seq_sorted. }
      rewrite Hl in Hsorted.
      split; [lia |]. rewrite <- Hm.
      split; [exact Hpos |]. split.
      + intros i Hi.
        assert (Hin : In i (l1 ++ K :: l2)) by (rewrite <- Hl; apply in_seq; lia).
        apply in_app_or in Hin. destruct Hin as [Hin | [<- | Hin]].
        * apply Hbefore. exact Hin.
        * rewrite Hm. apply lt_irrefl.
        * apply Hafter. exact Hin.
      + intros i w Hi Hcomparable.
        assert (Hin : In i (l1 ++ K :: l2)) by (rewrite <- Hl; apply in_seq; lia).
        apply in_app_or in Hin. destruct Hin as [Hin | [Heq | Hin]].
        * apply (proj2 (Hbefore i Hin) w). exact Hcomparable.
        * lia.
        * pose proof (StronglySorted_app_later _ _ _ _ _ Hsorted Hin). lia. }
  split; [destruct Hcases as [[HK _] | [HK _]]; lia |].
  split; [exact Hcases |]. split.
  - intros HN. apply findElbowPoint_short. exact HN.
  - intros HN. rewrite Hscan, HN. cbn [Nat.sub seq fold_left].
    unfold elbow_step. cbn [fst].
    destruct (num_of_nat 0 <? distance 2); reflexivity.
Qed.

End ElbowPoint.

(** ** Real data give real distances *)

Lemma sum_of_reals (rs : list R) (acc : R) :
  fold_left XReal.add (map XFin rs) (XFin acc) = XFin (fold_left Rplus rs acc).
Proof.
  revert acc; induction rs as [| r rs IH]; intros acc; simpl; [reflexivity | apply IH].
Qed.

Lemma fold_Rplus_nonneg (rs : list R) (acc : R) :
  (0 <= acc)%R -> Forall (fun r => 0 <= r)%R rs -> (0 <= fold_left Rplus rs acc)%R.
Proof.
  revert acc; induction rs as [| r rs IH]; intros acc Hacc Hrs; simpl; [exact Hacc |].
  inversion Hrs; subst. apply IH; [lra | assumption].
Qed.

Lemma squared_differences_reals (ra rb : list R) :
  squared_differences (map XFin ra) (map XFin rb)
  = map XFin (map (fun p => (fst p - snd p) * (fst p - snd p))%R (combine ra rb)).
Proof.
  unfold squared_differences.
  revert rb; induction ra as [| x ra IH]; intros [| y rb]; simpl; try reflexivity.
  f_equal. apply IH.
Qed.

Lemma euclideanDistance_finite (ra rb : list R) :
  finite (euclideanDistance (map XFin ra) (map XFin rb)).
Proof.
  rewrite euclideanDistance_sum.
  rewrite squared_differences_reals. unfold sum_of.
  cbn [num_of_nat num_add num_sqrt xreal_Number INR].
  rewrite sum_of_reals. cbn [XReal.sqrt].
  rewrite Rltb_false.
  - eexists. reflexivity.
  - apply fold_Rplus_nonneg; [lra |].
    apply Forall_forall. intros r Hr. apply in_map_iff in Hr.
    destruct Hr as [p [<- _]]. apply Rle_0_sqr.
Qed.

Lemma distance_matrix_entry {num : Type} `{Number num} {A : Type} (data : list A)
    (distance : A -> A -> num) (i j : nat) (x y : A) :
  nth_error data i = Some x -> nth_error data j = Some y ->
  entry (distance_matrix data distance) i j = distance x y.
Proof.
  intros Hx Hy. unfold entry, distance_matrix, at_num.
  erewrite (nth_error_nth _ _ []) by (apply map_nth_error; exact Hx).
  apply nth_error_nth. apply (map_nth_error (fun otherDatum => distance x otherDatum)). exact Hy.
Qed.

Lemma distance_matrix_length {num : Type} `{Number num} {A : Type} (data : list A)
    (distance : A -> A -> num) :
  length (distance_matrix data distance) = length data.
Proof. unfold distance_matrix. apply length_map. Qed.

(** *** Index sets, enumerated *)

Lemma arrangements_complete (l pool : list nat) :
  NoDup l -> incl l pool -> In l (arrangements (length l) pool).
Proof.
  revert pool; induction l as [| x l IH]; intros pool Hnodup Hincl.
  - left. reflexivity.
  - cbn [length arrangements]. apply in_flat_map. exists x.
    split; [apply Hincl; left; reflexivity |].
    apply in_map. inversion Hnodup as [| ? ? Hx Hl]; subst.
    apply IH; [exact Hl |].
    intros y Hy. apply in_in_remove.
    + intros ->. contradiction.
    + apply Hincl. right. exact Hy.
Qed.

Lemma index_sets_complete (N : nat) (l : list nat) :
  NoDup l -> Forall (fun i => i < N) l -> In l (index_sets N).
Proof.
  intros Hnodup Hrange.
  assert (Hincl : incl l (seq 0 N)).
  { intros y Hy. rewrite Forall_forall in Hrange. apply in_seq.
    specialize (Hrange y Hy). lia. }
  unfold index_sets. apply in_flat_map. exists (length l). split.
  - apply in_seq. pose proof (NoDup_incl_length Hnodup Hincl) as Hlen.
    rewrite length_seq in Hlen. lia.
  - apply arrangements_complete; assumption.
Qed.

(** The test decides the condition of the merges. *)
Lemma below_Infinity_test {num : Type} `{Number num} (N : nat) (M : list (list num))
    (linkage : linkage_fn num) :
  below_Infinity_on_index_sets N M linkage = true ->
  linkage_below_Infinity N M linkage.
Proof.
  intros Htest a b Ha Hb Hnodup Hra Hrb.
  unfold below_Infinity_on_index_sets in Htest.
  rewrite forallb_forall in Htest.
  specialize (Htest a (index_sets_complete N a (NoDup_app_remove_r _ _ Hnodup) Hra)).
  rewrite forallb_forall in Htest.
  specialize (Htest b (index_sets_complete N b (NoDup_app_remove_l _ _ Hnodup) Hrb)).
  destruct a as [| x a]; [contradiction |].
  destruct b as [| y b]; [contradiction |].
  destruct (linkage (x :: a) (y :: b) M) as [v | e]; [| discriminate].
  exists v. split; [reflexivity | exact Htest].
Qed.

(** On the four points as doubles, under the Euclidean distance, the
    default linkage is below [Infinity] on all index sets. *)
Lemma four_points_double_linkage :
  linkage_below_Infinity (length four_points_double)
    (distance_matrix four_points_double euclideanDistance) averageDistance.
Proof. apply below_Infinity_test. vm_compute. reflexivity. Qed.

(** Over real distances, the default linkage returns a real number on the
    index sets of the records, so each merge has a pair to choose. *)
Lemma averageDistance_below_Infinity {A : Type} (data : list A) (distance : A -> A -> xreal) :
  (forall x y, In x data -> In y data -> finite (distance x y)) ->
  linkage_below_Infinity (length data) (distance_matrix data distance) averageDistance.
Proof.
  intros Hfin a b Ha Hb _ Hra Hrb.
  rewrite (averageDistance_exact a b (distance_matrix data distance) Ha Hb)
    by (rewrite distance_matrix_length; exact Hra).
  destruct (sum_of_finite (pair_distances a b (distance_matrix data distance))) as [s Hs].
  { apply Forall_forall. intros v Hv. unfold pair_distances in Hv.
    apply in_flat_map in Hv. destruct Hv as [i [Hi Hv]].
    apply in_map_iff in Hv. destruct Hv as [j [<- Hj]].
    rewrite Forall_forall in Hra, Hrb.
    destruct (nth_error data i) as [x |] eqn:Hx;
      [| apply nth_error_None in Hx; specialize (Hra i Hi); lia].
    destruct (nth_error data j) as [y |] eqn:Hy;
      [| apply nth_error_None in Hy; specialize (Hrb j Hj); lia].
    rewrite (distance_matrix_entry data distance i j x y Hx Hy).
    apply Hfin; eapply nth_error_In; eassumption. }
  rewrite Hs. cbn [num_div num_of_nat xreal_Number].
  rewrite XRealFacts.div_nat.
  - eexists. split; reflexivity.
  - destruct a, b; try contradiction. simpl. lia.
Qed.

(** ** Progress *)

Section SingleRecord.

Context {num : Type} `{Number num}.

(** With one record the loop stops at its first iteration, before any
    call of the linkage function. *)
Lemma clusterData_single {A : Type} (x : A) (distance : A -> A -> num)
    (linkage : linkage_fn num) (onProgress : callback) (log : list num) :
  clusterData [x] distance linkage onProgress log
  = (Ok {| clusters := Cluster (num_of_nat 0) [0] None;
           distances := [[distance x x]];
           order := [0];
           clustersGivenK := [[]; [[0]]] |},
     log ++ reports onProgress [build_progress 1 0; merge_progress 1 0]).
Proof.
  destruct onProgress; cbn.
  - rewrite app_nil_r. reflexivity.
  - rewrite <- app_assoc. reflexivity.
Qed.

End SingleRecord.

Ltac Reqb_lra :=
  repeat match goal with
         | |- context [Reqb ?a ?b] =>
             first [rewrite (Reqb_true a b) by lra | rewrite (Reqb_false a b) by lra]
         end.

Lemma build_progress_single : @build_progress xreal _ 1 0 = XNaN.
Proof.
  unfold build_progress. cbn -[Reqb]. Reqb_lra. reflexivity.
Qed.

Lemma merge_progress_single : @merge_progress xreal _ 1 0 = XFin 1.
Proof.
  unfold merge_progress. cbn -[Reqb]. Reqb_lra. cbn -[Reqb]. Reqb_lra.
  f_equal. field.
Qed.

Lemma build_progress_single_double : @build_progress float _ 1 0 = nan.
Proof. vm_compute. reflexivity. Qed.

Lemma merge_progress_single_double : @merge_progress float _ 1 0 = 1%float.
Proof. vm_compute. reflexivity. Qed.

(** C9 at one record.  For every single record, every distance and every
    linkage function, the first value passed to [onProgress] is NaN: the
    row index 0 is divided by [data.length - 1], which is 0.  The second
    and last value is 1.  This holds in exact arithmetic and on IEEE
    doubles. *)
Theorem progress_single_record {A : Type} (x : A) :
  (forall (distance : A -> A -> xreal) (linkage : linkage_fn xreal) (log : list xreal),
      snd (clusterData [x] distance linkage Function log) = log ++ [XNaN; XFin 1])
  /\ (forall (distance : A -> A -> float) (linkage : linkage_fn float) (log : list float),
        snd (clusterData [x] distance linkage Function log) = log ++ [nan; 1%float]).
Proof.
  split; intros distance linkage log; rewrite clusterData_single; cbn [snd reports].
  - rewrite build_progress_single, merge_progress_single. reflexivity.
  - rewrite build_progress_single_double, merge_progress_single_double. reflexivity.
Qed.

Lemma build_progress_real (N index : nat) :
  2 <= N -> build_progress N index = XFin (build_fraction N index).
Proof.
  intros HN. assert (HN' : (INR 2 <= INR N)%R) by (apply le_INR; exact HN).
  assert (H2 : INR 2 = 2%R) by (simpl; lra). assert (H1 : INR 1 = 1%R) by reflexivity.
  unfold build_progress, build_fraction. cbn -[Reqb INR].
  Reqb_lra. cbn -[Reqb INR]. Reqb_lra. reflexivity.
Qed.

Lemma merge_progress_real (N iteration : nat) :
  1 <= N -> merge_progress N iteration = XFin (merge_fraction N iteration).
Proof.
  intros HN. assert (HN' : (INR 1 <= INR N)%R) by (apply le_INR; exact HN).
  assert (H2 : INR 2 = 2%R) by (simpl; lra). assert (H1 : INR 1 = 1%R) by reflexivity.
  unfold merge_progress, merge_fraction. cbn -[Reqb INR].
  Reqb_lra. cbn -[Reqb INR]. Reqb_lra. reflexivity.
Qed.

Lemma Rdiv_unit_interval (x a : R) : (0 < a)%R -> (0 <= x <= a)%R -> (0 <= x / a <= 1)%R.
Proof.
  intros Ha Hx. pose proof (Rinv_0_lt_compat a Ha) as Hinv. unfold Rdiv. split.
  - apply Rmult_le_pos; lra.
  - apply (Rmult_le_reg_r a); [exact Ha |]. rewrite Rmult_assoc, Rinv_l by lra. lra.
Qed.

Lemma Rdiv_lt_compat (x y a : R) : (0 < a)%R -> (x < y)%R -> (x / a < y / a)%R.
Proof.
  intros Ha Hxy. unfold Rdiv. apply Rmult_lt_compat_r; [apply Rinv_0_lt_compat |]; assumption.
Qed.

Lemma build_fraction_range (N index : nat) :
  2 <= N -> index < N -> (0 <= build_fraction N index <= 1 / 2)%R.
Proof.
  intros HN Hi. unfold build_fraction.
  assert (Hi' : (INR index <= INR N - INR 1)%R) by (rewrite <- minus_INR by lia; apply le_INR; lia).
  assert (H0 : (0 <= INR index)%R) by apply pos_INR.
  assert (HN' : (INR 2 <= INR N)%R) by (apply le_INR; exact HN).
  simpl INR in *.
  pose proof (Rdiv_unit_interval (INR index) (INR N - 1)) as Hq.
  lra.
Qed.

Lemma build_fraction_last (N : nat) : 2 <= N -> build_fraction N (N - 1) = (1 / 2)%R.
Proof.
  intros HN. unfold build_fraction. rewrite minus_INR by lia.
  assert (HN' : (INR 2 <= INR N)%R) by (apply le_INR; exact HN).
  simpl INR in *. field. lra.
Qed.

Lemma build_fraction_increasing (N i j : nat) :
  2 <= N -> i < j -> (build_fraction N i < build_fraction N j)%R.
Proof.
  intros HN Hij. unfold build_fraction.
  assert (Hij' : (INR i < INR j)%R) by (apply lt_INR; exact Hij).
  assert (HN' : (INR 2 <= INR N)%R) by (apply le_INR; exact HN).
  simpl INR in *.
  pose proof (Rdiv_lt_compat (INR i) (INR j) (INR N - 1)) as H1.
  pose proof (Rdiv_lt_compat (INR i / (INR N - 1)) (INR j / (INR N - 1)) (1 + 1)) as H2.
  lra.
Qed.

Lemma merge_fraction_range (N iteration : nat) :
  1 <= N -> iteration < N -> (1 / 2 < merge_fraction N iteration <= 1)%R.
Proof.
  intros HN Hi. unfold merge_fraction.
  assert (Hi' : (INR (iteration + 1) <= INR N)%R) by (apply le_INR; lia).
  assert (H0 : (0 < INR (iteration + 1))%R) by (apply lt_0_INR; lia).
  assert (HN' : (INR 1 <= INR N)%R) by (apply le_INR; exact HN).
  simpl INR in HN' |- *.
  pose proof (Rdiv_unit_interval (INR (iteration + 1)) (INR N)) as Hq.
  pose proof (Rdiv_lt_compat 0 (INR (iteration + 1)) (INR N)) as Hp.
  unfold Rdiv at 1 in Hp. rewrite Rmult_0_l in Hp.
  lra.
Qed.

Lemma merge_fraction_last (N : nat) : 1 <= N -> merge_fraction N (N - 1) = 1%R.
Proof.
  intros HN. unfold merge_fraction. replace (N - 1 + 1) with N by lia.
  assert (HN' : (INR 1 <= INR N)%R) by (apply le_INR; exact HN).
  simpl INR in *. field. lra.
Qed.

Lemma merge_fraction_increasing (N i j : nat) :
  1 <= N -> i < j -> (merge_fraction N i < merge_fraction N j)%R.
Proof.
  intros HN Hij. unfold merge_fraction.
  assert (Hij' : (INR (i + 1) < INR (j + 1))%R) by (apply lt_INR; lia).
  assert (HN' : (INR 1 <= INR N)%R) by (apply le_INR; exact HN).
  simpl INR in HN' |- *.
  pose proof (Rdiv_lt_compat (INR (i + 1)) (INR (j + 1)) (INR N)) as H1.
  pose proof (Rdiv_lt_compat (INR (i + 1) / INR N) (INR (j + 1) / INR N) (1 + 1)) as H2.
  lra.
Qed.

Lemma nth_map_seq {B} (f : nat -> B) (n i : nat) (d : B) :
  i < n -> nth i (map f (seq 0 n)) d = f i.
Proof.
  intros Hi. rewrite (nth_indep _ d (f 0)) by (rewrite length_map, length_seq; exact Hi).
  rewrite (map_nth f (seq 0 n) 0 i), seq_nth by exact Hi. reflexivity.
Qed.


(** ** Concrete runs *)

Lemma four_points_finite (x y : list xreal) :
  In x four_points -> In y four_points -> finite (euclideanDistance x y).
Proof.
  unfold four_points. intros Hx Hy.
  apply in_map_iff in Hx. destruct Hx as [rx [<- _]].
  apply in_map_iff in Hy. destruct Hy as [ry [<- _]].
  apply euclideanDistance_finite.
Qed.

Lemma four_points_linkage :
  linkage_below_Infinity (length four_points)
    (distance_matrix four_points euclideanDistance) averageDistance.
Proof. apply averageDistance_below_Infinity. exact four_points_finite. Qed.

(** *** C1 *)

(** The zero vector and two unit vectors, on doubles with the defaults:
    the pairs (0, 1) and (0, 2) have the value NaN, the pair (1, 2) has the
    value 0, and the scan ends on (1, 2). *)
Lemma mergeIteration_nearest_pair_witness :
  let clusters := map (fun index => Cluster 0%float [index] None) (seq 0 3) in
  let M := distance_matrix three_vectors cosineSimilarity in
  (forall row col, row < col < length clusters ->
     exists v, pair_linkage clusters M averageDistance (row, col) = Ok v)
  /\ pair_linkage clusters M averageDistance (0, 1) = Ok nan
  /\ pair_linkage clusters M averageDistance (1, 2) = Ok 0%float
  /\ exists d row col,
       findNearest clusters M averageDistance = Ok (d, row, col)
       /\ (d, row, col) = (0%float, 1, 2)
       /\ (d <? Infinity)%js = true
       /\ forall r c v, r < c < 3 ->
            pair_linkage clusters M averageDistance (r, c) = Ok v -> (v <? d)%js = false.
Proof.
  intros clusters M.
  assert (Hreturns : forall row col, row < col < length clusters ->
            exists v, pair_linkage clusters M averageDistance (row, col) = Ok v).
  { intros row col Hrc.
    assert (Hcases : (row, col) = (0, 1) \/ (row, col) = (0, 2) \/ (row, col) = (1, 2)).
    { destruct row as [| [| row]], col as [| [| [| col]]]; simpl in Hrc; try lia; auto. }
    destruct Hcases as [Heq | [Heq | Heq]]; inversion Heq; subst;
      eexists; vm_compute; reflexivity. }
  split; [exact Hreturns |].
  split; [vm_compute; reflexivity |].
  split; [vm_compute; reflexivity |].
  destruct (mergeIteration_nearest_pair clusters M averageDistance)
    as [d [row [col [rowC [colC [Hfind [Hrc [_ [Hbelow [Hmin _]]]]]]]]]].
  - exact Hreturns.
  - exists 1, 2, 0%float. split; [simpl; lia |].
    split; vm_compute; reflexivity.
  - exists d, row, col. split; [exact Hfind |].
    split; [| split; [exact Hbelow | exact Hmin]].
    assert (Heval : findNearest clusters M averageDistance = Ok (0%float, 1, 2))
      by (vm_compute; reflexivity).
    rewrite Heval in Hfind. inversion Hfind. reflexivity.
Defined.

(** Two zero vectors under the default metric: every distance is NaN, no
    pair is below [Infinity], and the scan ends on its initial candidate
    (0, 0), which is no pair; the merged cluster has the first cluster as
    both children and the second cluster is lost. *)
Lemma mergeIteration_no_pair_chosen :
  let clusters := [Cluster 0%float [0] None; Cluster 0%float [1] None] in
  let M := distance_matrix zero_vectors cosineSimilarity in
  2 <= length clusters
  /\ M = [[nan; nan]; [nan; nan]]
  /\ mergeIteration clusters M averageDistance
     = Ok [Cluster infinity [0; 0]
             (Some (Cluster 0%float [0] None, Cluster 0%float [0] None))]
  /\ ~ (exists d row col,
          row < col < length clusters
          /\ findNearest clusters M averageDistance = Ok (d, row, col)).
Proof.
  intros clusters M.
  split; [simpl; lia |]. split; [vm_compute; reflexivity |].
  split; [vm_compute; reflexivity |].
  intros [d [row [col [Hrc Hfind]]]].
  assert (Heval : findNearest clusters M averageDistance = Ok (infinity, 0, 0))
    by (vm_compute; reflexivity).
  rewrite Heval in Hfind. inversion Hfind; subst. lia.
Qed.

(** *** C2 *)

(** The four points as doubles, under the Euclidean distance and the
    default linkage. *)
Lemma clustersGivenK_partitions_witness :
  four_points_double <> []
  /\ linkage_below_Infinity 4 (distance_matrix four_points_double euclideanDistance)
       averageDistance
  /\ exists result log',
       clusterData four_points_double euclideanDistance averageDistance Function []
       = (Ok result, log')
       /\ forall K, 1 <= K <= 4 -> partitions 4 (nth K (clustersGivenK result) []).
Proof.
  split; [discriminate |]. split; [exact four_points_double_linkage |].
  destruct (clustersGivenK_partitions four_points_double euclideanDistance averageDistance
              Function [])
    as [[result [log' [Hrun [_ Hpart]]]] _].
  - discriminate.
  - exact four_points_double_linkage.
  - exists result, log'. split; [exact Hrun | exact Hpart].
Defined.

(** The run over the two zero vectors returns a table whose entry 1 holds
    index 0 twice and index 1 not at all. *)
Lemma clustersGivenK_not_a_partition :
  exists result log',
    clusterData zero_vectors cosineSimilarity averageDistance Function []
    = (Ok result, log')
    /\ nth 1 (clustersGivenK result) [] = [[0; 0]]
    /\ ~ partitions 2 (nth 1 (clustersGivenK result) []).
Proof.
  eexists. eexists. split; [vm_compute; reflexivity |].
  split; [reflexivity |].
  unfold partitions. cbn. intros Hperm.
  assert (Hin : In 1 [0; 0]) by (apply (Permutation_in _ (Permutation_sym Hperm)); simpl; auto).
  simpl in Hin. intuition discriminate.
Qed.

(** *** C3 *)

(** In the same run the table has its three entries, entry 2 is the two
    singletons and entry 1 is a single set, but not one that holds every
    index. *)
Lemma clustersGivenK_entry_one_incomplete :
  exists result log',
    clusterData zero_vectors cosineSimilarity averageDistance Function []
    = (Ok result, log')
    /\ length (clustersGivenK result) = 3
    /\ nth 2 (clustersGivenK result) [] = [[0]; [1]]
    /\ nth 1 (clustersGivenK result) [] = [[0; 0]]
    /\ ~ (exists all, nth 1 (clustersGivenK result) [] = [all]
                      /\ Permutation all (seq 0 2)).
Proof.
  eexists. eexists. split; [vm_compute; reflexivity |].
  split; [reflexivity |]. split; [reflexivity |]. split; [reflexivity |].
  cbn. intros [all [Hall Hperm]]. inversion Hall; subst all.
  assert (Hin : In 1 [0; 0]) by (apply (Permutation_in _ (Permutation_sym Hperm)); simpl; auto).
  simpl in Hin. intuition discriminate.
Qed.

(** *** C5 *)

Lemma calculateWithinClusterVariance_range_witness :
  length table_of_two = 2 + 1
  /\ Forall (pair_rows_exist matrix_of_two) (nth 1 table_of_two [])
  /\ calculateWithinClusterVariance table_of_two matrix_of_two 1 = Ok (Some 1%float)
  /\ calculateWithinClusterVariance table_of_two matrix_of_two 3 = Ok None
  /\ calculateWithinClusterVariance table_of_two matrix_of_two (Between 1)
     = Throw TypeError.
Proof.
  assert (Hrows : Forall (pair_rows_exist matrix_of_two) (nth 1 table_of_two []))
    by (repeat constructor).
  split; [reflexivity |]. split; [exact Hrows |].
  destruct (calculateWithinClusterVariance_range table_of_two matrix_of_two 2)
    as [Hwhole [Hbetween _]]; [reflexivity |].
  split; [| split].
  - rewrite (proj2 (Hwhole 1%Z)); [vm_compute; reflexivity | lia | exact Hrows].
  - apply (proj1 (Hwhole 3%Z)). right. simpl. lia.
  - rewrite (Hbetween 1%Z). reflexivity.
Defined.

(** With two records the table has three entries; K = 2 = N is outside
    [1, N - 1] and the result is 0, not [null].  And a result need not be
    a real number: over three records at the finite distance 1e308 from
    one another, the sum for the one cluster of level 1 overflows, and the
    result is Infinity. *)
Lemma calculateWithinClusterVariance_at_N :
  fst (clusterData [[0; 0]; [0; 1]]%float euclideanDistance averageDistance Function [])
  = Ok {| clusters :=
            Cluster 1%float [0; 1]
              (Some (Cluster 0%float [0] None, Cluster 0%float [1] None));
          distances := matrix_of_two;
          order := [0; 1];
          clustersGivenK := table_of_two |}
  /\ length table_of_two = 2 + 1
  /\ ~ (1 <= 2 <= 2 - 1)%Z
  /\ calculateWithinClusterVariance table_of_two matrix_of_two 2 = Ok (Some 0%float)
  /\ calculateWithinClusterVariance table_of_two matrix_of_two 2 <> Ok None
  /\ length table_of_three = 3 + 1
  /\ forallb (forallb (fun x => PrimFloat.ltb x infinity)) huge_matrix = true
  /\ calculateWithinClusterVariance table_of_three huge_matrix 1 = Ok (Some infinity).
Proof.
  split; [vm_compute; reflexivity |]. split; [reflexivity |]. split; [lia |].
  split; [vm_compute; reflexivity |].
  split; [vm_compute; discriminate |].
  split; [reflexivity |]. split; vm_compute; reflexivity.
Qed.

(** *** C6 *)

(** Five variances with an elbow at the third, as doubles. *)
Lemma findElbowPoint_maximum_witness :
  let variances := [10; 8; 7; 6.9; 6.8]%float in
  findElbowPoint variances = 3
  /\ (num_of_nat 0 <? chord_distance variances 3)%js = true
  /\ forall i, 2 <= i <= 5 ->
       (chord_distance variances 3 <? chord_distance variances i)%js = false.
Proof.
  intros variances.
  assert (Heval : findElbowPoint variances = 3) by (vm_compute; reflexivity).
  pose proof (findElbowPoint_maximum variances) as Hmax. cbv zeta in Hmax.
  rewrite Heval in Hmax.
  destruct Hmax as [_ [[[Hone _] | [_ [Hpos [Hlargest _]]]] _]]; [discriminate |].
  split; [reflexivity | split; [exact Hpos | exact Hlargest]].
Defined.

(** Two variances, as doubles: the distance of the second point to the
    line through the first and itself is computed as a positive number, and
    the result is 2.  Three equal variances, as doubles: every point is on
    the line, the distance of the second is computed as a positive number,
    and the result is 2. *)
Lemma findElbowPoint_two_points_rounding :
  length [6.3; 3.3]%float < 3
  /\ findElbowPoint [6.3; 3.3]%float = 2
  /\ findElbowPoint [0.1; 0.1; 0.1]%float = 2.
Proof.
  split; [simpl; lia |]. split; vm_compute; reflexivity.
Qed.

(** *** C7, C10 *)

Lemma averageDistance_is_mean_witness :
  Forall (fun i => i < length matrix_of_two) [0; 1]
  /\ averageDistance [0; 1] [1] matrix_of_two
     = Ok (sum_of (pair_distances [0; 1] [1] matrix_of_two)
           / num_of_nat 2 / num_of_nat 1)%js
  /\ averageDistance [0; 1] [1] matrix_of_two = Ok 0.5%float.
Proof.
  assert (Hrows : Forall (fun i => i < length matrix_of_two) [0; 1])
    by (repeat constructor).
  split; [exact Hrows |].
  destruct (averageDistance_is_mean [0; 1] [1] matrix_of_two Hrows) as [Hvalue _].
  split; [exact Hvalue |].
  rewrite Hvalue. vm_compute. reflexivity.
Defined.

(** Seven rows of three entries 0.3, as doubles: the sum of the 21
    entries divided by 7 and then by 3 is below the same sum divided by
    21, the arithmetic mean as computed. *)
Lemma averageDistance_not_the_mean :
  seq 0 7 <> [] /\ seq 0 3 <> []
  /\ averageDistance (seq 0 7) (seq 0 3) matrix_of_thirds = Ok 0.2999999999999999%float
  /\ arithmetic_mean (pair_distances (seq 0 7) (seq 0 3) matrix_of_thirds)
     = 0.29999999999999993%float
  /\ (0.2999999999999999 <? 0.29999999999999993)%float = true
  /\ averageDistance (seq 0 7) (seq 0 3) matrix_of_thirds
     <> Ok (arithmetic_mean (pair_distances (seq 0 7) (seq 0 3) matrix_of_thirds)).
Proof.
  assert (Hrun : averageDistance (seq 0 7) (seq 0 3) matrix_of_thirds
                 = Ok 0.2999999999999999%float) by (vm_compute; reflexivity).
  assert (Hmean : arithmetic_mean (pair_distances (seq 0 7) (seq 0 3) matrix_of_thirds)
                  = 0.29999999999999993%float) by (vm_compute; reflexivity).
  assert (Hbelow : (0.2999999999999999 <? 0.29999999999999993)%float = true)
    by (vm_compute; reflexivity).
  split; [discriminate |]. split; [discriminate |].
  split; [exact Hrun |]. split; [exact Hmean |]. split; [exact Hbelow |].
  rewrite Hrun, Hmean. intros Heq.
  assert (Hvalues : 0.2999999999999999%float = 0.29999999999999993%float)
    by (apply (f_equal (fun r => match r with Ok v => v | Throw _ => nan end) Heq)).
  rewrite Hvalues in Hbelow. vm_compute in Hbelow. discriminate.
Qed.

Lemma averageDistance_empty_is_NaN_witness :
  averageDistance [0; 1] [] real_matrix_of_two = Ok XNaN
  /\ averageDistance [0; 1] [] matrix_of_two = Ok nan.
Proof.
  destruct (averageDistance_empty_is_NaN [0; 1] []) as [Hexact Hdouble].
  - right. reflexivity.
  - split; [apply Hexact | apply Hdouble].
Defined.

(** *** C4 with the defaults *)

Example clusterData_no_records_default :
  clusterData (@nil (list float)) cosineSimilarity averageDistance Function []
  = (Throw TypeError, []).
Proof. reflexivity. Qed.



(** *** Progress over the four points *)


(** *** The scenarios of the specification, on doubles *)

Example four_points_on_doubles :
  match fst (clusterData [[0; 0]; [0; 1]; [5; 5]; [5; 6]]%float
               euclideanDistance averageDistance Function []) with
  | Ok result =>
      order result = [0; 1; 2; 3]
      /\ clustersGivenK result
         = [[]; [[0; 1; 2; 3]]; [[0; 1]; [2; 3]]; [[2]; [3]; [0; 1]]; [[0]; [1]; [2]; [3]]]
  | Throw _ => False
  end.
Proof. vm_compute. split; reflexivity. Qed.

Example single_record_on_doubles :
  fst (clusterData [[1; 0]]%float cosineSimilarity averageDistance Function [])
  = Ok {| clusters := Cluster 0%float [0] None;
          distances := [[1%float]];
          order := [0];
          clustersGivenK := [[]; [[0]]] |}.
Proof. vm_compute. reflexivity. Qed.

Example elbow_of_five_on_doubles :
  findElbowPoint [10; 8; 7; 6.9; 6.8]%float = 3.
Proof. vm_compute. reflexivity. Qed.

(** * Further properties *)

(** ** Runs under an invariant of the merge *)

Section Invariant.

Context {num : Type} `{Number num}.

Variables (N : nat) (M : list (list num)) (linkage : linkage_fn num)
          (onProgress : callback).
Variable P : list (cluster num) -> Prop.

Hypothesis P_merge :
  forall clusters, P clusters -> 2 <= length clusters ->
    exists clusters',
      mergeIteration clusters M linkage = Ok clusters'
      /\ P clusters' /\ S (length clusters') = length clusters.

(** From [m] clusters at iteration [N - m], the loop pushes [m] slices of
    collections that satisfy the invariant and leaves one cluster. *)
Lemma loop_invariant :
  forall (m iteration : nat) (clusters : list (cluster num))
         (clustersGivenK : list (list (list nat))) (log : list num),
    (iteration + m)%nat = N -> 1 <= m ->
    length clusters = m -> P clusters ->
    exists root snapshots,
      forBreak (seq iteration m) (iterationBody N M linkage onProgress)
        (clusters, clustersGivenK) log
      = (Ok ([root], clustersGivenK ++ snapshots),
         log ++ reports onProgress (map (merge_progress N) (seq iteration m)))
      /\ slices_of P m snapshots
      /\ nth 0 snapshots [] = map indexes clusters
      /\ P [root].
Proof.
  induction m as [| m IH]; intros iteration clusters givenK log HN Hm Hlen HP; [lia |].
  destruct (Nat.eq_dec m 0) as [-> | Hm'].
  - destruct clusters as [| root [| ? ?]]; try discriminate.
    exists root, [map indexes [root]].
    cbn [seq forBreak map]. unfold bind.
    rewrite iterationBody_break by (apply Z.leb_le; lia).
    split; [reflexivity |]. split; [| split; [reflexivity | exact HP]].
    split; [reflexivity |]. intros j Hj. assert (j = 0) by lia. subst j.
    exists [root]. split; [reflexivity | split; [reflexivity | exact HP]].
  - destruct (P_merge clusters HP) as [clusters' [Hmerge [HP' Hlen']]]; [lia |].
    destruct (IH (S iteration) clusters' (givenK ++ [map indexes clusters])
                (log ++ reports onProgress [merge_progress N iteration]))
      as [root [snapshots [Hrun [[Hslen Hsl] [Hfirst Hroot]]]]];
      [lia | lia | lia | exact HP' |].
    exists root, (map indexes clusters :: snapshots).
    cbn [seq forBreak map]. unfold bind at 1.
    rewrite (iterationBody_continue N M linkage onProgress clusters clusters')
      by (try apply Z.leb_gt; try lia; exact Hmerge).
    rewrite Hrun.
    split; [| split; [| split; [reflexivity | exact Hroot]]].
    + rewrite <- !app_assoc. simpl.
      replace (merge_progress N iteration :: map (merge_progress N) (seq (S iteration) m))
        with ([merge_progress N iteration] ++ map (merge_progress N) (seq (S iteration) m))
        by reflexivity.
      rewrite reports_app. reflexivity.
    + split; [simpl; lia |]. intros [| j] Hj.
      * exists clusters. split; [reflexivity | split; [lia | exact HP]].
      * simpl. destruct (Hsl j) as [cs [Hcs [Hcslen HPcs]]]; [lia |].
        exists cs. split; [exact Hcs | split; [lia | exact HPcs]].
Qed.

End Invariant.

Section InvariantRun.

Context {num : Type} `{Number num}.

(** A complete run under an invariant that the singletons satisfy. *)
Lemma clusterData_invariant {A : Type} (data : list A) (distance : A -> A -> num)
    (linkage : linkage_fn num) (onProgress : callback) (log : list num)
    (P : list (cluster num) -> Prop) :
  let N := length data in
  data <> [] ->
  P (map (fun index => Cluster (num_of_nat 0) [index] None) (seq 0 N)) ->
  (forall clusters, P clusters -> 2 <= length clusters ->
     exists clusters',
       mergeIteration clusters (distance_matrix data distance) linkage = Ok clusters'
       /\ P clusters' /\ S (length clusters') = length clusters) ->
  exists root snapshots,
    clusterData data distance linkage onProgress log
    = (Ok {| clusters := root;
             distances := distance_matrix data distance;
             order := indexes root;
             clustersGivenK := [] :: rev snapshots |},
       log ++ reports onProgress
                (map (build_progress N) (seq 0 N) ++ map (merge_progress N) (seq 0 N)))
    /\ slices_of P N snapshots
    /\ nth 0 snapshots [] = map (fun i => [i]) (seq 0 N)
    /\ P [root].
Proof.
  intros N Hdata Hinit Hmerge.
  assert (HN : 1 <= N) by (unfold N; destruct data; [contradiction | simpl; lia]).
  destruct (loop_invariant N (distance_matrix data distance) linkage onProgress P Hmerge
              N 0 (map (fun index => Cluster (num_of_nat 0) [index] None) (seq 0 N)) []
              (log ++ reports onProgress (map (build_progress N) (seq 0 N))))
    as [root [snapshots [Hrun [Hsl [Hfirst Hroot]]]]].
  { reflexivity. } { exact HN. } { rewrite length_map, length_seq. reflexivity. }
  { exact Hinit. }
  exists root, snapshots.
  split; [| split; [exact Hsl | split; [| exact Hroot]]].
  - unfold clusterData. fold N. unfold bind at 1.
    rewrite build_run. cbv beta iota. fold (distance_matrix data distance).
    fold N. unfold bind at 1. rewrite Hrun. cbv beta iota. simpl app.
    unfold bind, lift, ret. simpl.
    rewrite reports_app, app_assoc. reflexivity.
  - rewrite Hfirst, map_map. reflexivity.
Qed.

(** What one merge iteration does to the working collection, whichever
    candidate the scan ends on: two positions go, one cluster made of two
    live clusters comes. *)
Lemma mergeIteration_shape (clusters : list (cluster num)) (M : list (list num))
    (linkage : linkage_fn num) :
  (forall row col, row < col < length clusters ->
     exists v, pair_linkage clusters M linkage (row, col) = Ok v) ->
  2 <= length clusters ->
  exists d a b kept,
    mergeIteration clusters M linkage
    = Ok (kept ++ [Cluster d (indexes a ++ indexes b) (Some (a, b))])
    /\ In a clusters /\ In b clusters /\ incl kept clusters
    /\ S (S (length kept)) = length clusters.
Proof.
  intros Hret Hlen.
  destruct (findNearest_fold clusters M linkage Hret) as [value [_ Hfind]].
  pose proof (scan_result value (scan_pairs (length clusters)) Infinity 0 0) as Hscan.
  destruct (fold_left (scan_step value) (scan_pairs (length clusters)) (Infinity, 0, 0))
    as [[d row] col].
  unfold mergeIteration. rewrite Hfind. cbn [rbind].
  destruct Hscan as [[Heq _] | [Hin _]].
  - inversion Heq; subst.
    destruct clusters as [| c0 [| c1 rest]]; simpl in Hlen; try lia.
    exists Infinity, c0, c0, rest. split; [reflexivity |].
    split; [left; reflexivity |]. split; [left; reflexivity |].
    split; [| reflexivity].
    intros c Hc. right. right. exact Hc.
  - apply in_scan_pairs in Hin.
    destruct (nth_error clusters row) as [rc |] eqn:Hr;
      [| apply nth_error_None in Hr; lia].
    destruct (nth_error clusters col) as [cc |] eqn:Hc;
      [| apply nth_error_None in Hc; lia].
    destruct (splice_two clusters row col rc cc) as [l1 [l2 [l3 [Hl Hsp]]]];
      [lia | exact Hr | exact Hc |].
    exists d, rc, cc, (l1 ++ l2 ++ l3).
    rewrite (mergeNearest_pair clusters d row col rc cc) by (try lia; assumption).
    rewrite Hsp. split; [reflexivity |].
    split; [eapply nth_error_In; exact Hr |]. split; [eapply nth_error_In; exact Hc |].
    split.
    + rewrite Hl. intros c Hin'. rewrite !in_app_iff in Hin'. rewrite !in_app_iff. simpl.
      rewrite in_app_iff. simpl. tauto.
    + rewrite Hl. rewrite !length_app. simpl. rewrite !length_app. simpl. lia.
Qed.

End InvariantRun.

(** ** The dendrogram of a run *)

Section DendrogramFacts.

Context {num : Type} `{Number num}.
Local Open Scope js_scope.

Fixpoint well_formed_leaves (c : cluster num) : well_formed c -> indexes c = leaves c.
Proof.
  destruct c as [h i [[l r] |]]; simpl; intros Hwf.
  - destruct Hwf as [-> [Hl Hr]].
    rewrite (well_formed_leaves l Hl), (well_formed_leaves r Hr). reflexivity.
  - reflexivity.
Qed.

Fixpoint leaves_merges (c : cluster num) : well_formed c -> length (leaves c) = S (merges c).
Proof.
  destruct c as [h i [[l r] |]]; simpl; intros Hwf.
  - destruct Hwf as [_ [Hl Hr]]. rewrite length_app.
    rewrite (leaves_merges l Hl), (leaves_merges r Hr). lia.
  - destruct Hwf as [[index ->] _]. reflexivity.
Qed.

Lemma singletons_in_range (N : nat) :
  in_range N (map (fun index => Cluster (num_of_nat 0) [index] None) (seq 0 N)).
Proof.
  apply Forall_forall. intros c Hc. apply in_map_iff in Hc.
  destruct Hc as [index [<- Hindex]]. apply in_seq in Hindex. simpl.
  constructor; [lia | constructor].
Qed.

Lemma singletons_well_formed (N : nat) :
  Forall well_formed (map (fun index => Cluster (num_of_nat 0) [index] None) (seq 0 N)).
Proof.
  apply Forall_forall. intros c Hc. apply in_map_iff in Hc.
  destruct Hc as [index [<- _]]. simpl. split; [exists index |]; reflexivity.
Qed.

Lemma in_range_pairs (N : nat) (M : list (list num)) (linkage : linkage_fn num)
    (clusters : list (cluster num)) :
  linkage_returns N M linkage -> in_range N clusters ->
  forall row col, row < col < length clusters ->
    exists v, pair_linkage clusters M linkage (row, col) = Ok v.
Proof.
  intros Hlink Hrange row col Hrc. unfold pair_linkage, cluster_at. simpl.
  destruct (nth_error clusters row) as [rc |] eqn:Hr;
    [| apply nth_error_None in Hr; lia].
  destruct (nth_error clusters col) as [cc |] eqn:Hc;
    [| apply nth_error_None in Hc; lia].
  simpl. unfold in_range in Hrange. rewrite Forall_forall in Hrange.
  apply Hlink; apply Hrange; eapply nth_error_In; eassumption.
Qed.

(** Whatever the values of the linkage function, a merge iteration keeps
    the indexes in range and the trees well formed. *)
Lemma mergeIteration_any (N : nat) (M : list (list num)) (linkage : linkage_fn num)
    (clusters : list (cluster num)) :
  linkage_returns N M linkage ->
  in_range N clusters /\ Forall well_formed clusters ->
  2 <= length clusters ->
  exists clusters',
    mergeIteration clusters M linkage = Ok clusters'
    /\ (in_range N clusters' /\ Forall well_formed clusters')
    /\ S (length clusters') = length clusters.
Proof.
  intros Hlink [Hrange Hwf] Hlen.
  destruct (mergeIteration_shape clusters M linkage
              (in_range_pairs N M linkage clusters Hlink Hrange) Hlen)
    as [d [a [b [kept [Hmerge [Ha [Hb [Hkept Hlen']]]]]]]].
  eexists. split; [exact Hmerge |].
  unfold in_range in *. rewrite Forall_forall in Hrange, Hwf.
  split; [split |].
  - apply Forall_app. split.
    + apply Forall_forall. intros c Hc. apply Hrange, Hkept, Hc.
    + constructor; [| constructor]. simpl. apply Forall_app. split; apply Hrange; assumption.
  - apply Forall_app. split.
    + apply Forall_forall. intros c Hc. apply Hwf, Hkept, Hc.
    + constructor; [| constructor]. simpl. split; [reflexivity |]. split; apply Hwf; assumption.
  - rewrite length_app. simpl. lia.
Qed.

(** The default linkage function returns when its index sets stay inside
    the matrix, in every model of numbers. *)
Lemma averageDistance_returns {A : Type} (data : list A) (distance : A -> A -> num) :
  linkage_returns (length data) (distance_matrix data distance) averageDistance.
Proof.
  intros a b Ha _. eexists. apply averageDistance_sum.
  rewrite distance_matrix_length. exact Ha.
Qed.

(** A complete run when the linkage function returns, whatever it
    returns. *)
Lemma clusterData_run_any {A : Type} (data : list A) (distance : A -> A -> num)
    (linkage : linkage_fn num) (onProgress : callback) (log : list num) :
  let N := length data in
  data <> [] ->
  linkage_returns N (distance_matrix data distance) linkage ->
  exists root snapshots,
    clusterData data distance linkage onProgress log
    = (Ok {| clusters := root;
             distances := distance_matrix data distance;
             order := indexes root;
             clustersGivenK := [] :: rev snapshots |},
       log ++ reports onProgress
                (map (build_progress N) (seq 0 N) ++ map (merge_progress N) (seq 0 N)))
    /\ slices_of (fun clusters => in_range N clusters /\ Forall well_formed clusters)
         N snapshots
    /\ nth 0 snapshots [] = map (fun i => [i]) (seq 0 N)
    /\ in_range N [root] /\ well_formed root.
Proof.
  intros N Hdata Hlink.
  destruct (clusterData_invariant data distance linkage onProgress log
              (fun clusters => in_range N clusters /\ Forall well_formed clusters))
    as [root [snapshots [Hrun [Hsl [Hfirst [Hrange Hwf]]]]]].
  - exact Hdata.
  - split; [apply singletons_in_range | apply singletons_well_formed].
  - intros clusters HP Hlen. apply (mergeIteration_any N); assumption.
  - exists root, snapshots.
    split; [exact Hrun | split; [exact Hsl | split; [exact Hfirst | split; [exact Hrange |]]]].
    inversion Hwf; assumption.
Qed.

(** C3, with the one part that needs every merge to have a pair to
    choose.  For N >= 1 records and a linkage function that returns on
    index sets over 0..N-1, whatever it returns, the table
    [clustersGivenK] returned by [clusterData], the same in both variants
    of the module, has N + 1 entries; entry 0 is empty; entry K, for K in
    1..N, has exactly K index sets; entry N is the N singletons [0], ...,
    [N-1]; entry 1 is a single set.  When in addition the linkage values
    on disjoint non-empty index sets are below [Infinity], that set holds
    every index 0..N-1 once.  This holds in every model of numbers, IEEE
    doubles included. *)
Theorem clustersGivenK_shape {A : Type} (data : list A) (distance : A -> A -> num)
    (linkage : linkage_fn num) (onProgress : callback) (log : list num) :
  let N := length data in
  data <> [] ->
  linkage_returns N (distance_matrix data distance) linkage ->
  exists result log',
    clusterData data distance linkage onProgress log = (Ok result, log')
    /\ Hclust.clusterData data distance linkage = Ok result
    /\ length (clustersGivenK result) = (N + 1)%nat
    /\ nth_error (clustersGivenK result) 0 = Some []
    /\ (forall K, 1 <= K <= N -> length (nth K (clustersGivenK result) []) = K)
    /\ nth N (clustersGivenK result) [] = map (fun i => [i]) (seq 0 N)
    /\ (exists all, nth 1 (clustersGivenK result) [] = [all])
    /\ (linkage_below_Infinity N (distance_matrix data distance) linkage ->
        exists all, nth 1 (clustersGivenK result) [] = [all]
                    /\ Permutation all (seq 0 N)).
Proof.
  intros N Hdata Hreturns.
  assert (HN : 1 <= N) by (unfold N; destruct data; [contradiction | simpl; lia]).
  destruct (clusterData_run_any data distance linkage onProgress log Hdata Hreturns)
    as [root [snapshots [Hrun [[Hlen Hsl] [Hfirst _]]]]].
  fold N in Hlen, Hsl, Hfirst.
  eexists. eexists. split; [exact Hrun |].
  split; [rewrite <- (clusterData_fst data distance linkage onProgress log), Hrun;
          reflexivity |].
  cbn [clustersGivenK].
  split; [simpl; rewrite length_rev; lia |].
  split; [reflexivity |].
  split; [| split; [| split]].
  - intros K HK. rewrite (slice_of_K N K snapshots Hlen HK).
    destruct (Hsl (N - K)%nat) as [cs [-> [Hcslen _]]]; [lia |].
    rewrite length_map. lia.
  - rewrite (slice_of_K N N snapshots Hlen) by lia.
    rewrite Nat.sub_diag. exact Hfirst.
  - rewrite (slice_of_K N 1 snapshots Hlen) by lia.
    destruct (Hsl (N - 1)%nat) as [cs [-> [Hcslen _]]]; [lia |].
    destruct cs as [| c [| ? ?]]; simpl in Hcslen; try lia.
    exists (indexes c). reflexivity.
  - intros Hbelow.
    destruct (clusterData_run data distance linkage onProgress log Hdata Hbelow)
      as [root' [snapshots' [Hrun' [[Hlen' Hsl'] _]]]].
    fold N in Hrun', Hlen', Hsl'.
    rewrite Hrun in Hrun'. inversion Hrun' as [[Hroot Horder Htable]].
    apply (f_equal (@rev _)) in Htable. rewrite !rev_involutive in Htable.
    rewrite (slice_of_K N 1 snapshots Hlen) by lia. rewrite Htable.
    destruct (Hsl' (N - 1)%nat) as [Hlen1 Hpart1]; [lia |].
    destruct (nth (N - 1) snapshots' []) as [| all [| ? ?]] eqn:Hnth;
      simpl in Hlen1; try lia.
    exists all. split; [reflexivity |].
    unfold partitions in Hpart1. simpl in Hpart1. rewrite app_nil_r in Hpart1.
    exact Hpart1.
Qed.


(** The dendrogram of such a run is a well-formed binary tree: its leaves
    are single records at height 0, every other node holds the indexes of
    its left child followed by those of its right child, and [order] is
    the sequence of the leaves from left to right, one more than there are
    merges in the tree. *)
Theorem clusterData_dendrogram {A : Type} (data : list A) (distance : A -> A -> num)
    (linkage : linkage_fn num) (onProgress : callback) (log : list num) :
  let N := length data in
  data <> [] ->
  linkage_returns N (distance_matrix data distance) linkage ->
  exists result log',
    clusterData data distance linkage onProgress log = (Ok result, log')
    /\ well_formed (clusters result)
    /\ order result = indexes (clusters result)
    /\ order result = leaves (clusters result)
    /\ length (order result) = S (merges (clusters result))
    /\ Forall (fun i => i < N) (order result).
Proof.
  intros N Hdata Hlink.
  destruct (clusterData_run_any data distance linkage onProgress log Hdata Hlink)
    as [root [snapshots [Hrun [_ [_ [Hrange Hwf]]]]]].
  eexists. eexists. split; [exact Hrun |]. cbn [clusters order].
  split; [exact Hwf |]. split; [reflexivity |].
  split; [apply well_formed_leaves; exact Hwf |].
  split; [rewrite (well_formed_leaves root Hwf); apply leaves_merges; exact Hwf |].
  inversion Hrange; assumption.
Qed.

(** With the default linkage function, every distance function that
    returns numbers and any callback: [clusterData] returns only for a
    non-empty input; for a non-empty input it does not end in a TypeError,
    so that it returns or ends in what the callback threw; and with a
    callback that returns, or is no function, it returns exactly when the
    input is not empty.  This holds in every model of numbers. *)
Theorem clusterData_default_linkage {A : Type} (data : list A) (distance : A -> A -> num)
    (onProgress : handler num) (log : list num) :
  ((exists result log',
       clusterData data distance averageDistance onProgress log = (Ok result, log'))
   -> data <> [])
  /\ (data <> [] ->
      (exists result, fst (clusterData data distance averageDistance onProgress log)
                      = Ok result)
      \/ fst (clusterData data distance averageDistance onProgress log) = Throw Raised)
  /\ (forall c : callback,
        onProgress = Returning c ->
        ((exists result log',
             clusterData data distance averageDistance onProgress log = (Ok result, log'))
         <-> data <> [])).
Proof.
  assert (Hruns : forall c : callback, data <> [] ->
            exists result log',
              clusterData data distance averageDistance c log = (Ok result, log')).
  { intros c Hdata.
    destruct (clusterData_run_any data distance averageDistance c log Hdata
                (averageDistance_returns data distance))
      as [root [snapshots [Hrun _]]].
    eexists. eexists. exact Hrun. }
  assert (Hempty : (exists result log',
                       clusterData data distance averageDistance onProgress log
                       = (Ok result, log')) -> data <> []).
  { intros [result [log' Hrun]] ->. discriminate Hrun. }
  split; [exact Hempty |]. split.
  - intros Hdata.
    destruct (clusterData_any data distance averageDistance onProgress log)
      as [Hsame | Hraised]; [left | right; exact Hraised].
    destruct (Hruns NotAFunction Hdata) as [result [log' Hrun]].
    exists result. rewrite Hsame.
    rewrite <- (clusterData_fst data distance averageDistance NotAFunction log), Hrun.
    reflexivity.
  - intros c ->. split; [exact Hempty | apply Hruns].
Qed.

End DendrogramFacts.

Section ProperMerges.

Context {num : Type} `{Number num}.
Local Open Scope js_scope.

(** When every pair has a value below [Infinity], the merge joins two
    distinct live clusters at their linkage value. *)
Lemma mergeIteration_proper (N : nat) (M : list (list num)) (linkage : linkage_fn num)
    (clusters : list (cluster num)) :
  linkage_below_Infinity N M linkage ->
  live N clusters -> 2 <= length clusters ->
  exists d a b l1 l2 l3,
    clusters = l1 ++ a :: l2 ++ b :: l3
    /\ mergeIteration clusters M linkage
       = Ok ((l1 ++ l2 ++ l3) ++ [Cluster d (indexes a ++ indexes b) (Some (a, b))])
    /\ linkage (indexes a) (indexes b) M = Ok d
    /\ (d <? Infinity) = true.
Proof.
  intros Hlink Hlive Hlen.
  pose proof (pair_linkage_below_Infinity N M linkage clusters Hlink Hlive) as Hpair.
  destruct (findNearest_fold clusters M linkage) as [value [Hvalue Hfind]].
  { intros row col Hrc. destruct (Hpair row col Hrc) as [v [Hv _]]. exists v. exact Hv. }
  pose proof (scan_result value (scan_pairs (length clusters)) Infinity 0 0) as Hscan.
  destruct (fold_left (scan_step value) (scan_pairs (length clusters)) (Infinity, 0, 0))
    as [[d row] col].
  destruct Hscan as [[_ Hnone] | [Hin Hd]].
  { assert (H01 : 0 < 1 < length clusters) by lia.
    specialize (Hnone (0, 1) (proj2 (in_scan_pairs _ _ _) H01)).
    destruct (Hpair 0 1 H01) as [v [Hv Hvlt]].
    rewrite (Hvalue _ _ _ H01 Hv), Hvlt in Hnone. discriminate. }
  apply in_scan_pairs in Hin.
  destruct (Hpair row col Hin) as [v [Hv Hvlt]].
  assert (v = d) by (rewrite Hd; symmetry; apply (Hvalue _ _ _ Hin Hv)). subst v.
  destruct (pair_linkage_clusters _ _ _ _ _ Hv) as [rc [cc [Hr [Hc Hlinkage]]]].
  simpl in Hr, Hc.
  destruct (splice_two clusters row col rc cc) as [l1 [l2 [l3 [Hl Hsp]]]];
    [lia | exact Hr | exact Hc |].
  exists d, rc, cc, l1, l2, l3.
  split; [exact Hl |]. split; [| split; assumption].
  unfold mergeIteration. rewrite Hfind. cbn [rbind].
  rewrite (mergeNearest_pair clusters d row col rc cc) by (try lia; assumption).
  rewrite Hsp. reflexivity.
Qed.

Lemma list_sum_zero (l : list nat) : Forall (fun n => n = 0) l -> list_sum l = 0.
Proof.
  induction l as [| n l IH]; intros Hl; [reflexivity |].
  inversion Hl; subst. simpl. apply IH. assumption.
Qed.

Lemma singletons_proper (N : nat) (M : list (list num)) (linkage : linkage_fn num) :
  proper N M linkage (map (fun index => Cluster (num_of_nat 0) [index] None) (seq 0 N)).
Proof.
  split; [apply singletons_live |]. split; [apply singletons_well_formed |]. split.
  - apply Forall_forall. intros c Hc. apply in_map_iff in Hc.
    destruct Hc as [index [<- _]]. exact I.
  - rewrite length_map, length_seq, list_sum_zero; [reflexivity |].
    apply Forall_forall. intros n Hn. apply in_map_iff in Hn.
    destruct Hn as [c [<- Hc]]. apply in_map_iff in Hc.
    destruct Hc as [index [<- _]]. reflexivity.
Qed.

Lemma mergeIteration_keeps_proper (N : nat) (M : list (list num)) (linkage : linkage_fn num)
    (clusters : list (cluster num)) :
  linkage_below_Infinity N M linkage ->
  proper N M linkage clusters -> 2 <= length clusters ->
  exists clusters',
    mergeIteration clusters M linkage = Ok clusters'
    /\ proper N M linkage clusters' /\ S (length clusters') = length clusters.
Proof.
  intros Hlink [Hlive [Hwf [Hlinked Hcount]]] Hlen.
  destruct (mergeIteration_live N M linkage clusters Hlink Hlive Hlen)
    as [clusters' [Hmerge [Hlive' Hlen']]].
  exists clusters'. split; [exact Hmerge |]. split; [| exact Hlen'].
  destruct (mergeIteration_proper N M linkage clusters Hlink Hlive Hlen)
    as [d [a [b [l1 [l2 [l3 [Hl [Hmerge' [Hd Hdlt]]]]]]]]].
  rewrite Hmerge in Hmerge'. inversion Hmerge'; subst clusters'. clear Hmerge'.
  split; [exact Hlive' |]. subst clusters.
  rewrite !Forall_app, !Forall_cons_iff, !Forall_app, !Forall_cons_iff in Hwf, Hlinked.
  destruct Hwf as [Hwf1 [Hwfa [Hwf2 [Hwfb Hwf3]]]].
  destruct Hlinked as [Hli1 [Hlia [Hli2 [Hlib Hli3]]]].
  split; [| split].
  - rewrite !Forall_app. repeat split; try assumption.
    constructor; [| constructor]. simpl. repeat split; assumption.
  - rewrite !Forall_app. repeat split; try assumption.
    constructor; [| constructor]. simpl. repeat split; assumption.
  - rewrite <- Hcount.
    rewrite !map_app, !list_sum_app, !length_app. simpl.
    rewrite !map_app, !list_sum_app, !length_app. simpl. lia.
Qed.

(** When the linkage values on every two disjoint non-empty index sets
    are below [Infinity], so that every merge has a pair to choose, the
    dendrogram of N >= 1 records records exactly N - 1 merges, its leaves
    are the records 0..N-1, each once, [order] is a permutation of 0..N-1,
    and the height of every node with children is the linkage value of the
    index sets of its two children, a value below [Infinity].  This holds
    in every model of numbers, IEEE doubles included. *)
Theorem clusterData_merges {A : Type} (data : list A) (distance : A -> A -> num)
    (linkage : linkage_fn num) (onProgress : callback) (log : list num) :
  let N := length data in
  data <> [] ->
  linkage_below_Infinity N (distance_matrix data distance) linkage ->
  exists result log',
    clusterData data distance linkage onProgress log = (Ok result, log')
    /\ S (merges (clusters result)) = N
    /\ Permutation (leaves (clusters result)) (seq 0 N)
    /\ Permutation (order result) (seq 0 N)
    /\ NoDup (order result)
    /\ linked (distance_matrix data distance) linkage (clusters result).
Proof.
  intros N Hdata Hlink.
  destruct (clusterData_invariant data distance linkage onProgress log
              (proper N (distance_matrix data distance) linkage))
    as [root [snapshots [Hrun [_ [_ [[Hperm _] [Hwf [Hlinked Hcount]]]]]]]].
  - exact Hdata.
  - apply singletons_proper.
  - intros clusters HP Hlen. apply mergeIteration_keeps_proper; assumption.
  - inversion Hwf as [| ? ? Hwfr _]; subst. inversion Hlinked as [| ? ? Hlr _]; subst.
    unfold partitions in Hperm. simpl in Hperm. rewrite app_nil_r in Hperm.
    simpl in Hcount.
    eexists. eexists. split; [exact Hrun |]. cbn [clusters order].
    split; [lia |].
    split; [rewrite <- (well_formed_leaves root Hwfr); exact Hperm |].
    split; [exact Hperm |].
    split; [| exact Hlr].
    apply (Permutation_NoDup (Permutation_sym Hperm)). apply seq_NoDup.
Qed.

End ProperMerges.

(** ** The metric library over exact arithmetic *)

Lemma xreal_square_difference (x y : xreal) :
  XReal.mul (XReal.sub x y) (XReal.sub x y) = XReal.mul (XReal.sub y x) (XReal.sub y x).
Proof.
  destruct x as [| [|] | a], y as [| [|] | b]; try reflexivity.
  simpl. f_equal. ring.
Qed.

Lemma squared_differences_sym (a b : list xreal) :
  squared_differences a b = squared_differences b a.
Proof.
  unfold squared_differences.
  revert b; induction a as [| x a IH]; intros [| y b]; simpl; try reflexivity.
  f_equal; [apply xreal_square_difference | apply IH].
Qed.

(** [euclideanDistance] is symmetric, on vectors of any lengths and with
    any entries, NaN and infinities included (exact arithmetic). *)
Theorem euclideanDistance_symmetric (a b : list xreal) :
  euclideanDistance a b = euclideanDistance b a.
Proof.
  rewrite !euclideanDistance_sum, squared_differences_sym. reflexivity.
Qed.

Lemma euclideanDistance_reals (ra rb : list R) :
  euclideanDistance (map XFin ra) (map XFin rb)
  = XFin (R_sqrt.sqrt
            (fold_left Rplus
               (map (fun p => (fst p - snd p) * (fst p - snd p))%R (combine ra rb)) 0%R)).
Proof.
  rewrite euclideanDistance_sum, squared_differences_reals. unfold sum_of.
  cbn [num_of_nat num_add num_sqrt xreal_Number INR].
  rewrite sum_of_reals. cbn [XReal.sqrt].
  rewrite Rltb_false; [reflexivity |].
  apply fold_Rplus_nonneg; [lra |].
  apply Forall_forall. intros r Hr. apply in_map_iff in Hr.
  destruct Hr as [p [<- _]]. apply Rle_0_sqr.
Qed.

Lemma fold_Rplus_zero (rs : list R) :
  Forall (fun r => r = 0%R) rs -> fold_left Rplus rs 0%R = 0%R.
Proof.
  induction rs as [| r rs IH]; intros Hrs; [reflexivity |].
  inversion Hrs; subst. simpl. rewrite Rplus_0_l. apply IH. assumption.
Qed.

(** ** The matrix of a run *)

(** The matrix that [clusterData] returns has one row per record and one
    column per record, and its entry (i, j) is the distance from record i
    to record j, in every model of numbers and for every linkage function
    that returns. *)
Theorem clusterData_distances {num : Type} `{Number num} {A : Type} (data : list A)
    (distance : A -> A -> num) (linkage : linkage_fn num) (onProgress : callback)
    (log : list num) :
  let N := length data in
  data <> [] ->
  linkage_returns N (distance_matrix data distance) linkage ->
  exists result log',
    clusterData data distance linkage onProgress log = (Ok result, log')
    /\ length (distances result) = N
    /\ Forall (fun row => length row = N) (distances result)
    /\ forall i j x y,
         nth_error data i = Some x -> nth_error data j = Some y ->
         at_matrix (distances result) i j = Ok (distance x y).
Proof.
  intros N Hdata Hlink.
  destruct (clusterData_run_any data distance linkage onProgress log Hdata Hlink)
    as [root [snapshots [Hrun _]]].
  eexists. eexists. split; [exact Hrun |]. cbn [distances].
  split; [apply distance_matrix_length |]. split.
  - apply Forall_forall. intros row Hrow. unfold distance_matrix in Hrow.
    apply in_map_iff in Hrow. destruct Hrow as [x [<- _]]. apply length_map.
  - intros i j x y Hx Hy.
    rewrite at_matrix_entry.
    + f_equal. apply distance_matrix_entry; assumption.
    + rewrite distance_matrix_length. apply nth_error_Some. rewrite Hx. discriminate.
Qed.


(** ** Cosine similarity over exact arithmetic *)

Lemma xreal_mul_comm (x y : xreal) : XReal.mul x y = XReal.mul y x.
Proof.
  destruct x as [| [|] | a], y as [| [|] | b]; try reflexivity.
  simpl. f_equal. ring.
Qed.

Lemma xreal_add_NaN_r (x : xreal) : XReal.add x XNaN = XNaN.
Proof. destruct x as [| [|] |]; reflexivity. Qed.

Lemma xreal_mul_NaN_r (x : xreal) : XReal.mul x XNaN = XNaN.
Proof. destruct x as [| [|] |]; reflexivity. Qed.

Lemma xreal_div_NaN_r (x : xreal) : XReal.div x XNaN = XNaN.
Proof. destruct x as [| [|] |]; reflexivity. Qed.

Lemma fold_add_NaN {B : Type} (f : B -> xreal) (l : list B) :
  fold_left (fun acc i => XReal.add acc (f i)) l XNaN = XNaN.
Proof. induction l as [| i l IH]; simpl; [reflexivity | exact IH]. Qed.

(** A sum with a NaN term is NaN. *)
Lemma fold_add_NaN_term {B : Type} (f : B -> xreal) (l : list B) (acc : xreal) (i : B) :
  In i l -> f i = XNaN ->
  fold_left (fun acc i => XReal.add acc (f i)) l acc = XNaN.
Proof.
  revert acc; induction l as [| j l IH]; intros acc Hin Hi; [contradiction |].
  simpl. destruct Hin as [-> | Hin].
  - rewrite Hi, xreal_add_NaN_r. apply fold_add_NaN.
  - apply IH; assumption.
Qed.

Lemma zero_or_NaN_mul_l (x y : xreal) :
  x = XFin 0 \/ x = XNaN -> XReal.mul x y = XFin 0 \/ XReal.mul x y = XNaN.
Proof.
  intros [-> | ->]; [| right; reflexivity].
  destruct y as [| s | b]; simpl.
  - right; reflexivity.
  - rewrite Reqb_true by reflexivity. right; reflexivity.
  - left. f_equal. ring.
Qed.

Lemma zero_or_NaN_mul_r (x y : xreal) :
  y = XFin 0 \/ y = XNaN -> XReal.mul x y = XFin 0 \/ XReal.mul x y = XNaN.
Proof. rewrite xreal_mul_comm. apply zero_or_NaN_mul_l. Qed.

Lemma zero_or_NaN_fold {B : Type} (f : B -> xreal) (l : list B) (acc : xreal) :
  acc = XFin 0 \/ acc = XNaN ->
  (forall i, In i l -> f i = XFin 0 \/ f i = XNaN) ->
  fold_left (fun acc i => XReal.add acc (f i)) l acc = XFin 0
  \/ fold_left (fun acc i => XReal.add acc (f i)) l acc = XNaN.
Proof.
  revert acc; induction l as [| i l IH]; intros acc Hacc Hf; [exact Hacc |].
  simpl. apply IH; [| intros j Hj; apply Hf; right; exact Hj].
  destruct Hacc as [-> | ->]; [| right; reflexivity].
  destruct (Hf i (or_introl eq_refl)) as [-> | ->]; [left | right; reflexivity].
  simpl. f_equal. ring.
Qed.

Lemma zero_or_NaN_sqrt (x : xreal) :
  x = XFin 0 \/ x = XNaN -> XReal.sqrt x = XFin 0 \/ XReal.sqrt x = XNaN.
Proof.
  intros [-> | ->]; [left | right; reflexivity].
  simpl. rewrite Rltb_false by lra. f_equal. apply sqrt_0.
Qed.

Lemma zero_or_NaN_div (x y : xreal) :
  x = XFin 0 \/ x = XNaN -> y = XFin 0 \/ y = XNaN -> XReal.div x y = XNaN.
Proof.
  intros [-> | ->] [-> | ->]; try reflexivity.
  apply XRealFacts.zero_div_zero.
Qed.

Lemma at_num_zero_vector (zeros : list xreal) (i : nat) :
  Forall (fun x => x = XFin 0) zeros ->
  at_num zeros i = XFin 0 \/ at_num zeros i = XNaN.
Proof.
  intros Hz. unfold at_num.
  destruct (Nat.lt_ge_cases i (length zeros)) as [Hlt | Hge].
  - left. rewrite Forall_forall in Hz. apply Hz. apply nth_In. exact Hlt.
  - right. apply nth_overflow. exact Hge.
Qed.

Lemma norm_zero_vector (zeros : list xreal) :
  Forall (fun x => x = XFin 0) zeros -> norm zeros = XFin 0 \/ norm zeros = XNaN.
Proof.
  intros Hz. unfold norm. apply zero_or_NaN_sqrt.
  apply (zero_or_NaN_fold (fun i => XReal.mul (at_num zeros i) (at_num zeros i))).
  - left. reflexivity.
  - intros i _. apply zero_or_NaN_mul_l. apply at_num_zero_vector. exact Hz.
Qed.

(** The cosine similarity with a vector of zeros, the empty vector
    included, is NaN on either side, whatever the other vector is (exact
    arithmetic): the norm of the zero vector is 0 and the quotient is
    0 / 0. *)
Theorem cosineSimilarity_zero_vector (zeros other : list xreal) :
  Forall (fun x => x = XFin 0) zeros ->
  cosineSimilarity zeros other = XNaN /\ cosineSimilarity other zeros = XNaN.
Proof.
  intros Hz. unfold cosineSimilarity. split; apply zero_or_NaN_div.
  - unfold dotProduct.
    apply (zero_or_NaN_fold (fun i => XReal.mul (at_num zeros i) (at_num other i)));
      [left; reflexivity |].
    intros i _. apply zero_or_NaN_mul_l. apply at_num_zero_vector. exact Hz.
  - apply zero_or_NaN_mul_l. apply norm_zero_vector. exact Hz.
  - unfold dotProduct.
    apply (zero_or_NaN_fold (fun i => XReal.mul (at_num other i) (at_num zeros i)));
      [left; reflexivity |].
    intros i _. apply zero_or_NaN_mul_r. apply at_num_zero_vector. exact Hz.
  - apply zero_or_NaN_mul_r. apply norm_zero_vector. exact Hz.
Qed.

(** When the second vector is shorter than the first, the dot product
    reads past its end and the cosine similarity is NaN, whatever the
    entries are (exact arithmetic). *)
Theorem cosineSimilarity_shorter_second (vecA vecB : list xreal) :
  length vecB < length vecA ->
  dotProduct vecA vecB = XNaN /\ cosineSimilarity vecA vecB = XNaN.
Proof.
  intros Hlen.
  assert (Hdot : dotProduct vecA vecB = XNaN).
  { unfold dotProduct.
    apply (fold_add_NaN_term (fun i => XReal.mul (at_num vecA i) (at_num vecB i))
             _ _ (length vecB)).
    - apply in_seq. lia.
    - unfold at_num at 2. rewrite nth_overflow by lia. apply xreal_mul_NaN_r. }
  split; [exact Hdot |]. unfold cosineSimilarity. rewrite Hdot. reflexivity.
Qed.

Lemma dotProduct_comm (vecA vecB : list xreal) :
  length vecA = length vecB -> dotProduct vecA vecB = dotProduct vecB vecA.
Proof.
  intros Hlen. unfold dotProduct. rewrite Hlen.
  apply fold_left_ext_in. intros acc i _. cbn [num_add num_mul xreal_Number].
  rewrite xreal_mul_comm. reflexivity.
Qed.

(** On vectors of one length the cosine similarity is symmetric, whatever
    the entries are (exact arithmetic). *)
Theorem cosineSimilarity_symmetric (vecA vecB : list xreal) :
  length vecA = length vecB ->
  cosineSimilarity vecA vecB = cosineSimilarity vecB vecA.
Proof.
  intros Hlen. unfold cosineSimilarity.
  rewrite (dotProduct_comm vecA vecB Hlen).
  cbn [num_div num_mul xreal_Number]. rewrite (xreal_mul_comm (norm vecA)). reflexivity.
Qed.

(** ** Exceptions of the matrix readers *)

(** A loop throws when one of its rounds throws and the rounds before it
    return. *)
Lemma forM_throws {B S : Type} (bad : B -> Prop) (body : S -> B -> result S)
    (l : list B) (acc : S) (e : error) :
  (forall x, In x l -> bad x \/ ~ bad x) ->
  (forall s x, In x l -> bad x -> body s x = Throw e) ->
  (forall s x, In x l -> ~ bad x -> exists s', body s x = Ok s') ->
  Exists bad l -> forM l body acc = Throw e.
Proof.
  revert acc; induction l as [| x l IH]; intros acc Hdec Hbad Hgood Hex;
    [inversion Hex |].
  simpl. destruct (Hdec x (or_introl eq_refl)) as [Hx | Hx].
  - rewrite (Hbad acc x (or_introl eq_refl) Hx). reflexivity.
  - destruct (Hgood acc x (or_introl eq_refl) Hx) as [s' ->]. simpl.
    apply IH.
    + intros y Hy. apply Hdec. right. exact Hy.
    + intros s y Hy. apply Hbad. right. exact Hy.
    + intros s y Hy. apply Hgood. right. exact Hy.
    + inversion Hex; subst; [contradiction | assumption].
Qed.

Section Throws.

Context {num : Type} `{Number num}.
Local Open Scope js_scope.

Lemma at_matrix_missing (M : list (list num)) (a b : nat) :
  length M <= a -> at_matrix M a b = Throw TypeError.
Proof.
  intros Ha. unfold at_matrix.
  rewrite (proj2 (nth_error_None M a) Ha). reflexivity.
Qed.

(** [averageDistance] throws exactly when [setB] is not empty and [setA]
    names a row that the matrix lacks; missing columns never throw.  This
    holds in every model of numbers. *)
Theorem averageDistance_throws (setA setB : list nat) (M : list (list num)) :
  averageDistance setA setB M = Throw TypeError
  <-> setB <> [] /\ Exists (fun a => length M <= a) setA.
Proof.
  split.
  - intros Hthrow.
    destruct setB as [| b setB].
    + unfold averageDistance in Hthrow. rewrite averageDistance_loops_nil in Hthrow.
      discriminate.
    + split; [discriminate |].
      destruct (Exists_dec (fun a => length M <= a) setA) as [Hex | Hnex];
        [intros a; apply le_dec | exact Hex |].
      exfalso. rewrite averageDistance_sum in Hthrow; [discriminate |].
      apply Forall_Exists_neg in Hnex.
      eapply Forall_impl; [| exact Hnex]. simpl. intros a Ha. lia.
  - intros [HB Hex]. unfold averageDistance.
    rewrite (forM_throws (fun a => length M <= a) _ setA _ TypeError); [reflexivity | | | | exact Hex].
    + intros a _. lia.
    + intros s a _ Ha. destruct setB as [| b setB]; [contradiction |].
      simpl. rewrite at_matrix_missing by exact Ha. reflexivity.
    + intros s a _ Ha. eexists.
      rewrite (forM_ext_in setB _ (fun distance b => Ok (distance + entry M a b))).
      * apply forM_pure.
      * intros acc b _. rewrite at_matrix_entry by lia. reflexivity.
Qed.

(** The two loops of [calculateClusterVariance] visit the unordered pairs
    of members. *)
Lemma calculateClusterVariance_loops (c : list nat) (M : list (list num))
    (init : num * nat) :
  forM (seq 0 (length c))
    (fun acc i =>
       forM (seq (i + 1) (length c - (i + 1)))
         (fun acc j =>
            let '(sumOfDistances, count) := acc in
            d <- calculateDistance (nth i c 0) (nth j c 0) M ;;
            Ok (sumOfDistances + d, S count))
         acc)
    init
  = forM (pairs_of c)
      (fun acc p => d <- at_matrix M (fst p) (snd p) ;; Ok (fst acc + d, S (snd acc)))
      init.
Proof.
  rewrite <- scan_pairs_members, forM_map.
  unfold scan_pairs. rewrite forM_flat_map.
  apply forM_ext_in. intros acc i _.
  rewrite forM_map. apply forM_ext_in. intros [s k] j _. reflexivity.
Qed.

Lemma pairs_of_firsts (c : list nat) (x : nat) :
  In x (map fst (pairs_of c)) <-> In x (removelast c).
Proof.
  induction c as [| y c IH]; [simpl; tauto |].
  cbn [pairs_of]. rewrite map_app, map_map, in_app_iff, IH. cbn [fst].
  destruct c as [| z c]; [simpl; tauto |].
  change (removelast (y :: z :: c)) with (y :: removelast (z :: c)).
  rewrite in_map_iff. simpl In at 3. split.
  - intros [[w [<- _]] | Hin]; [left; reflexivity | right; exact Hin].
  - intros [<- | Hin]; [left; exists z; split; [reflexivity | left; reflexivity]
                       | right; exact Hin].
Qed.

(** [calculateClusterVariance] throws exactly when a member of the
    cluster other than the last one names a row that the matrix lacks: the
    row of the last member is never read.  Otherwise it returns.  This
    holds in every model of numbers. *)
Theorem calculateClusterVariance_throws (c : list nat) (M : list (list num)) :
  (calculateClusterVariance c M = Throw TypeError
   <-> Exists (fun i => length M <= i) (removelast c))
  /\ (Forall (fun i => i < length M) (removelast c) ->
      calculateClusterVariance c M = Ok (mean_pairwise_distance M c)).
Proof.
  assert (Hrows : Forall (fun i => i < length M) (removelast c) -> pair_rows_exist M c).
  { intros Hall. unfold pair_rows_exist. apply Forall_forall. intros p Hp.
    rewrite Forall_forall in Hall. apply Hall. apply pairs_of_firsts.
    apply in_map. exact Hp. }
  split; [| intros Hall; apply calculateClusterVariance_mean, Hrows, Hall].
  split.
  - intros Hthrow.
    destruct (Exists_dec (fun i => length M <= i) (removelast c)) as [Hex | Hnex];
      [intros a; apply le_dec | exact Hex |].
    exfalso. apply Forall_Exists_neg in Hnex.
    rewrite calculateClusterVariance_mean in Hthrow; [discriminate |].
    apply Hrows. eapply Forall_impl; [| exact Hnex]. simpl. intros a Ha. lia.
  - intros Hex. unfold calculateClusterVariance.
    destruct (length c <=? 1) eqn:Hlen.
    + apply Nat.leb_le in Hlen. destruct c as [| x [| y c]]; simpl in Hlen; try lia;
        inversion Hex.
    + rewrite calculateClusterVariance_loops.
      rewrite (forM_throws (fun p => length M <= fst p) _ (pairs_of c) _ TypeError);
        [reflexivity | | | |].
      * intros p _. lia.
      * intros s p _ Hp. rewrite at_matrix_missing by exact Hp. reflexivity.
      * intros s p _ Hp. eexists. rewrite at_matrix_entry by lia. reflexivity.
      * apply Exists_exists in Hex. destruct Hex as [i [Hi Hbad]].
        apply pairs_of_firsts in Hi. apply in_map_iff in Hi.
        destruct Hi as [p [<- Hp]]. apply Exists_exists. exists p. split; assumption.
Qed.

End Throws.

(** ** The states of a run, one after the other *)

Section Chain.

Context {num : Type} `{Number num}.

Variables (N : nat) (M : list (list num)) (linkage : linkage_fn num)
          (onProgress : callback).
Variable P : list (cluster num) -> Prop.

Hypothesis P_merge :
  forall clusters, P clusters -> 2 <= length clusters ->
    exists clusters',
      mergeIteration clusters M linkage = Ok clusters'
      /\ P clusters' /\ S (length clusters') = length clusters.

(** The slices are the index sets of the successive working collections,
    each the merge of the one before. *)
Lemma loop_chain :
  forall (m iteration : nat) (clusters : list (cluster num))
         (clustersGivenK : list (list (list nat))) (log : list num),
    (iteration + m)%nat = N -> 1 <= m ->
    length clusters = m -> P clusters ->
    exists root states,
      forBreak (seq iteration m) (iterationBody N M linkage onProgress)
        (clusters, clustersGivenK) log
      = (Ok ([root], clustersGivenK ++ map (map indexes) states),
         log ++ reports onProgress (map (merge_progress N) (seq iteration m)))
      /\ length states = m
      /\ nth 0 states [] = clusters
      /\ (forall j, j < m -> P (nth j states []) /\ length (nth j states []) = (m - j)%nat)
      /\ (forall j, S j < m ->
            mergeIteration (nth j states []) M linkage = Ok (nth (S j) states [])).
Proof.
  induction m as [| m IH]; intros iteration clusters givenK log HN Hm Hlen HP; [lia |].
  destruct (Nat.eq_dec m 0) as [-> | Hm'].
  - destruct clusters as [| root [| ? ?]]; try discriminate.
    exists root, [[root]].
    cbn [seq forBreak map]. unfold bind.
    rewrite iterationBody_break by (apply Z.leb_le; lia).
    split; [reflexivity |]. split; [reflexivity |]. split; [reflexivity |].
    split; intros j Hj; [| lia].
    assert (j = 0) by lia. subst j. split; [exact HP | reflexivity].
  - destruct (P_merge clusters HP) as [clusters' [Hmerge [HP' Hlen']]]; [lia |].
    destruct (IH (S iteration) clusters' (givenK ++ [map indexes clusters])
                (log ++ reports onProgress [merge_progress N iteration]))
      as [root [states [Hrun [Hslen [Hfirst [HPs Hchain]]]]]];
      [lia | lia | lia | exact HP' |].
    exists root, (clusters :: states).
    cbn [seq forBreak map]. unfold bind at 1.
    rewrite (iterationBody_continue N M linkage onProgress clusters clusters')
      by (try apply Z.leb_gt; try lia; exact Hmerge).
    rewrite Hrun.
    split; [| split; [simpl; lia | split; [reflexivity | split]]].
    + rewrite <- !app_assoc. simpl.
      replace (merge_progress N iteration :: map (merge_progress N) (seq (S iteration) m))
        with ([merge_progress N iteration] ++ map (merge_progress N) (seq (S iteration) m))
        by reflexivity.
      rewrite reports_app. reflexivity.
    + intros [| j] Hj; [split; [exact HP | simpl; lia] |].
      simpl. destruct (HPs j) as [HPj Hlenj]; [lia |]. split; [exact HPj | lia].
    + intros [| j] Hj.
      * simpl. rewrite Hfirst. exact Hmerge.
      * simpl nth. apply Hchain. lia.
Qed.

End Chain.

Section ChainRun.

Context {num : Type} `{Number num}.

Lemma nth_map_default {B C : Type} (f : B -> C) (l : list B) (j : nat) (d : B) (d' : C) :
  j < length l -> nth j (map f l) d' = f (nth j l d).
Proof.
  intros Hj. rewrite (nth_indep _ d' (f d)) by (rewrite length_map; exact Hj).
  apply map_nth.
Qed.

(** A complete run as a chain of states. *)
Lemma clusterData_chain {A : Type} (data : list A) (distance : A -> A -> num)
    (linkage : linkage_fn num) (onProgress : callback) (log : list num)
    (P : list (cluster num) -> Prop) :
  let N := length data in
  let M := distance_matrix data distance in
  data <> [] ->
  P (map (fun index => Cluster (num_of_nat 0) [index] None) (seq 0 N)) ->
  (forall clusters, P clusters -> 2 <= length clusters ->
     exists clusters',
       mergeIteration clusters M linkage = Ok clusters'
       /\ P clusters' /\ S (length clusters') = length clusters) ->
  exists result log' states,
    clusterData data distance linkage onProgress log = (Ok result, log')
    /\ length states = N
    /\ nth 0 states [] = map (fun index => Cluster (num_of_nat 0) [index] None) (seq 0 N)
    /\ (forall K, 1 <= K <= N ->
          nth K (clustersGivenK result) [] = map indexes (nth (N - K) states [])
          /\ P (nth (N - K) states [])
          /\ length (nth (N - K) states []) = K)
    /\ (forall K, 1 <= K < N ->
          mergeIteration (nth (N - (K + 1)) states []) M linkage
          = Ok (nth (N - K) states [])).
Proof.
  intros N M Hdata Hinit Hmerge.
  assert (HN : 1 <= N) by (unfold N; destruct data; [contradiction | simpl; lia]).
  destruct (loop_chain N M linkage onProgress P Hmerge
              N 0 (map (fun index => Cluster (num_of_nat 0) [index] None) (seq 0 N)) []
              (log ++ reports onProgress (map (build_progress N) (seq 0 N))))
    as [root [states [Hrun [Hlen [Hfirst [HPs Hchain]]]]]].
  { reflexivity. } { exact HN. } { rewrite length_map, length_seq. reflexivity. }
  { exact Hinit. }
  eexists. eexists. exists states.
  split; [| split; [exact Hlen | split; [exact Hfirst | split]]].
  - unfold clusterData. fold N. unfold bind at 1.
    rewrite build_run. cbv beta iota. fold (distance_matrix data distance). fold M.
    fold N. unfold bind at 1. rewrite Hrun. cbv beta iota. simpl app.
    unfold bind, lift, ret. simpl. reflexivity.
  - intros K HK. cbn [clustersGivenK].
    rewrite (slice_of_K N K (map (map indexes) states)) by (rewrite ?length_map; lia).
    rewrite (nth_map_default (map indexes) states (N - K) [] []) by lia.
    destruct (HPs (N - K)%nat) as [HPK HlenK]; [lia |].
    split; [reflexivity | split; [exact HPK | lia]].
  - intros K HK.
    replace (N - K)%nat with (S (N - (K + 1))) by lia.
    apply Hchain. lia.
Qed.

(** When the linkage values on every two disjoint non-empty index sets
    are below [Infinity], so that every merge has a pair to choose, each
    entry of the table comes from the entry above it by taking two of its
    index sets out and appending their concatenation: the partitions are
    nested, entry K + 1 refines entry K.  This holds in every model of
    numbers, IEEE doubles included. *)
Theorem clustersGivenK_nested {A : Type} (data : list A) (distance : A -> A -> num)
    (linkage : linkage_fn num) (onProgress : callback) (log : list num) :
  let N := length data in
  data <> [] ->
  linkage_below_Infinity N (distance_matrix data distance) linkage ->
  exists result log',
    clusterData data distance linkage onProgress log = (Ok result, log')
    /\ forall K, 1 <= K < N ->
         exists l1 a l2 b l3,
           nth (K + 1) (clustersGivenK result) [] = l1 ++ a :: l2 ++ b :: l3
           /\ nth K (clustersGivenK result) [] = (l1 ++ l2 ++ l3) ++ [a ++ b].
Proof.
  intros N Hdata Hlink.
  destruct (clusterData_chain data distance linkage onProgress log (live N))
    as [result [log' [states [Hrun [Hlen [Hfirst [Hentries Hchain]]]]]]].
  - exact Hdata.
  - apply singletons_live.
  - intros clusters HP Hlen. apply mergeIteration_live; assumption.
  - exists result, log'. split; [exact Hrun |].
    intros K HK.
    destruct (Hentries K) as [HK1 _]; [lia |].
    destruct (Hentries (K + 1)) as [HK2 [Hlive HlenK]]; [lia |].
    specialize (Hchain K HK).
    destruct (mergeIteration_proper N _ linkage _ Hlink Hlive)
      as [d [a [b [l1 [l2 [l3 [Hl [Hmerge _]]]]]]]]; [lia |].
    rewrite Hchain in Hmerge. inversion Hmerge as [Hnext].
    exists (map indexes l1), (indexes a), (map indexes l2), (indexes b), (map indexes l3).
    rewrite HK1, HK2, Hnext, Hl.
    rewrite !map_app. simpl. rewrite !map_app. simpl. split; reflexivity.
Qed.

End ChainRun.

(** ** The first merge *)

(** Between two single records the default linkage is their distance,
    whatever it is (exact arithmetic). *)
Lemma averageDistance_singletons (M : list (list xreal)) (i j : nat) :
  i < length M -> averageDistance [i] [j] M = Ok (entry M i j).
Proof.
  intros Hi. rewrite averageDistance_sum by (constructor; [exact Hi | constructor]).
  f_equal. unfold sum_of, pair_distances. simpl.
  destruct (entry M i j) as [| s | r]; unfold XReal.div.
  - reflexivity.
  - rewrite !Rltb_false by lra. destruct s; reflexivity.
  - rewrite (Reqb_false 1 0) by lra. f_equal. field.
Qed.

Lemma nth_error_singletons {num : Type} `{Number num} (N k : nat) :
  k < N ->
  nth_error (map (fun index => Cluster (num_of_nat 0) [index] None) (seq 0 N)) k
  = Some (Cluster (num_of_nat 0) [k] None).
Proof.
  intros Hk.
  apply (map_nth_error (fun index => Cluster (num_of_nat 0) [index] None)).
  rewrite nth_error_seq. replace (k <? N) with true by (symmetry; apply Nat.ltb_lt; exact Hk).
  reflexivity.
Qed.

Lemma splice1_map {B C : Type} (f : B -> C) (i : nat) (l : list B) :
  splice1 i (map f l) = map f (splice1 i l).
Proof. unfold splice1. rewrite map_app, firstn_map, skipn_map. reflexivity. Qed.

(** From the singletons, over real distances, the merge joins a pair of
    records whose distance no pair undercuts. *)
Lemma first_merge {A : Type} (data : list A) (distance : A -> A -> xreal) :
  let N := length data in
  let M := distance_matrix data distance in
  2 <= N ->
  (forall x y, In x data -> In y data -> finite (distance x y)) ->
  exists i j d,
    i < j < N
    /\ entry M i j = XFin d
    /\ (forall r c d', r < c < N -> entry M r c = XFin d' -> (d <= d')%R)
    /\ mergeIteration (map (fun index => Cluster (@num_of_nat xreal _ 0) [index] None) (seq 0 N))
         M averageDistance
       = Ok (splice1 i (splice1 j (map (fun index => Cluster (@num_of_nat xreal _ 0) [index] None) (seq 0 N)))
             ++ [Cluster (XFin d) [i; j]
                   (Some (Cluster (@num_of_nat xreal _ 0) [i] None, Cluster (@num_of_nat xreal _ 0) [j] None))]).
Proof.
  intros N M HN Hfin.
  set (singles := map (fun index => Cluster (@num_of_nat xreal _ 0) [index] None) (seq 0 N)).
  assert (Hlen : length singles = N) by (unfold singles; rewrite length_map, length_seq; reflexivity).
  assert (Hentry : forall r c, r < N -> c < N -> finite (entry M r c)).
  { intros r c Hr Hc.
    destruct (nth_error data r) as [x |] eqn:Hx; [| apply nth_error_None in Hx; fold N in Hx; lia].
    destruct (nth_error data c) as [y |] eqn:Hy; [| apply nth_error_None in Hy; fold N in Hy; lia].
    unfold M. rewrite (distance_matrix_entry data distance r c x y Hx Hy).
    apply Hfin; eapply nth_error_In; eassumption. }
  assert (Hpair : forall r c, r < c < N ->
            pair_linkage singles M averageDistance (r, c) = Ok (entry M r c)).
  { intros r c Hrc. unfold pair_linkage, cluster_at. cbn [fst snd].
    unfold singles.
    rewrite (nth_error_singletons (num := xreal) N r) by lia.
    rewrite (nth_error_singletons (num := xreal) N c) by lia.
    cbn [rbind indexes]. apply averageDistance_singletons.
    unfold M. rewrite distance_matrix_length. fold N. lia. }
  destruct (findNearest_fold singles M averageDistance) as [value [Hvalue Hfind]].
  { intros r c Hrc. rewrite Hlen in Hrc. eexists. apply Hpair. exact Hrc. }
  pose proof (scan_minimum value (scan_pairs (length singles)) Infinity 0 0) as Hscan.
  destruct (fold_left (scan_step value) (scan_pairs (length singles)) (Infinity, 0, 0))
    as [[v i] j].
  destruct Hscan as [[_ Hnone] | [l1 [l2 [Hl [Hv [_ [Hbefore Hafter]]]]]]].
  { exfalso. assert (H01 : 0 < 1 < length singles) by lia.
    specialize (Hnone (0, 1) (proj2 (in_scan_pairs _ _ _) H01)).
    rewrite (Hvalue 0 1 _ H01 (Hpair 0 1 ltac:(lia))) in Hnone.
    destruct (Hentry 0 1) as [r Hr]; try lia. rewrite Hr in Hnone. discriminate. }
  assert (Hin : In (i, j) (scan_pairs (length singles))).
  { rewrite Hl. apply in_or_app. right. left. reflexivity. }
  apply in_scan_pairs in Hin.
  assert (Hvij : v = entry M i j).
  { rewrite Hv. apply (Hvalue i j _ Hin). apply Hpair. lia. }
  destruct (Hentry i j) as [d Hd]; try lia.
  exists i, j, d. split; [lia |]. split; [exact Hd |]. split.
  - intros r c d' Hrc Hd'.
    assert (Hq : In (r, c) (l1 ++ (i, j) :: l2))
      by (rewrite <- Hl; apply in_scan_pairs; lia).
    assert (Hnot : XReal.lt (value (r, c)) v = false).
    { apply in_app_or in Hq. destruct Hq as [Hq | [Hq | Hq]].
      - apply Hbefore. exact Hq.
      - inversion Hq; subst. apply XRealFacts.lt_irrefl.
      - apply Hafter. exact Hq. }
    rewrite (Hvalue r c (entry M r c)) in Hnot by (try lia; apply Hpair; exact Hrc).
    rewrite Hvij, Hd, Hd' in Hnot. simpl in Hnot. unfold Rltb in Hnot.
    destruct (Rlt_dec d' d); [discriminate | lra].
  - unfold mergeIteration. fold singles. rewrite Hfind. cbn [rbind].
    rewrite (mergeNearest_pair singles v i j (Cluster (@num_of_nat xreal _ 0) [i] None)
               (Cluster (@num_of_nat xreal _ 0) [j] None)).
    + rewrite Hvij, Hd. reflexivity.
    + lia.
    + apply (nth_error_singletons (num := xreal)). lia.
    + apply (nth_error_singletons (num := xreal)). lia.
Qed.

(** With the default linkage over real distances and N >= 2 records, the
    first merge joins two records i < j whose distance no pair of records
    undercuts: entry N - 1 of the table is the singletons without [i] and
    [j], followed by [i, j]. *)
Theorem clusterData_first_merge {A : Type} (data : list A) (distance : A -> A -> xreal)
    (onProgress : callback) (log : list xreal) :
  let N := length data in
  2 <= N ->
  (forall x y, In x data -> In y data -> finite (distance x y)) ->
  exists result log' i j d,
    clusterData data distance averageDistance onProgress log = (Ok result, log')
    /\ i < j < N
    /\ entry (distances result) i j = XFin d
    /\ (forall r c d', r < c < N -> entry (distances result) r c = XFin d' -> (d <= d')%R)
    /\ nth (N - 1) (clustersGivenK result) []
       = splice1 i (splice1 j (map (fun k => [k]) (seq 0 N))) ++ [[i; j]].
Proof.
  intros N HN Hfin.
  assert (Hdata : data <> []) by (unfold N in HN; intros ->; simpl in HN; lia).
  pose proof (averageDistance_below_Infinity data distance Hfin) as Hlink.
  destruct (clusterData_chain data distance averageDistance onProgress log (live N))
    as [result [log' [states [Hrun [Hlen [Hfirst [Hentries Hchain]]]]]]].
  - exact Hdata.
  - apply singletons_live.
  - intros clusters HP Hlen. apply mergeIteration_live; assumption.
  - destruct (first_merge data distance HN Hfin) as [i [j [d [Hij [Hd [Hmin Hmerge]]]]]].
    exists result, log', i, j, d.
    assert (Hdist : distances result = distance_matrix data distance).
    { pose proof (clusterData_run_any data distance averageDistance onProgress log Hdata
                    (averageDistance_returns data distance)) as [root [snaps [Hrun' _]]].
      rewrite Hrun in Hrun'. inversion Hrun'. reflexivity. }
    rewrite Hdist.
    split; [exact Hrun |]. split; [exact Hij |]. split; [exact Hd |].
    split; [exact Hmin |].
    destruct (Hentries (N - 1)%nat) as [-> _]; [lia |].
    specialize (Hchain (N - 1)%nat ltac:(lia)).
    unfold N in *.
    replace (length data - (length data - 1 + 1))%nat with 0 in Hchain by lia.
    rewrite Hfirst in Hchain.
    rewrite Hmerge in Hchain. injection Hchain as Hstate. rewrite <- Hstate.
    rewrite map_app, <- !splice1_map, map_map. reflexivity.
Qed.

(** ** The variance of the clusters that [clusterData] returns *)

Lemma pairs_of_members (c : list nat) (p : nat * nat) :
  In p (pairs_of c) -> In (fst p) c /\ In (snd p) c.
Proof.
  induction c as [| x c IH]; [intros [] |].
  cbn [pairs_of]. rewrite in_app_iff, in_map_iff.
  intros [[y [<- Hy]] | Hin].
  - split; [left; reflexivity | right; exact Hy].
  - destruct (IH Hin). split; right; assumption.
Qed.

Section VarianceRun.

Context {num : Type} `{Number num}.
Local Open Scope js_scope.

Lemma in_range_rows (M : list (list num)) (sets : list (list nat)) :
  Forall (Forall (fun i => i < length M)) sets -> Forall (pair_rows_exist M) sets.
Proof.
  intros Hsets. eapply Forall_impl; [| exact Hsets].
  intros c Hc. unfold pair_rows_exist. apply Forall_forall. intros p Hp.
  rewrite Forall_forall in Hc. apply Hc. apply pairs_of_members. exact Hp.
Qed.

(** The table of a run, as [calculateWithinClusterVariance] reads it. *)
Lemma clusterData_table {A : Type} (data : list A) (distance : A -> A -> num)
    (linkage : linkage_fn num) (onProgress : callback) (log : list num) :
  let N := length data in
  data <> [] ->
  linkage_returns N (distance_matrix data distance) linkage ->
  exists result log',
    clusterData data distance linkage onProgress log = (Ok result, log')
    /\ distances result = distance_matrix data distance
    /\ length (clustersGivenK result) = (N + 1)%nat
    /\ (forall K, 1 <= K <= N ->
          Forall (Forall (fun i => i < N)) (nth K (clustersGivenK result) []))
    /\ nth N (clustersGivenK result) [] = map (fun i => [i]) (seq 0 N).
Proof.
  intros N Hdata Hlink.
  assert (HN : 1 <= N) by (unfold N; destruct data; [contradiction | simpl; lia]).
  destruct (clusterData_run_any data distance linkage onProgress log Hdata Hlink)
    as [root [snapshots [Hrun [[Hlen Hsl] [Hfirst _]]]]].
  fold N in Hlen, Hsl, Hfirst.
  eexists. eexists. split; [exact Hrun |].
  cbn [clustersGivenK distances].
  split; [reflexivity |].
  split; [simpl; rewrite length_rev; lia |]. split.
  - intros K HK. rewrite (slice_of_K N K snapshots Hlen HK).
    destruct (Hsl (N - K)%nat) as [cs [-> [Hcslen [Hrange _]]]]; [lia |].
    apply Forall_map. exact Hrange.
  - rewrite (slice_of_K N N snapshots Hlen) by lia.
    replace (N - N)%nat with 0 by lia. exact Hfirst.
Qed.

(** On the table and the matrix that [clusterData] returns,
    [calculateWithinClusterVariance] never throws, in any arithmetic: it
    returns null for K < 1 and for K > N, and for K in 1..N the sum over
    the K clusters of the mean pairwise distance inside each of them. *)
Theorem clusterData_variance_returns {A : Type} (data : list A) (distance : A -> A -> num)
    (linkage : linkage_fn num) (onProgress : callback) (log : list num) :
  let N := length data in
  data <> [] ->
  linkage_returns N (distance_matrix data distance) linkage ->
  exists result log',
    clusterData data distance linkage onProgress log = (Ok result, log')
    /\ forall K : Z,
         ((K < 1 \/ Z.of_nat N < K)%Z ->
          calculateWithinClusterVariance (clustersGivenK result) (distances result) K
          = Ok None)
         /\ ((1 <= K <= Z.of_nat N)%Z ->
             calculateWithinClusterVariance (clustersGivenK result) (distances result) K
             = Ok (Some (sum_of (map (mean_pairwise_distance (distances result))
                                   (nth (Z.to_nat K) (clustersGivenK result) []))))).
Proof.
  intros N Hdata Hlink.
  destruct (clusterData_table data distance linkage onProgress log Hdata Hlink)
    as [result [log' [Hrun [Hdist [Hlen [Hrange _]]]]]].
  fold N in Hlen, Hrange.
  exists result, log'. split; [exact Hrun |].
  intros K. split.
  - intros HK. apply calculateWithinClusterVariance_null. rewrite Hlen. lia.
  - intros HK. apply calculateWithinClusterVariance_value; [rewrite Hlen; lia |].
    apply in_range_rows. rewrite Hdist, distance_matrix_length. fold N.
    apply Hrange. lia.
Qed.

End VarianceRun.

Section VarianceOfSingletons.

Context {num : Type} `{Number num}.
Local Open Scope js_scope.

Lemma sum_of_zeros (l : list nat) :
  num_of_nat 0 + num_of_nat 0 = num_of_nat 0 ->
  sum_of (map (fun _ => num_of_nat 0) l) = num_of_nat 0.
Proof.
  intros Hzero. unfold sum_of.
  induction l as [| x l IH]; [reflexivity |].
  simpl. rewrite Hzero. exact IH.
Qed.

(** In every model of numbers where 0 + 0 is 0, IEEE doubles and exact
    reals among them, whatever the distances and whatever the linkage
    function returns: on the table and the matrix of [clusterData], the
    within-cluster variance for K = N, where every cluster is one record,
    is 0. *)
Theorem clusterData_variance_singletons {A : Type} (data : list A)
    (distance : A -> A -> num) (linkage : linkage_fn num) (onProgress : callback)
    (log : list num) :
  let N := length data in
  num_of_nat 0 + num_of_nat 0 = num_of_nat 0 ->
  data <> [] ->
  linkage_returns N (distance_matrix data distance) linkage ->
  exists result log',
    clusterData data distance linkage onProgress log = (Ok result, log')
    /\ nth N (clustersGivenK result) [] = map (fun i => [i]) (seq 0 N)
    /\ calculateWithinClusterVariance (clustersGivenK result) (distances result)
         (Z.of_nat N)
       = Ok (Some (num_of_nat 0)).
Proof.
  intros N Hzero Hdata Hlink.
  assert (HN : 1 <= N) by (unfold N; destruct data; [contradiction | simpl; lia]).
  destruct (clusterData_table data distance linkage onProgress log Hdata Hlink)
    as [result [log' [Hrun [Hdist [Hlen [Hrange Hlast]]]]]].
  fold N in Hlen, Hrange, Hlast.
  exists result, log'. split; [exact Hrun |]. split; [exact Hlast |].
  rewrite calculateWithinClusterVariance_value.
  - rewrite Nat2Z.id, Hlast, map_map.
    rewrite (map_ext (fun i => mean_pairwise_distance (distances result) [i])
               (fun _ => num_of_nat 0)) by reflexivity.
    rewrite sum_of_zeros by exact Hzero. reflexivity.
  - rewrite Hlen. lia.
  - apply in_range_rows. rewrite Hdist, distance_matrix_length. fold N.
    rewrite Nat2Z.id. apply Hrange. lia.
Qed.

End VarianceOfSingletons.

(** ** The elbow, whatever the variances are *)

Section ElbowRange.

Context {num : Type} `{Number num}.
Local Open Scope js_scope.

Lemma elbow_fold_range (step : nat -> num) (j : nat) :
  1 <= snd (fold_left
              (fun best i =>
                 let '(maxDistance, elbowPoint) := best in
                 if maxDistance <? step i then (step i, i) else best)
              (seq 2 j) (num_of_nat 0, 1)) <= (1 + j)%nat.
Proof.
  induction j as [| j IH]; [simpl; lia |].
  rewrite seq_S, fold_left_app. cbn [fold_left].
  destruct (fold_left _ (seq 2 j) (num_of_nat 0, 1)) as [m e].
  cbn [snd] in IH. destruct (m <? step (2 + j)%nat); cbn [snd]; lia.
Qed.

(** In every model of numbers, IEEE doubles included, and whatever the
    variances are (NaN and infinities included), [findElbowPoint] returns a
    K with 1 <= K <= max(1, N) for N variances. *)
Theorem findElbowPoint_in_range (variances : list num) :
  1 <= findElbowPoint variances <= Nat.max 1 (length variances).
Proof.
  unfold findElbowPoint. cbv zeta.
  pose proof (elbow_fold_range
                (fun i =>
                   num_abs
                     ((at_num [num_of_nat (length variances);
                               at_num variances (length variances - 1)] 1
                       - at_num [num_of_nat 1; at_num variances 0] 1)
                      * at_num [num_of_nat i; at_num variances (i - 1)] 0
                      - (at_num [num_of_nat (length variances);
                                 at_num variances (length variances - 1)] 0
                         - at_num [num_of_nat 1; at_num variances 0] 0)
                        * at_num [num_of_nat i; at_num variances (i - 1)] 1
                      + at_num [num_of_nat (length variances);
                                at_num variances (length variances - 1)] 0
                        * at_num [num_of_nat 1; at_num variances 0] 1
                      - at_num [num_of_nat (length variances);
                                at_num variances (length variances - 1)] 1
                        * at_num [num_of_nat 1; at_num variances 0] 0)
                   / euclideanDistance [num_of_nat 1; at_num variances 0]
                       [num_of_nat (length variances);
                        at_num variances (length variances - 1)])
                (length variances - 1)) as Hrange.
  lia.
Qed.

End ElbowRange.

(** When the first or the last variance is NaN, or there is none, every
    distance to the chord is NaN and [findElbowPoint] returns 1 (exact
    arithmetic with NaN). *)
Theorem findElbowPoint_NaN_end (variances : list xreal) :
  at_num variances 0 = XNaN \/ at_num variances (length variances - 1) = XNaN ->
  findElbowPoint variances = 1.
Proof.
  intros Hend. unfold findElbowPoint. cbv zeta.
  assert (Hfold : forall (f : xreal * nat -> nat -> xreal * nat) l best,
            (forall acc i, f acc i = acc) -> fold_left f l best = best).
  { intros f l best Hf. induction l as [| i l IH]; [reflexivity |].
    cbn [fold_left]. rewrite Hf. exact IH. }
  rewrite Hfold; [reflexivity |].
  intros [m e] i. unfold at_num in *. cbn [nth].
  cbn [num_sub num_mul num_add num_abs num_div num_lt NaN xreal_Number] in *.
  destruct Hend as [-> | ->].
  - destruct (nth (length variances - 1) variances XNaN) as [| [|] |];
      cbn [XReal.sub XReal.add XReal.opp XReal.mul XReal.abs XReal.div];
      destruct m as [| [|] |]; reflexivity.
  - cbn [XReal.sub XReal.add XReal.opp XReal.mul XReal.abs XReal.div].
    destruct m as [| [|] |]; reflexivity.
Qed.

(** ** The further properties on concrete inputs *)


Lemma clusterData_dendrogram_witness :
  four_points <> []
  /\ linkage_returns 4 (distance_matrix four_points euclideanDistance) averageDistance
  /\ exists result log',
       clusterData four_points euclideanDistance averageDistance Function []
       = (Ok result, log')
       /\ well_formed (clusters result)
       /\ order result = leaves (clusters result).
Proof.
  split; [discriminate |].
  split; [exact (averageDistance_returns four_points euclideanDistance) |].
  destruct (clusterData_dendrogram four_points euclideanDistance averageDistance Function [])
    as [result [log' [Hrun [Hwf [_ [Hleaves _]]]]]].
  - discriminate.
  - exact (averageDistance_returns four_points euclideanDistance).
  - exists result, log'. split; [exact Hrun | split; [exact Hwf | exact Hleaves]].
Defined.

(** Two zero vectors under the default distance, as doubles: every
    distance is NaN, and the run returns when the callback does. *)
Lemma clusterData_default_linkage_witness :
  zero_vectors <> []
  /\ exists result log',
       clusterData zero_vectors cosineSimilarity averageDistance Function []
       = (Ok result, log').
Proof.
  split; [discriminate |].
  destruct (clusterData_default_linkage zero_vectors cosineSimilarity Function [])
    as [_ [_ Hreturning]].
  apply (proj2 (Hreturning Function eq_refl)). discriminate.
Defined.

(** The same input with a callback that throws from every call: the
    variant with progress steps throws at the first row, where
    [hclust.js] returns. *)
Lemma clusterData_variants_agree_witness :
  zero_vectors <> []
  /\ clusterData zero_vectors cosineSimilarity averageDistance
       (Raising (fun _ _ => true)) []
     = (Throw Raised, [build_progress 2 0])
  /\ exists result,
       Hclust.clusterData zero_vectors cosineSimilarity averageDistance = Ok result
       /\ fst (clusterData zero_vectors cosineSimilarity averageDistance Function [])
          = Ok result.
Proof.
  split; [discriminate |].
  destruct (clusterData_variants_agree zero_vectors cosineSimilarity averageDistance
              (Raising (fun _ _ => true)) [])
    as [_ [_ Hraising]].
  split; [apply (Hraising (fun _ _ => true) eq_refl); [discriminate | reflexivity] |].
  destruct (clusterData_variants_agree zero_vectors cosineSimilarity averageDistance
              Function [])
    as [_ [Hreturning _]].
  eexists. split; [vm_compute; reflexivity |].
  rewrite (Hreturning Function eq_refl). vm_compute. reflexivity.
Defined.

(** The four points as doubles, under the Euclidean distance and the
    default linkage. *)
Lemma clusterData_merges_witness :
  four_points_double <> []
  /\ linkage_below_Infinity 4 (distance_matrix four_points_double euclideanDistance)
       averageDistance
  /\ exists result log',
       clusterData four_points_double euclideanDistance averageDistance Function []
       = (Ok result, log')
       /\ S (merges (clusters result)) = 4
       /\ Permutation (order result) (seq 0 4).
Proof.
  split; [discriminate |]. split; [exact four_points_double_linkage |].
  destruct (clusterData_merges four_points_double euclideanDistance averageDistance
              Function [])
    as [result [log' [Hrun [Hmerges [_ [Horder _]]]]]].
  - discriminate.
  - exact four_points_double_linkage.
  - exists result, log'. split; [exact Hrun | split; [exact Hmerges | exact Horder]].
Defined.

Lemma clusterData_distances_witness :
  zero_vectors <> []
  /\ linkage_returns 2 (distance_matrix zero_vectors cosineSimilarity) averageDistance
  /\ exists result log',
       clusterData zero_vectors cosineSimilarity averageDistance Function []
       = (Ok result, log')
       /\ length (distances result) = 2
       /\ at_matrix (distances result) 0 1
          = Ok (cosineSimilarity [0; 0]%float [0; 0]%float).
Proof.
  split; [discriminate |].
  split; [exact (averageDistance_returns zero_vectors cosineSimilarity) |].
  destruct (clusterData_distances zero_vectors cosineSimilarity averageDistance Function [])
    as [result [log' [Hrun [Hlen [_ Hentry]]]]].
  - discriminate.
  - exact (averageDistance_returns zero_vectors cosineSimilarity).
  - exists result, log'. split; [exact Hrun | split; [exact Hlen |]].
    apply Hentry; reflexivity.
Defined.


Lemma cosineSimilarity_zero_vector_witness :
  Forall (fun x => x = XFin 0) [XFin 0; XFin 0]
  /\ cosineSimilarity [XFin 0; XFin 0] [XFin 1; XFin 2] = XNaN
  /\ cosineSimilarity [XFin 1; XFin 2] [XFin 0; XFin 0] = XNaN.
Proof.
  split; [repeat constructor |].
  apply (cosineSimilarity_zero_vector [XFin 0; XFin 0] [XFin 1; XFin 2]).
  repeat constructor.
Defined.

Lemma cosineSimilarity_shorter_second_witness :
  length [XFin 1] < length [XFin 1; XFin 2]
  /\ cosineSimilarity [XFin 1; XFin 2] [XFin 1] = XNaN.
Proof.
  split; [simpl; lia |].
  apply (cosineSimilarity_shorter_second [XFin 1; XFin 2] [XFin 1]). simpl. lia.
Defined.

Lemma cosineSimilarity_symmetric_witness :
  length [XFin 1; XFin 2] = length [XFin 3; XInf false]
  /\ cosineSimilarity [XFin 1; XFin 2] [XFin 3; XInf false]
     = cosineSimilarity [XFin 3; XInf false] [XFin 1; XFin 2].
Proof.
  split; [reflexivity |].
  apply (cosineSimilarity_symmetric [XFin 1; XFin 2] [XFin 3; XInf false]). reflexivity.
Defined.

(** Row 5 is missing from a matrix of two rows. *)
Lemma averageDistance_throws_witness :
  [0] <> []
  /\ Exists (fun a => length matrix_of_two <= a) [1; 5]
  /\ averageDistance [1; 5] [0] matrix_of_two = Throw TypeError.
Proof.
  assert (Hmissing : Exists (fun a => length matrix_of_two <= a) [1; 5])
    by (right; left; simpl; lia).
  split; [discriminate |]. split; [exact Hmissing |].
  apply (proj2 (averageDistance_throws [1; 5] [0] matrix_of_two)).
  split; [discriminate | exact Hmissing].
Defined.

(** The last member of a cluster names no row: index 7 is read as a column
    only. *)
Lemma calculateClusterVariance_throws_witness :
  Forall (fun i => i < length matrix_of_two) (removelast [0; 1; 7])
  /\ calculateClusterVariance [0; 1; 7] matrix_of_two
     = Ok (mean_pairwise_distance matrix_of_two [0; 1; 7]).
Proof.
  assert (Hrows : Forall (fun i => i < length matrix_of_two) (removelast [0; 1; 7]))
    by (repeat constructor).
  split; [exact Hrows |].
  apply (proj2 (calculateClusterVariance_throws [0; 1; 7] matrix_of_two)). exact Hrows.
Defined.

Lemma clustersGivenK_nested_witness :
  four_points_double <> []
  /\ linkage_below_Infinity 4 (distance_matrix four_points_double euclideanDistance)
       averageDistance
  /\ exists result log',
       clusterData four_points_double euclideanDistance averageDistance Function []
       = (Ok result, log')
       /\ exists l1 a l2 b l3,
            nth 4 (clustersGivenK result) [] = l1 ++ a :: l2 ++ b :: l3
            /\ nth 3 (clustersGivenK result) [] = (l1 ++ l2 ++ l3) ++ [a ++ b].
Proof.
  split; [discriminate |]. split; [exact four_points_double_linkage |].
  destruct (clustersGivenK_nested four_points_double euclideanDistance averageDistance
              Function [])
    as [result [log' [Hrun Hnested]]].
  - discriminate.
  - exact four_points_double_linkage.
  - exists result, log'. split; [exact Hrun |].
    apply (Hnested 3). simpl. lia.
Defined.

Lemma clusterData_first_merge_witness :
  2 <= length four_points
  /\ exists result log' i j,
       clusterData four_points euclideanDistance averageDistance Function []
       = (Ok result, log')
       /\ i < j < 4
       /\ nth 3 (clustersGivenK result) []
          = splice1 i (splice1 j [[0]; [1]; [2]; [3]]) ++ [[i; j]].
Proof.
  split; [simpl; lia |].
  destruct (clusterData_first_merge four_points euclideanDistance Function [])
    as [result [log' [i [j [d [Hrun [Hij [_ [_ Hentry]]]]]]]]].
  - simpl. lia.
  - exact four_points_finite.
  - exists result, log', i, j. split; [exact Hrun | split; [exact Hij | exact Hentry]].
Defined.

Lemma clusterData_variance_returns_witness :
  zero_vectors <> []
  /\ linkage_returns 2 (distance_matrix zero_vectors cosineSimilarity) averageDistance
  /\ exists result log',
       clusterData zero_vectors cosineSimilarity averageDistance Function []
       = (Ok result, log')
       /\ calculateWithinClusterVariance (clustersGivenK result) (distances result) 3
          = Ok None
       /\ calculateWithinClusterVariance (clustersGivenK result) (distances result) 1
          = Ok (Some (sum_of (map (mean_pairwise_distance (distances result))
                                (nth 1 (clustersGivenK result) [])))).
Proof.
  split; [discriminate |].
  split; [exact (averageDistance_returns zero_vectors cosineSimilarity) |].
  destruct (clusterData_variance_returns zero_vectors cosineSimilarity averageDistance
              Function [])
    as [result [log' [Hrun Hvariance]]].
  - discriminate.
  - exact (averageDistance_returns zero_vectors cosineSimilarity).
  - exists result, log'. split; [exact Hrun |]. split.
    + apply (proj1 (Hvariance 3%Z)). right. simpl. lia.
    + apply (proj2 (Hvariance 1%Z)). simpl. lia.
Defined.

(** The four points as doubles. *)
Lemma clusterData_variance_singletons_witness :
  (num_of_nat 0 + num_of_nat 0 = num_of_nat 0 :> float)%js
  /\ four_points_double <> []
  /\ linkage_returns 4 (distance_matrix four_points_double euclideanDistance)
       averageDistance
  /\ exists result log',
       clusterData four_points_double euclideanDistance averageDistance Function []
       = (Ok result, log')
       /\ calculateWithinClusterVariance (clustersGivenK result) (distances result) 4
          = Ok (Some 0%float).
Proof.
  split; [reflexivity |]. split; [discriminate |].
  split; [exact (averageDistance_returns four_points_double euclideanDistance) |].
  destruct (clusterData_variance_singletons four_points_double euclideanDistance
              averageDistance Function [])
    as [result [log' [Hrun [_ Hlast]]]].
  - reflexivity.
  - discriminate.
  - exact (averageDistance_returns four_points_double euclideanDistance).
  - exists result, log'. split; [exact Hrun | exact Hlast].
Defined.

Lemma findElbowPoint_NaN_end_witness :
  at_num [XFin 9; XFin 1; XNaN] (length [XFin 9; XFin 1; XNaN] - 1) = XNaN
  /\ findElbowPoint [XFin 9; XFin 1; XNaN] = 1.
Proof.
  split; [reflexivity |].
  apply (findElbowPoint_NaN_end [XFin 9; XFin 1; XNaN]). right. reflexivity.
Defined.

(** *** C3 on the four points as doubles *)

Lemma clustersGivenK_shape_witness :
  four_points_double <> []
  /\ linkage_returns 4 (distance_matrix four_points_double euclideanDistance)
       averageDistance
  /\ linkage_below_Infinity 4 (distance_matrix four_points_double euclideanDistance)
       averageDistance
  /\ exists result log',
       clusterData four_points_double euclideanDistance averageDistance Function []
       = (Ok result, log')
       /\ length (clustersGivenK result) = 5
       /\ nth 4 (clustersGivenK result) [] = [[0]; [1]; [2]; [3]]
       /\ exists all, nth 1 (clustersGivenK result) [] = [all]
                      /\ Permutation all (seq 0 4).
Proof.
  split; [discriminate |].
  split; [exact (averageDistance_returns four_points_double euclideanDistance) |].
  split; [exact four_points_double_linkage |].
  destruct (clustersGivenK_shape four_points_double euclideanDistance averageDistance
              Function [])
    as [result [log' [Hrun [_ [Hlen [_ [_ [Hlast [_ Hfirst]]]]]]]]].
  - discriminate.
  - exact (averageDistance_returns four_points_double euclideanDistance).
  - exists result, log'.
    split; [exact Hrun | split; [exact Hlen | split; [exact Hlast |]]].
    apply Hfirst. exact four_points_double_linkage.
Defined.
